(** * Firesnap: a shallow embedding of the object-mapping and persistence engine

    The development follows the TypeScript sources of the repository:
    [utils.ts], [Schema.ts], [Validator/*.ts], [Collection.ts], [Query.ts],
    [Converter.ts], [Metadata.ts], [Firesnap.ts] and [Model/Model.ts].

    JavaScript values are a tagged union; objects are association lists of
    their own enumerable properties in enumeration order; entity instances are
    pointers into a heap; asynchronous calls are sequenced in program order;
    functions that can throw return an [outcome]. *)

From Stdlib Require Import ZArith Lia Ascii DecimalString DecimalN DecimalFacts.
From stdpp Require Import base list strings gmap.

Set Warnings "-register-all".

(** ** JavaScript string primitives used by the sources *)

(** A string is the sequence of its UTF-16 code units, one [ascii] each:
    the strings of the development are those whose code units are below
    256, and [String.length] is their [length]. *)
Module JsString.

Definition chars (s : string) : list ascii := String.list_ascii_of_string s.
Definition unchars (l : list ascii) : string := String.string_of_list_ascii l.

Definition is_digit (c : ascii) : bool :=
  let n := nat_of_ascii c in (48 <=? n)%nat && (n <=? 57)%nat.

Definition is_hex_digit (c : ascii) : bool :=
  let n := nat_of_ascii c in
  is_digit c || ((65 <=? n)%nat && (n <=? 70)%nat) || ((97 <=? n)%nat && (n <=? 102)%nat).

Definition is_octal_digit (c : ascii) : bool :=
  let n := nat_of_ascii c in (48 <=? n)%nat && (n <=? 55)%nat.

Definition is_binary_digit (c : ascii) : bool :=
  let n := nat_of_ascii c in (48 <=? n)%nat && (n <=? 49)%nat.

(** The ECMAScript WhiteSpace and LineTerminator sets, below 256: tab to
    carriage return, space and no-break space. *)
Definition is_space (c : ascii) : bool :=
  let n := nat_of_ascii c in
  ((9 <=? n)%nat && (n <=? 13)%nat) || (n =? 32)%nat || (n =? 160)%nat.

Fixpoint drop_while (p : ascii -> bool) (l : list ascii) : list ascii :=
  match l with
  | [] => []
  | c :: tl => if p c then drop_while p tl else l
  end.

Fixpoint take_while (p : ascii -> bool) (l : list ascii) : list ascii :=
  match l with
  | [] => []
  | c :: tl => if p c then c :: take_while p tl else []
  end.

Definition trim_start (l : list ascii) : list ascii := drop_while is_space l.
Definition trim (l : list ascii) : list ascii :=
  rev (drop_while is_space (rev (drop_while is_space l))).

Definition all_of (p : ascii -> bool) (l : list ascii) : bool := forallb p l.
Definition some_all (p : ascii -> bool) (l : list ascii) : bool :=
  match l with [] => false | _ => forallb p l end.

Definition ascii_in (c : ascii) (cs : string) : bool :=
  existsb (Ascii.eqb c) (chars cs).

Definition strip_sign (l : list ascii) : list ascii :=
  match l with
  | c :: tl => if ascii_in c "+-" then tl else l
  | [] => []
  end.

(** ExponentPart (optional): [e] or [E], an optional sign, one digit or more. *)
Definition exponent_opt (l : list ascii) : bool :=
  match l with
  | [] => true
  | c :: tl => ascii_in c "eE" && some_all is_digit (strip_sign tl)
  end.

(** StrUnsignedDecimalLiteral. *)
Definition unsigned_decimal (l : list ascii) : bool :=
  if decide (unchars l = "Infinity") then true
  else
    let ip := take_while is_digit l in
    let r := drop_while is_digit l in
    match r with
    | [] => negb (Nat.eqb (length ip) 0)
    | c :: r' =>
        if Ascii.eqb c "."
        then
          let fp := take_while is_digit r' in
          negb (Nat.eqb (length ip + length fp) 0)
          && exponent_opt (drop_while is_digit r')
        else negb (Nat.eqb (length ip) 0) && exponent_opt r
    end.

(** NonDecimalIntegerLiteral: [0x], [0o], [0b] prefixes. *)
Definition non_decimal (l : list ascii) : bool :=
  match l with
  | z :: p :: ds =>
      Ascii.eqb z "0"
      && ((ascii_in p "xX" && some_all is_hex_digit ds)
          || (ascii_in p "oO" && some_all is_octal_digit ds)
          || (ascii_in p "bB" && some_all is_binary_digit ds))
  | _ => false
  end.

(** [isNaN_Number s] is [isNaN(Number(s))]: the string is not a
    StringNumericLiteral. The empty or blank string converts to 0. *)
Definition isNaN_Number (s : string) : bool :=
  let l := trim (chars s) in
  negb (match l with
        | [] => true
        | _ => non_decimal l || unsigned_decimal (strip_sign l)
        end).

(** [isNaN_parseInt s] is [isNaN(parseInt(s))]: after leading blanks and an
    optional sign there is no digit to read (radix 10, or 16 after [0x]). *)
Definition isNaN_parseInt (s : string) : bool :=
  let l := strip_sign (trim_start (chars s)) in
  negb (match l with
        | z :: p :: ds =>
            if Ascii.eqb z "0" && ascii_in p "xX"
            then match ds with d :: _ => is_hex_digit d | [] => false end
            else is_digit z
        | [z] => is_digit z
        | [] => false
        end).

(** Decimal reading of a canonical array index ("0", "7", "12"; no sign, no
    leading zero). Such keys are the integer keys that every ordinary
    object enumerates first, in ascending order. *)
Definition digit_val (c : ascii) : N := N.of_nat (nat_of_ascii c - 48).

Definition array_index (s : string) : option N :=
  match chars s with
  | [] => None
  | c :: tl =>
      if forallb is_digit (c :: tl) && (negb (Ascii.eqb c "0") || Nat.eqb (length tl) 0)
      then Some (fold_left (fun acc d => (10 * acc + digit_val d)%N) (c :: tl) 0%N)
      else None
  end.

(** [String(n)] for a non-negative integer. *)
Definition string_of_N (n : N) : string :=
  NilZero.string_of_uint (N.to_uint n).

(** [prefix p l]: [l] starts with [p]. *)
Fixpoint starts_with (p l : list ascii) : bool :=
  match p, l with
  | [], _ => true
  | a :: p', b :: l' => Ascii.eqb a b && starts_with p' l'
  | _ :: _, [] => false
  end.

(** [split_go sep l skip cur]: scan [l]; [skip] characters of a separator
    occurrence remain to be dropped; [cur] is the current piece, reversed. *)
Fixpoint split_go (sep l : list ascii) (skip : nat) (cur : list ascii) : list string :=
  match l with
  | [] => [unchars (rev cur)]
  | c :: tl =>
      match skip with
      | S k => split_go sep tl k cur
      | O =>
          if starts_with sep l
          then unchars (rev cur) :: split_go sep tl (length sep - 1) []
          else split_go sep tl 0 (c :: cur)
      end
  end.

(** [s.split(sep)]; an empty separator splits into single characters. *)
Definition split (sep s : string) : list string :=
  match chars sep with
  | [] => map (fun c => unchars [c]) (chars s)
  | sp => split_go sp (chars s) 0 []
  end.

(** [l.join(sep)]. *)
Fixpoint join (sep : string) (l : list string) : string :=
  match l with
  | [] => ""
  | [x] => x
  | x :: tl => x +:+ sep +:+ join sep tl
  end.

(** A key without the separator character of [expandObject]. *)
Definition no_dot (k : string) : bool :=
  negb (existsb (Ascii.eqb ".") (chars k)).

End JsString.
Import JsString.

(** ** JavaScript values *)

(** A class. [ctor_name] is [constructor.name]; [ctor_proto] is
    [Object.getPrototypeOf(constructor).name] ("Model" for a class declared
    [extends Model]); [ctor_primary] is the [Symbol.for('primaryModel')] mark
    left by [Metadata.inspectModel]; [ctor_key] tells apart classes that share
    a name. *)
Record ctor := Ctor {
  ctor_name : string;
  ctor_proto : string;
  ctor_primary : option bool;
  ctor_key : nat;
}.

Global Instance ctor_eq_dec : EqDecision ctor.
Proof. solve_decision. Defined.

Inductive okind :=
| KObject                 (* constructor === Object *)
| KArray                  (* constructor === Array *)
| KInstance (c : ctor).   (* instance of a class that is not an entity class *)

Global Instance okind_eq_dec : EqDecision okind.
Proof. solve_decision. Defined.

(** Numbers are the integers among the doubles. Property lists hold own
    enumerable properties in enumeration order, array elements under their
    index keys. An entity instance is its class and its heap address. A
    [Collection] carries its non-enumerable [model], [path], [length] and
    [deleted] next to its elements. A [Document] is the library's own
    reference object. *)
Inductive value :=
| VUndefined
| VNull
| VBool (b : bool)
| VNum (n : Z)
| VStr (s : string)
| VObj (k : okind) (props : list (string * value))
| VDocRef (path : string)
| VModel (c : ctor) (a : nat)
| VDocument (model : ctor) (path : string) (id : string)
| VColl (model : ctor) (path : string) (items : list (string * value))
        (len : N) (deleted : list value).

Definition props := list (string * value).

(** Induction over values that reaches the values held in property lists. *)
Section ValueInd.
Variable P : value -> Prop.
Hypothesis Hundef : P VUndefined.
Hypothesis Hnull : P VNull.
Hypothesis Hbool : forall b, P (VBool b).
Hypothesis Hnum : forall n, P (VNum n).
Hypothesis Hstr : forall s, P (VStr s).
Hypothesis Hobj : forall k ps, Forall (fun kv => P (snd kv)) ps -> P (VObj k ps).
Hypothesis Hdoc : forall p, P (VDocRef p).
Hypothesis Hmodel : forall c a, P (VModel c a).
Hypothesis Hdocument : forall m p i, P (VDocument m p i).
Hypothesis Hcoll : forall m p items len deleted,
    Forall (fun kv => P (snd kv)) items -> Forall P deleted ->
    P (VColl m p items len deleted).

Fixpoint value_nested_ind (v : value) : P v :=
  match v with
  | VUndefined => Hundef
  | VNull => Hnull
  | VBool b => Hbool b
  | VNum n => Hnum n
  | VStr s => Hstr s
  | VObj k ps =>
      Hobj k ps
        ((fix go (l : props) : Forall (fun kv => P (snd kv)) l :=
            match l with
            | [] => List.Forall_nil _
            | kv :: tl => List.Forall_cons _ _ _ (value_nested_ind (snd kv)) (go tl)
            end) ps)
  | VDocRef p => Hdoc p
  | VModel c a => Hmodel c a
  | VDocument m p i => Hdocument m p i
  | VColl m p items len deleted =>
      Hcoll m p items len deleted
        ((fix go (l : props) : Forall (fun kv => P (snd kv)) l :=
            match l with
            | [] => List.Forall_nil _
            | kv :: tl => List.Forall_cons _ _ _ (value_nested_ind (snd kv)) (go tl)
            end) items)
        ((fix go (l : list value) : Forall P l :=
            match l with
            | [] => List.Forall_nil _
            | w :: tl => List.Forall_cons _ _ _ (value_nested_ind w) (go tl)
            end) deleted)
  end.
End ValueInd.

(** Errors a call can end with. [Beyond] marks a run that leaves the fragment
    of JavaScript covered here (a property write through a tracking proxy
    reached from [expandObject]). [NoFuel] is not a JavaScript result: a
    recursion through the heap was cut at the given depth. *)
Inductive js_error :=
| TypeError (msg : string)
| Error (msg : string)
| ValidationError (fields : props)
| Beyond (why : string).

Inductive outcome (A : Type) :=
| Ok (a : A)
| Throw (e : js_error)
| NoFuel.
Arguments Ok {A} a.
Arguments Throw {A} e.
Arguments NoFuel {A}.

Global Instance outcome_ret : MRet outcome := fun _ a => Ok a.
Global Instance outcome_bind : MBind outcome := fun _ _ f m =>
  match m with
  | Ok a => f a
  | Throw e => Throw e
  | NoFuel => NoFuel
  end.

(** ** Property lists *)

(** Objects used as maps ([data], [errors], a schema) are association lists
    in enumeration order. *)
Module Props.

Section Assoc.
Context {A : Type}.

Fixpoint lookup (k : string) (ps : list (string * A)) : option A :=
  match ps with
  | [] => None
  | (k', v) :: tl => if String.eqb k k' then Some v else lookup k tl
  end.

Definition has (k : string) (ps : list (string * A)) : bool :=
  match lookup k ps with Some _ => true | None => false end.

Definition keys (ps : list (string * A)) : list string := map fst ps.

Fixpoint replace (k : string) (v : A) (ps : list (string * A)) : list (string * A) :=
  match ps with
  | [] => []
  | (k', w) :: tl =>
      if String.eqb k k' then (k, v) :: tl else (k', w) :: replace k v tl
  end.

(** A new integer key goes among the integer keys, in ascending order. *)
Fixpoint insert_index (n : N) (k : string) (v : A) (ps : list (string * A))
    : list (string * A) :=
  match ps with
  | [] => [(k, v)]
  | (k', w) :: tl =>
      match array_index k' with
      | Some m => if (m <? n)%N then (k', w) :: insert_index n k v tl
                  else (k, v) :: ps
      | None => (k, v) :: ps
      end
  end.

(** [obj[k] = v] on an ordinary object. *)
Definition set (k : string) (v : A) (ps : list (string * A)) : list (string * A) :=
  if has k ps then replace k v ps
  else match array_index k with
       | Some n => insert_index n k v ps
       | None => ps ++ [(k, v)]
       end.

(** [delete obj[k]]. *)
Definition remove (k : string) (ps : list (string * A)) : list (string * A) :=
  filter (fun kv => negb (String.eqb k (fst kv))) ps.

(** [Object.assign(target, src)]. *)
Definition assign (target src : list (string * A)) : list (string * A) :=
  fold_left (fun acc kv => set (fst kv) (snd kv) acc) src target.

(** An array literal. *)
Definition of_list (l : list A) : list (string * A) :=
  imap (fun i v => (string_of_N (N.of_nat i), v)) l.
End Assoc.

(** [obj[k]]: a missing property reads as [undefined]. *)
Definition get (ps : props) (k : string) : value :=
  match lookup k ps with
  | Some v => v
  | None => VUndefined
  end.

(** [array.length]: one past the largest index. *)
Definition length (ps : props) : N :=
  fold_left (fun acc kv => match array_index (fst kv) with
                           | Some n => N.max acc (n + 1)
                           | None => acc
                           end) ps 0%N.

End Props.

Definition arr (l : list value) : value := VObj KArray (Props.of_list l).
Definition obj (ps : props) : value := VObj KObject ps.

(** ** utils.ts *)

Definition truthy (v : value) : bool :=
  match v with
  | VUndefined | VNull | VBool false | VStr "" => false
  | VNum n => negb (n =? 0)%Z
  | _ => true
  end.

(** The names every object inherits from [Object.prototype]. Where the
    sources read [obj[k]] on an object that has no own property [k], one of
    these names gives the inherited member, which is neither [undefined] nor
    falsy. *)
Definition inherited_names : list string :=
  ["constructor"; "__defineGetter__"; "__defineSetter__"; "hasOwnProperty";
   "__lookupGetter__"; "__lookupSetter__"; "isPrototypeOf"; "propertyIsEnumerable";
   "toString"; "valueOf"; "__proto__"; "toLocaleString"].

Definition inherited (k : string) : bool := bool_decide (k ∈ inherited_names).

(** [obj[k] === undefined] and the truth value of [obj[k]], for an ordinary
    object with own properties [ps]. *)
Definition undefined_at (ps : props) (k : string) : bool :=
  match Props.lookup k ps with
  | Some VUndefined => true
  | Some _ => false
  | None => negb (inherited k)
  end.

Definition truthy_at (ps : props) (k : string) : bool :=
  match Props.lookup k ps with
  | Some v => truthy v
  | None => inherited k
  end.

(** [constructorName]. *)
Definition constructorName (v : value) : string :=
  match v with
  | VUndefined | VNull => "Undefined"
  | VBool _ => "Boolean"
  | VNum _ => "Number"
  | VStr _ => "String"
  | VObj KObject _ => "Object"
  | VObj KArray _ => "Array"
  | VObj (KInstance c) _ => ctor_name c
  | VDocRef _ => "DocumentReference"
  | VModel c _ => ctor_name c
  | VDocument _ _ _ => "Document"
  | VColl _ _ _ _ _ => "Collection"
  end.

(** [isModelInstance]: the parent of the value's class is named "Model". *)
Definition isModelInstance (v : value) : bool :=
  match v with
  | VObj (KInstance c) _ | VModel c _ => String.eqb (ctor_proto c) "Model"
  | _ => false
  end.

(** [isSubModelInstance]. *)
Definition isSubModelInstance (v : value) : bool :=
  match v with
  | VObj (KInstance c) _ | VModel c _ =>
      match ctor_primary c with Some false => true | _ => false end
  | _ => false
  end.

Module Utils.

Section FlattenLoop.
(** The [reduce] of [flattenObject]: [f] is the value folded in for one
    property. [Object.assign({}, memo, x)] copies [memo], itself built
    that way, and adds the properties of [x]. *)
Variable f : string -> value -> outcome props.

Fixpoint flatten_loop (l : props) (memo : props) : outcome props :=
  match l with
  | [] => Ok memo
  | (prop, w) :: tl =>
      x ← f prop w;
      flatten_loop tl (Props.assign memo x)
  end.
End FlattenLoop.

(** What [flattenObject] folds in for the property at [path] holding [v]:
    the flattened [v] when [v.constructor] is [Object] (or [Array], unless
    [excludeArray]), else the single entry [{ [path.join(sep)]: v }].
    An own property named [constructor] hides the inherited one, and no
    value of the development is the function [Object] or [Array]. Reading
    [.constructor] of [null] or [undefined] throws. *)
Fixpoint flattenEntry (excludeArray : bool) (sep : string) (path : list string)
    (v : value) {struct v} : outcome props :=
  match v with
  | VUndefined | VNull =>
      Throw (TypeError "Cannot read properties of null or undefined (reading 'constructor')")
  | VObj k ps =>
      if negb (Props.has "constructor" ps)
         && match k with
            | KObject => true
            | KArray => negb excludeArray
            | KInstance _ => false
            end
      then flatten_loop
             (fun prop w => flattenEntry excludeArray sep (path ++ [prop]) w) ps []
      else Ok [(join sep path, v)]
  | _ => Ok [(join sep path, v)]
  end.

(** [flattenObject(src, excludeArray, sep, path)]. *)
Definition flattenObject (src : props) (excludeArray : bool) (sep : string)
    (path : list string) : outcome props :=
  flatten_loop (fun prop w => flattenEntry excludeArray sep (path ++ [prop]) w) src [].

(** [isNaN(Number(keys[index + 1]))]; past the end the key is [undefined]
    and [Number(undefined)] is [NaN]. *)
Definition next_isNaN (rest : list string) : bool :=
  match rest with
  | [] => true
  | k :: _ => isNaN_Number k
  end.

(** Names that an array answers without an own enumerable property:
    [length] and the members of [Array.prototype], whose list depends on the
    version of the runtime. *)
Definition array_members : list string :=
  ["length"; "at"; "concat"; "copyWithin"; "entries"; "every"; "fill"; "filter";
   "find"; "findIndex"; "findLast"; "findLastIndex"; "flat"; "flatMap"; "forEach";
   "includes"; "indexOf"; "join"; "keys"; "lastIndexOf"; "map"; "pop"; "push";
   "reduce"; "reduceRight"; "reverse"; "shift"; "slice"; "some"; "sort"; "splice";
   "toReversed"; "toSorted"; "toSpliced"; "unshift"; "values"; "with"].

(** [memo[prop]] on a container of kind [k] with own properties [ps]: an
    own property, a member of [Object.prototype], nothing, or a member that
    the development does not know (of [Array.prototype], of a class). *)
Inductive member :=
| Own (v : value)
| Inherited
| Absent
| Unknown.

Definition read_member (k : okind) (ps : props) (prop : string) : member :=
  match Props.lookup prop ps with
  | Some v => Own v
  | None =>
      if inherited prop then Inherited
      else match k with
           | KObject => Absent
           | KArray => if bool_decide (prop ∈ array_members) then Unknown else Absent
           | KInstance _ => Unknown
           end
  end.

(** The inner [keys.reduce] of [expandObject], from the container of kind
    [k] with own properties [ps]: follow [memo[prop]] when it is truthy, else
    create it ([obj[key]] at the last key, [{}] or [[]] before), and write the
    visited containers back. A member of [Object.prototype] is truthy:
    nothing is assigned, and the member is the next [memo]. The modules are
    strict code: creating a property on a number or a boolean throws. *)
Fixpoint expand_reduce (k : okind) (keys : list string) (leaf : value) (ps : props)
    : outcome props :=
  match keys with
  | [] => Ok ps
  | prop :: rest =>
      let create :=
        if next_isNaN rest then
          match rest with
          | [] => Ok (Props.set prop leaf ps)
          | _ :: _ =>
              cps' ← expand_reduce KObject rest leaf [];
              Ok (Props.replace prop (VObj KObject cps')
                    (Props.set prop (VObj KObject []) ps))
          end
        else
          cps' ← expand_reduce KArray rest leaf [];
          Ok (Props.replace prop (VObj KArray cps')
                (Props.set prop (VObj KArray []) ps)) in
      match read_member k ps prop with
      | Own cur =>
          if truthy cur then
            match rest with
            | [] => Ok ps
            | _ :: _ =>
                match cur with
                | VObj k' cps =>
                    cps' ← expand_reduce k' rest leaf cps;
                    Ok (Props.replace prop (VObj k' cps') ps)
                | VBool _ | VNum _ =>
                    Throw (TypeError "Cannot create property on a primitive value")
                | _ => Throw (Beyond "property access on a string, a reference or a tracked instance")
                end
            end
          else create
      | Absent => create
      | Inherited =>
          match rest with
          | [] => Ok ps
          | _ :: _ => Throw (Beyond "property access on a member of Object.prototype")
          end
      | Unknown => Throw (Beyond "a member of Array.prototype or of a class")
      end
  end.

(** [expandObject(obj, sep)]. *)
Fixpoint expand_loop (sep : string) (l : props) (result : props) : outcome props :=
  match l with
  | [] => Ok result
  | (key, v) :: tl =>
      result' ← expand_reduce KObject (split sep key) v result;
      expand_loop sep tl result'
  end.

Definition expandObject (o : props) (sep : string) : outcome props :=
  expand_loop sep o [].

End Utils.

Import Utils.

(** ** Schema.ts *)

Module Schema.

Inductive rule_of (R : Type) :=
| OfNone
| OfType (t : string)
| OfRules (fs : list (string * R)).
Arguments OfNone {R}.
Arguments OfType {R} t.
Arguments OfRules {R} fs.

(** [rules.validate.message]: absent, a string, or a function of the field
    name and value. *)
Inductive custom_message :=
| NoMessage
| TextMessage (s : string)
| FunMessage (f : string -> value -> string).

Record custom_rule := CustomRule {
  validator : value -> bool;
  message : custom_message;
}.

(** The options of a field rule other than [of]. A constraint is the bare
    value or the array [[value, message]]. *)
Record rule_base := RuleBase {
  r_type : option string;
  r_model : option ctor;
  r_enum : option (list value);
  r_null : option bool;
  r_required : option value;
  r_unique : option value;
  r_min : option value;
  r_max : option value;
  r_minlength : option value;
  r_maxlength : option value;
  r_email : option value;
  r_url : option value;
  r_validate : option custom_rule;
  r_read : option string;
  r_write : option string;
}.

(** A field rule. [RulesText] is a rule that is a string: [flatten] leaves
    such entries when it walks into an [of] that is a type name. *)
Inductive rules :=
| Rules (b : rule_base) (o : rule_of rules)
| RulesText (s : string).

Definition schema := list (string * rules).

Definition no_rules : rule_base :=
  RuleBase None None None None None None None None None None None None None None None.

Definition with_type (t : string) (b : rule_base) : rule_base :=
  RuleBase (Some t) (r_model b) (r_enum b) (r_null b) (r_required b) (r_unique b)
    (r_min b) (r_max b) (r_minlength b) (r_maxlength b) (r_email b) (r_url b)
    (r_validate b) (r_read b) (r_write b).
Definition with_model (m : ctor) (b : rule_base) : rule_base :=
  RuleBase (r_type b) (Some m) (r_enum b) (r_null b) (r_required b) (r_unique b)
    (r_min b) (r_max b) (r_minlength b) (r_maxlength b) (r_email b) (r_url b)
    (r_validate b) (r_read b) (r_write b).
Definition with_null (n : bool) (b : rule_base) : rule_base :=
  RuleBase (r_type b) (r_model b) (r_enum b) (Some n) (r_required b) (r_unique b)
    (r_min b) (r_max b) (r_minlength b) (r_maxlength b) (r_email b) (r_url b)
    (r_validate b) (r_read b) (r_write b).
Definition with_required (c : value) (b : rule_base) : rule_base :=
  RuleBase (r_type b) (r_model b) (r_enum b) (r_null b) (Some c) (r_unique b)
    (r_min b) (r_max b) (r_minlength b) (r_maxlength b) (r_email b) (r_url b)
    (r_validate b) (r_read b) (r_write b).
Definition with_unique (c : value) (b : rule_base) : rule_base :=
  RuleBase (r_type b) (r_model b) (r_enum b) (r_null b) (r_required b) (Some c)
    (r_min b) (r_max b) (r_minlength b) (r_maxlength b) (r_email b) (r_url b)
    (r_validate b) (r_read b) (r_write b).
Definition with_minlength (c : value) (b : rule_base) : rule_base :=
  RuleBase (r_type b) (r_model b) (r_enum b) (r_null b) (r_required b) (r_unique b)
    (r_min b) (r_max b) (Some c) (r_maxlength b) (r_email b) (r_url b)
    (r_validate b) (r_read b) (r_write b).
Definition with_write (w : string) (b : rule_base) : rule_base :=
  RuleBase (r_type b) (r_model b) (r_enum b) (r_null b) (r_required b) (r_unique b)
    (r_min b) (r_max b) (r_minlength b) (r_maxlength b) (r_email b) (r_url b)
    (r_validate b) (r_read b) (Some w).

(** A rule without [of]. *)
Definition rule (b : rule_base) : rules := Rules b OfNone.

(** Supported field data types. *)
Definition types : list string :=
  ["String"; "Number"; "Date"; "Boolean"; "Array"; "Object"; "Reference";
   "Collection"; "GeoPoint"; "Timestamp"; "SubModel"].

Definition is_type (t : option string) : bool :=
  match t with
  | Some s => bool_decide (s ∈ types)
  | None => false
  end.

(** [!rules.of]. *)
Definition of_falsy (o : rule_of rules) : bool :=
  match o with
  | OfNone | OfType "" => true
  | _ => false
  end.

Section FlattenLoop.
Variable f : string -> rules -> schema.
Fixpoint flatten_loop (l : schema) (memo : schema) : schema :=
  match l with
  | [] => memo
  | (prop, r) :: tl => flatten_loop tl (Props.assign memo (f prop r))
  end.
End FlattenLoop.

(** What [flatten] folds in for the rule [r] at [path]: the single entry
    [{ [path.join('.')]: r }] when [r] is not an object or has a supported
    type and no [of]; else the flattened [r.of]. An [of] that is a type name
    is walked character by character. *)
Fixpoint flattenEntry (path : list string) (r : rules) {struct r} : schema :=
  match r with
  | RulesText _ => [(join "." path, r)]
  | Rules b o =>
      if is_type (r_type b) && of_falsy o then [(join "." path, r)]
      else match o with
           | OfNone => []
           | OfType t =>
               imap (fun i c => (join "." (path ++ [string_of_N (N.of_nat i)]),
                                 RulesText (unchars [c]))) (chars t)
           | OfRules fs =>
               flatten_loop (fun prop r' => flattenEntry (path ++ [prop]) r') fs []
           end
  end.

(** [Schema.flatten(src, path)]. *)
Definition flatten (src : schema) (path : list string) : schema :=
  flatten_loop (fun prop r => flattenEntry (path ++ [prop]) r) src [].

(** [Schema.flatten(rules.of)]. *)
Definition flatten_of (o : rule_of rules) : schema :=
  match o with
  | OfNone => []
  | OfType t =>
      imap (fun i c => (string_of_N (N.of_nat i), RulesText (unchars [c]))) (chars t)
  | OfRules fs => flatten fs []
  end.

End Schema.

(** ** Entity instances (Model/Model.ts) *)

(** The state of an entity instance: its own enumerable properties and the
    symbol-keyed bookkeeping set up by the [Model] constructor. A store
    reference or snapshot is given by the document path. *)
Record entity := Entity {
  e_ctor : ctor;
  e_props : props;
  e_changes : props;          (* Symbol.for('changes') *)
  e_fireRef : option string;  (* Symbol.for('fireRef') *)
  e_docSnap : option string;  (* Symbol.for('docSnap'): its [ref] *)
  e_docId : option string;    (* Symbol.for('docId') *)
  e_authValue : value;        (* Symbol.for('authValue') *)
  e_tracking : bool;          (* Symbol.for('tracking') *)
}.

Abbreviation heap := (gmap nat entity) (only parsing).

(** The last segment of a document path: [DocumentReference.id]. *)
Definition ref_id (path : string) : string :=
  List.last (split "/" path) "".

(** [getRef()]. *)
Definition getRef (e : entity) : option string :=
  match e_docSnap e with
  | Some r => Some r
  | None => e_fireRef e
  end.

(** [getId()]. *)
Definition getId (e : entity) : option string :=
  match getRef e with
  | Some r => Some (ref_id r)
  | None => e_docId e
  end.

(** The properties a [for ... in] visits on a value. *)
Definition enum_props (h : heap) (v : value) : props :=
  match v with
  | VObj _ ps => ps
  | VColl _ _ items _ _ => items
  | VStr s => imap (fun i c => (string_of_N (N.of_nat i), VStr (unchars [c]))) (chars s)
  | VModel _ a => match h !! a with Some e => e_props e | None => [] end
  | _ => []
  end.

(** ** Validator/ValidationRules.ts and Validator/Validator.ts *)

(** What the validator takes from outside this file: the schema registry,
    the two regular expressions, string conversion of a value inside a
    message, [>=] on operands that are not two numbers, and the store lookup
    behind the [unique] rule. *)
Record Env := {
  getSchema : ctor -> Schema.schema;              (* Model.getSchema() *)
  getModelSchema : ctor -> option Schema.schema;  (* Storage.getModelSchema(model) *)
  email_re : string -> bool;
  url_re : string -> bool;
  render : value -> string;
  loose_ge : value -> value -> bool;
  unique_taken : ctor -> string -> value -> option string -> bool;
}.

Record ValidationOptions := {
  newDocument : bool;
  authValue : value;
}.

Record ValidationResult := {
  valid : bool;
  data : props;
  errors : props;
}.

Module Validator.
Import Schema.

Definition is_undefined (v : value) : bool :=
  match v with VUndefined => true | _ => false end.

(** The integers that a double holds exactly and prints in full. *)
Definition safe_integer (n : Z) : bool := (Z.abs n <=? 9007199254740991)%Z.

Definition string_of_Z (n : Z) : string :=
  match n with
  | Zneg p => "-" +:+ string_of_N (Npos p)
  | _ => string_of_N (Z.to_N n)
  end.

(** [String(v)], the conversion of a template literal and of [toString]:
    written out for the primitive values; what an object answers is taken
    from [render]. *)
Definition to_text (env : Env) (v : value) : string :=
  match v with
  | VUndefined => "undefined"
  | VNull => "null"
  | VBool true => "true"
  | VBool false => "false"
  | VNum n => if safe_integer n then string_of_Z n else render env v
  | VStr s => s
  | _ => render env v
  end.

(** The text of an element in [Array.prototype.join]. *)
Definition join_text (env : Env) (v : value) : string :=
  match v with
  | VUndefined | VNull => ""
  | _ => to_text env v
  end.

Definition str (v : value) (env : Env) : string := to_text env v.

(** [a >= b]. *)
Definition js_ge (env : Env) (a b : value) : bool :=
  match a, b with
  | VNum x, VNum y => (y <=? x)%Z
  | _, _ => loose_ge env a b
  end.

(** [value.length]. *)
Definition js_length (v : value) : value :=
  match v with
  | VStr s => VNum (Z.of_nat (String.length s))
  | VObj KArray ps => VNum (Z.of_N (Props.length ps))
  | VObj _ ps => Props.get ps "length"
  | VColl _ _ _ len _ => VNum (Z.of_N len)
  | _ => VUndefined
  end.

Definition is_false (v : value) : bool :=
  match v with VBool false => true | _ => false end.

(** The built-in rules, in the order of [ValidationRules]. *)
Definition builtin_names : list string :=
  ["min"; "max"; "minlength"; "maxlength"; "email"; "url"].

Definition builtin_rule (b : rule_base) (name : string) : option value :=
  if String.eqb name "min" then r_min b
  else if String.eqb name "max" then r_max b
  else if String.eqb name "minlength" then r_minlength b
  else if String.eqb name "maxlength" then r_maxlength b
  else if String.eqb name "email" then r_email b
  else if String.eqb name "url" then r_url b
  else None.

Definition builtin_validator (env : Env) (name : string) (v c : value) : bool :=
  if String.eqb name "min" then js_ge env v c
  else if String.eqb name "max" then js_ge env c v
  else if String.eqb name "minlength" then js_ge env (js_length v) c
  else if String.eqb name "maxlength" then js_ge env c (js_length v)
  else if String.eqb name "email" then (if is_false c then true else email_re env (str v env))
  else if String.eqb name "url" then (if is_false c then true else url_re env (str v env))
  else true.

Definition builtin_message (env : Env) (name field : string) (v c : value) : string :=
  if String.eqb name "min" then
    "The field '" +:+ field +:+ "' must be greater than " +:+ to_text env c
  else if String.eqb name "max" then
    "The field '" +:+ field +:+ "' must be less than " +:+ to_text env c
  else if String.eqb name "minlength" then
    "The field '" +:+ field +:+ "' must be at least " +:+ to_text env c +:+ " characters long"
  else if String.eqb name "maxlength" then
    "The field '" +:+ field +:+ "' must be less than " +:+ to_text env c +:+ " characters long"
  else if String.eqb name "email" then "The email '" +:+ to_text env v +:+ "' is invalid"
  else "The URL '" +:+ to_text env v +:+ "' is invalid".

(** Firestore [FieldValue] transforms. *)
Definition transforms : list string :=
  ["NumericIncrementTransform"; "DeleteTransform"; "ArrayUnionTransform";
   "ArrayRemoveTransform"; "ServerTimestampTransform"].

Definition is_transform (v : value) : bool :=
  bool_decide (constructorName v ∈ transforms).

(** [Array.prototype.includes]: primitives by value, objects by identity. *)
Definition same_value_zero (a b : value) : bool :=
  match a, b with
  | VUndefined, VUndefined | VNull, VNull => true
  | VBool x, VBool y => Bool.eqb x y
  | VNum x, VNum y => (x =? y)%Z
  | VStr x, VStr y => String.eqb x y
  | VModel _ x, VModel _ y => Nat.eqb x y
  | _, _ => false
  end.

Definition includes (l : list value) (v : value) : bool :=
  existsb (fun w => same_value_zero w v) l.

(** [Validator.constraint]. *)
Definition constraint (env : Env) (c : value) (message : string)
    : outcome (value * string) :=
  match c with
  | VObj KArray ps =>
      match Props.get ps "1" with
      | VUndefined | VNull =>
          Throw (TypeError "Cannot read properties of undefined (reading 'toString')")
      | m => Ok (Props.get ps "0", str m env)
      end
  | _ => Ok (c, message)
  end.

Definition set_error (k msg : string) (errs : props) : props :=
  Props.set k (VStr msg) errs.

(** [for (const key in result.errs) errs[pre(key)] = result.errs[key]]. *)
Definition add_errors (pre : string -> string) (sub errs : props) : props :=
  fold_left (fun acc kv => Props.set (pre (fst kv)) (snd kv) acc) sub errs.

(** [rules.write === 'admin']. *)
Definition admin_only (b : rule_base) : bool :=
  match r_write b with
  | Some w => String.eqb w "admin"
  | None => false
  end.

(** [authValue !== null && authValue !== undefined && authValue !== true]. *)
Definition not_admin (a : value) : bool :=
  match a with
  | VNull | VUndefined | VBool true => false
  | _ => true
  end.

Definition invalid_type (got expected : string) : string :=
  "Invalid type '" +:+ got +:+ "'. Expecting type '" +:+ expected +:+ "'".

(** The loop state: [errs], [cleaned] and [dat] (a field of [dat] is
    overwritten by the SubModel case). *)
Definition state : Type := props * props * props.

Section Check.
Variable env : Env.
Variable h : heap.
(** The nested [Validator.check], one level down. *)
Variable chk : schema -> props -> ValidationOptions -> outcome (ValidationResult * props).

(** [Model.validate] on the entity at [a]: check the change-set against
    the class schema, then the [unique] rules against the store. *)
Definition unique_step (e : entity) (newDoc : bool) (dat' : props)
    (acc : outcome ValidationResult) (fr : string * rules) : outcome ValidationResult :=
  result ← acc;
  match snd fr with
  | Rules b _ =>
      match r_unique b with
      | Some u =>
          if truthy (Props.get dat' (fst fr))
             && negb (truthy (Props.get (errors result) (fst fr)))
          then
            '(cv, msg) ← constraint env u ("This " +:+ fst fr +:+ " is already taken");
            match cv with
            | VBool true =>
                if unique_taken env (e_ctor e) (fst fr) (Props.get dat' (fst fr))
                     (if newDoc then None else getId e)
                then Ok {| valid := false; data := data result;
                           errors := Props.set (fst fr) (VStr msg) (errors result) |}
                else Ok result
            | _ => Ok result
            end
          else Ok result
      | None => Ok result
      end
  | RulesText _ => Ok result
  end.

Definition validate_entity (a : nat) : outcome ValidationResult :=
  match h !! a with
  | None => Throw (Beyond "dangling entity")
  | Some e =>
      let sch := getSchema env (e_ctor e) in
      let newDoc := negb (bool_decide (is_Some (getRef e))) in
      '(result, dat') ← chk sch (e_changes e)
                           {| newDocument := newDoc; authValue := e_authValue e |};
      fold_left (unique_step e newDoc dat') sch (Ok result)
  end.

(** [value.validate()]: only an entity has the method. *)
Definition validate_value (v : value) : outcome ValidationResult :=
  match v with
  | VModel _ a => validate_entity a
  | _ => Throw (TypeError "validate is not a function")
  end.

(** The items of a Collection or of an Array of references, stopping at
    the first failure; [inl] is [continue fields]. *)
Fixpoint validate_items (field model_name : string) (items : props) (errs : props)
    : outcome (props + props) :=
  match items with
  | [] => Ok (inr errs)
  | (i, item) :: tl =>
      if negb (String.eqb (constructorName item) model_name)
      then Ok (inl (set_error (field +:+ "[" +:+ i +:+ "]")
                      (invalid_type (constructorName item) model_name) errs))
      else
        result ← validate_value item;
        let errs' := add_errors (fun key => field +:+ "[" +:+ i +:+ "]" +:+ key)
                         (errors result) errs in
        if negb (valid result) then Ok (inl errs')
        else validate_items field model_name tl errs'
  end.

Definition of_text (o : rule_of rules) : string :=
  match o with
  | OfType t => t
  | OfNone => "undefined"
  | OfRules _ => "[object Object]"
  end.

(** The items of an Array of plain values. *)
Fixpoint check_items (field : string) (o : rule_of rules) (items : props) (errs : props)
    : props + props :=
  match items with
  | [] => inr errs
  | (i, item) :: tl =>
      if match o with
         | OfType t => String.eqb (constructorName item) t
         | _ => false
         end
      then check_items field o tl errs
      else inl (set_error (field +:+ "[" +:+ i +:+ "]")
                  (invalid_type (constructorName item) (of_text o)) errs)
  end.

Definition model_name (b : rule_base) : outcome string :=
  match r_model b with
  | Some m => Ok (ctor_name m)
  | None => Throw (TypeError "Cannot read properties of undefined (reading 'name')")
  end.

(** The [switch (rules.type)]: [inl] is [continue fields], [inr] carries
    on with the field and with [value] (the Object case rebinds it). *)
Definition check_composite (options : ValidationOptions) (field type : string)
    (b : rule_base) (o : rule_of rules) (val : value) (st : state)
    : outcome (state + state * value) :=
  let '(errs, cleaned, dat) := st in
  if String.eqb type "Reference" then
    name ← model_name b;
    if negb (String.eqb (constructorName val) name)
    then Ok (inl (set_error field (invalid_type (constructorName val) name) errs,
                  cleaned, dat))
    else
      result ← validate_value val;
      let errs' := add_errors (fun key => field +:+ "." +:+ key)
                       (errors result) errs in
      if negb (valid result) then Ok (inl (errs', cleaned, dat))
      else Ok (inr ((errs', cleaned, dat), val))
  else if String.eqb type "Collection" then
    match enum_props h val with
    | [] => Ok (inr (st, val))
    | items =>
        name ← model_name b;
        r ← validate_items field name items errs;
        match r with
        | inl errs' => Ok (inl (errs', cleaned, dat))
        | inr errs' => Ok (inr ((errs', cleaned, dat), val))
        end
    end
  else if String.eqb type "SubModel" then
    match r_model b with
    | None => Throw (TypeError "Cannot read properties of undefined (reading 'Symbol(modelKey)')")
    | Some m =>
        match getModelSchema env m with
        | None => Ok (inr (st, val))
        | Some subSchema =>
            '(result, _) ← chk subSchema (enum_props h val) options;
            let errs' := add_errors (fun key => field +:+ "." +:+ key)
                             (errors result) errs in
            if negb (valid result) then Ok (inl (errs', cleaned, dat))
            else Ok (inr ((errs', cleaned,
                           Props.set field (VObj KObject (data result)) dat), val))
        end
    end
  else if String.eqb type "Object" then
    if match o with
       | OfNone => false
       | OfType t => negb (String.eqb t "")
       | OfRules fs => negb (Nat.eqb (List.length fs) 0)
       end
    then
      let flatSchema := flatten_of o in
      flatObject ← flattenObject (enum_props h val) true "." [];
      '(result, _) ← chk flatSchema flatObject options;
      let errs' := add_errors (fun key => field +:+ "." +:+ key)
                       (errors result) errs in
      if negb (valid result) then Ok (inl (errs', cleaned, dat))
      else
        expanded ← expandObject flatObject ".";
        Ok (inr ((errs', cleaned, dat), VObj KObject expanded))
    else Ok (inr (st, val))
  else if String.eqb type "Array" then
    if match o with OfType t => String.eqb t "Reference" | _ => false end
    then
      match enum_props h val with
      | [] => Ok (inr (st, val))
      | items =>
          name ← model_name b;
          r ← validate_items field name items errs;
          match r with
          | inl errs' => Ok (inl (errs', cleaned, dat))
          | inr errs' => Ok (inr ((errs', cleaned, dat), val))
          end
      end
    else
      match check_items field o (enum_props h val) errs with
      | inl errs' => Ok (inl (errs', cleaned, dat))
      | inr errs' => Ok (inr ((errs', cleaned, dat), val))
      end
  else Ok (inr (st, val)).

(** The built-in rules; [Some errs'] is [continue fields]. *)
Fixpoint check_builtin (names : list string) (field : string) (b : rule_base)
    (val : value) (errs : props) : option props :=
  match names with
  | [] => None
  | name :: tl =>
      match builtin_rule b name with
      | Some r =>
          if truthy r then
            let '(c, msg) :=
              match r with
              | VObj KArray ps => (Props.get ps "0", Props.get ps "1")
              | _ => (r, VStr (builtin_message env name field val r))
              end in
            if negb (builtin_validator env name val c)
            then Some (Props.set field msg errs)
            else check_builtin tl field b val errs
          else check_builtin tl field b val errs
      | None => check_builtin tl field b val errs
      end
  end.

Definition custom_text (field : string) (val : value) (m : custom_message) : string :=
  match m with
  | NoMessage => "Invalid value"
  | TextMessage s => s
  | FunMessage f => f field val
  end.

(** One turn of the [fields:] loop. [schema[field]] and [errors[field]]
    are read through [Object.prototype]: a field that bears the name of one
    of its members and has no error of its own is passed over. *)
Definition check_field (sch : schema) (options : ValidationOptions)
    (st : state) (field : string) : outcome state :=
  let '(errs, cleaned, dat) := st in
  let val := Props.get dat field in
  match Props.lookup field sch with
  | None =>
      if inherited field && undefined_at errs field
      then Throw (Beyond "a rule read from a member of Object.prototype")
      else Ok st
  | Some rules =>
      if negb (undefined_at errs field) then Ok st
      else
        match val with
        | VNull =>
            match rules with
            | Rules b _ =>
                match r_null b with
                | Some true => Ok (errs, Props.set field val cleaned, dat)
                | _ => Ok (set_error field "Null value not allowed for this field" errs,
                           cleaned, dat)
                end
            | RulesText _ =>
                Ok (set_error field "Null value not allowed for this field" errs,
                    cleaned, dat)
            end
        | VUndefined => Ok (set_error field "Value is undefined" errs, cleaned, dat)
        | _ =>
            match rules with
            | RulesText _ =>
                Throw (TypeError "Cannot create property 'type' on string")
            | Rules b o =>
                let type := match r_type b with
                            | Some t => if String.eqb t "" then constructorName val else t
                            | None => constructorName val
                            end in
                if is_transform val
                then Ok (errs, Props.set field val cleaned, dat)
                else if negb (String.eqb type "Reference")
                        && negb (String.eqb type "SubModel")
                        && negb (String.eqb (constructorName val) type)
                then Ok (set_error field (invalid_type (constructorName val) type) errs,
                         cleaned, dat)
                else
                  r ← check_composite options field type b o val st;
                  match r with
                  | inl st' => Ok st'
                  | inr ((errs, cleaned, dat), val) =>
                      if match r_enum b with
                         | Some l => negb (includes l val)
                         | None => false
                         end
                      then Ok (set_error field
                                 ("Invalid value '" +:+ to_text env val +:+ "'. Allowed values ['"
                                  +:+ join "|" (map (join_text env) (default [] (r_enum b)))
                                  +:+ "']") errs, cleaned, dat)
                      else
                        match check_builtin builtin_names field b val errs with
                        | Some errs' => Ok (errs', cleaned, dat)
                        | None =>
                            if match r_validate b with
                               | Some cr => undefined_at errs field
                                            && negb (validator cr val)
                               | None => false
                               end
                            then Ok (set_error field
                                       (custom_text field val
                                          (match r_validate b with
                                           | Some cr => message cr
                                           | None => NoMessage
                                           end)) errs, cleaned, dat)
                            else
                              if admin_only b && not_admin (authValue options)
                              then Ok (set_error field "Admin permission required" errs,
                                       cleaned, dat)
                              else Ok (errs, Props.set field (Props.get dat field) cleaned,
                                       dat)
                        end
                  end
            end
        end
  end.

(** The [required] pass of a new document; [data[field]] is read through
    [Object.prototype]. *)
Definition required_step (dat : props) (acc : outcome props) (fr : string * rules)
    : outcome props :=
  errs ← acc;
  match snd fr with
  | Rules b _ =>
      match r_required b with
      | Some req =>
          if truthy req
             && match Props.lookup (fst fr) dat with
                | Some VUndefined | Some (VStr "") => true
                | Some _ => false
                | None => negb (inherited (fst fr))
                end
          then
            '(cv, msg) ← constraint env req "This field is required";
            match cv with
            | VBool true => Ok (set_error (fst fr) msg errs)
            | _ => Ok errs
            end
          else Ok errs
      | None => Ok errs
      end
  | RulesText _ => Ok errs
  end.

Definition fields_loop (sch : schema) (options : ValidationOptions)
    (fields : list string) (st : state) : outcome state :=
  fold_left (fun acc field => st' ← acc; check_field sch options st' field)
    fields (Ok st).

(** The body of [Validator.check]; the second component is [dat] as the
    call leaves it. *)
Definition check_body (sch : schema) (dat : props) (options : ValidationOptions)
    : outcome (ValidationResult * props) :=
  errs0 ← (if newDocument options
             then fold_left (required_step dat) sch (Ok [])
             else Ok []);
  '(errs, cleaned, dat') ← fields_loop sch options (Props.keys dat) (errs0, [], dat);
  Ok ({| valid := Nat.ltb (List.length errs) 1; data := cleaned; errors := errs |},
      dat').
End Check.

(** [Validator.check] with the nesting of references, sub-models and object
    rules bounded by [fuel]. *)
Fixpoint check_data (fuel : nat) (env : Env) (h : heap) (sch : schema) (dat : props)
    (options : ValidationOptions) : outcome (ValidationResult * props) :=
  match fuel with
  | O => NoFuel
  | S fuel' => check_body env h (check_data fuel' env h) sch dat options
  end.

Definition check (fuel : nat) (env : Env) (h : heap) (sch : schema) (dat : props)
    (options : ValidationOptions) : outcome ValidationResult :=
  '(result, _) ← check_data fuel env h sch dat options;
  Ok result.

(** [Model.validate]. *)
Definition validate (fuel : nat) (env : Env) (h : heap) (a : nat)
    : outcome ValidationResult :=
  validate_entity env h (check_data fuel env h) a.

End Validator.

(** ** Shapes of nested objects, for the statements about [utils.ts] *)

Module Shape.

(** A key that [Number] does not convert to a number ([isNaN(Number(k))]:
    not a numeric literal, not empty, not blank), that holds no dot and that
    is not the name of a member of [Object.prototype]. *)
Definition plain_key (k : string) : bool :=
  isNaN_Number k && no_dot k && negb (inherited k).

(** A plain nested object whose keys, at every level, are distinct plain
    keys. Arrays and other values are leaves. *)
Fixpoint plain_keys (v : value) : bool :=
  match v with
  | VObj KObject ps =>
      bool_decide (NoDup (map fst ps))
      && forallb (fun kv => plain_key (fst kv) && plain_keys (snd kv)) ps
  | _ => true
  end.

(** No leaf is [null] or [undefined] and no nested object is empty. *)
Fixpoint solid (v : value) : bool :=
  match v with
  | VUndefined | VNull => false
  | VObj KObject ps =>
      negb (Nat.eqb (List.length ps) 0) && forallb (fun kv => solid (snd kv)) ps
  | _ => true
  end.

(** The leaves of a nested object in depth-first order, each with the list
    of keys that leads to it. *)
Fixpoint leaves (v : value) : list (list string * value) :=
  match v with
  | VObj KObject ps =>
      flat_map (fun kv => map (fun e => (fst kv :: fst e, snd e)) (leaves (snd kv))) ps
  | _ => [([], v)]
  end.

Definition leaves_of (ps : props) : list (list string * value) :=
  leaves (VObj KObject ps).

(** The entry [flattenObject] makes of a leaf found below [path]. *)
Definition flat_entry (path : list string) (e : list string * value) : string * value :=
  (join "." (path ++ fst e), snd e).

Definition under (k : string) (e : list string * value) : list string * value :=
  (k :: fst e, snd e).

(** [expandObject] on entries whose keys are already split. *)
Fixpoint expand_keys (l : list (list string * value)) (result : props) : outcome props :=
  match l with
  | [] => Ok result
  | (ks, v) :: tl =>
      result' ← expand_reduce KObject ks v result;
      expand_keys tl result'
  end.

End Shape.

(** ** Vocabulary for the statements about [Validator.check] *)

Module CheckSpec.
Import Schema.

(** [k] has the form of an error path below field [f]: [f.key] or [f[i]...]. *)
Definition extends (f k : string) : bool :=
  starts_with (chars (f +:+ ".")) (chars k) || starts_with (chars (f +:+ "[")) (chars k).

(** An error is recorded for field [f]: under its name or below it. *)
Definition marked (f : string) (errs : props) : bool :=
  existsb (fun k => String.eqb k f || extends f k) (Props.keys errs).

(** [errs'] is [errs] with error paths of field [f] added or overwritten. *)
Definition grows (f : string) (errs errs' : props) : Prop :=
  (forall k, Props.has k errs = true -> Props.has k errs' = true)
  /\ (forall k, k = f \/ extends f k = true
                \/ Props.lookup k errs' = Props.lookup k errs).

(** No key of the data has the form of an error path below another key. *)
Definition independent_keys (dat : props) : bool :=
  forallb (fun k => forallb (fun f => negb (extends f k)) (Props.keys dat)) (Props.keys dat).

(** Values that leave the loop before any rule is looked at: an accepted
    [null] and the store's transform sentinels. *)
Definition passes_early (r : rules) (v : value) : bool :=
  match v with
  | VNull => match r with
             | Rules b _ => match r_null b with Some true => true | _ => false end
             | RulesText _ => false
             end
  | _ => Validator.is_transform v
  end.

(** The type a turn goes by: [rules.type], or the constructor name of the
    value when the rule has none. *)
Definition type_of (b : rule_base) (v : value) : string :=
  match r_type b with
  | Some t => if String.eqb t "" then constructorName v else t
  | None => constructorName v
  end.

(** [d] is the sanitized copy of the value [v] of field [f]: [f] goes by
    the type SubModel, its model has a registered schema, and [d] is the
    sanitized data of the nested check [chk] of [v] against that schema,
    which found [v] valid. *)
Definition sanitized_by (env : Env) (h : heap)
    (chk : schema -> props -> ValidationOptions -> outcome (ValidationResult * props))
    (sch : schema) (options : ValidationOptions) (f : string) (v : value) (d : props)
    : Prop :=
  exists b o m sub res d0,
    Props.lookup f sch = Some (Rules b o)
    /\ type_of b v = "SubModel"
    /\ r_model b = Some m /\ getModelSchema env m = Some sub
    /\ chk sub (enum_props h v) options = Ok (res, d0)
    /\ valid res = true /\ d = data res.

(** The same for [Validator.check] itself: the nested check is
    [Validator.check], one level down. *)
Definition sanitized_copy (fuel : nat) (env : Env) (h : heap) (sch : schema)
    (options : ValidationOptions) (f : string) (v : value) (d : props) : Prop :=
  exists n b o m sub res,
    fuel = S n
    /\ Props.lookup f sch = Some (Rules b o)
    /\ type_of b v = "SubModel"
    /\ r_model b = Some m /\ getModelSchema env m = Some sub
    /\ Validator.check n env h sub (enum_props h v) options = Ok res
    /\ valid res = true /\ d = data res.

(** The value carries an own property named [constructor], which hides
    the class the sources read the type from. *)
Definition own_constructor (v : value) : bool :=
  match v with
  | VObj _ ps => Props.has "constructor" ps
  | VColl _ _ items _ _ => Props.has "constructor" items
  | _ => false
  end.

(** What one turn of the [fields:] loop for field [f] does to the state
    [(errors, cleaned, data)], [lk] being the rule of [f]: the field is left
    out, with an error recorded for it unless it has no rule or bears the
    name of a member of [Object.prototype]; or it is taken, with the value
    [data] then holds, no error being recorded under its name. *)
Definition left_out (f : string) (lk : option rules) (errs' cleaned cleaned' : props) : Prop :=
  cleaned' = cleaned /\ (lk = None \/ inherited f = true \/ marked f errs' = true).

Definition taken (options : ValidationOptions) (f : string) (lk : option rules)
    (errs errs' cleaned cleaned' dat dat' : props) : Prop :=
  cleaned' = Props.set f (Props.get dat' f) cleaned
  /\ undefined_at errs f = true
  /\ Props.lookup f errs' = Props.lookup f errs
  /\ exists r, lk = Some r
       /\ (passes_early r (Props.get dat f) = true
           \/ exists b o, r = Rules b o
                /\ Validator.admin_only b && Validator.not_admin (authValue options) = false).

Definition turn (env : Env) (h : heap)
    (chk : schema -> props -> ValidationOptions -> outcome (ValidationResult * props))
    (sch : schema) (options : ValidationOptions) (f : string)
    (lk : option rules) (st st' : Validator.state) : Prop :=
  let '(errs, cleaned, dat) := st in
  let '(errs', cleaned', dat') := st' in
  grows f errs errs'
  /\ (dat' = dat
      \/ exists d, sanitized_by env h chk sch options f (Props.get dat f) d
                   /\ dat' = Props.set f (VObj KObject d) dat)
  /\ (left_out f lk errs' cleaned cleaned'
      \/ taken options f lk errs errs' cleaned cleaned' dat dat').

End CheckSpec.

(** ** Sample classes, schemas and data used in the examples *)

Module Sample.
Import Schema.

(** Entity classes (declared [extends Model]) and a sub-model class. *)
Definition Post : ctor := Ctor "Post" "Model" (Some true) 1.
Definition Comment : ctor := Ctor "Comment" "Model" (Some true) 2.
Definition Topic : ctor := Ctor "Topic" "Model" (Some true) 3.
Definition Address : ctor := Ctor "Address" "" (Some false) 4.

Definition string_rule : rules := rule (with_type "String" no_rules).

Definition topic_schema : schema := [("name", string_rule)].
Definition address_schema : schema := [("zip", string_rule)].

Definition env : Env :=
  {| getSchema := fun c => if decide (c = Topic) then topic_schema else [];
     getModelSchema := fun c => if decide (c = Address) then Some address_schema else None;
     email_re := fun _ => false;
     url_re := fun _ => false;
     render := fun _ => "";
     loose_ge := fun _ _ => false;
     unique_taken := fun _ _ _ _ => false |}.

(** [{ token: { write: 'admin' } }] and [{ token: 'any' }]. *)
Definition token_schema : schema := [("token", rule (with_write "admin" no_rules))].
Definition token_data : props := [("token", VStr "any")].

(** [{ title: { required: true, minlength: 5 } }]. *)
Definition title_schema : schema :=
  [("title", rule (with_minlength (VNum 5) (with_required (VBool true) no_rules)))].

(** A SubModel field whose value has a property the nested schema lacks. *)
Definition user_schema : schema :=
  [("address", rule (with_model Address (with_type "SubModel" no_rules)))].
Definition user_data : props :=
  [("address", VObj (KInstance Address) [("zip", VStr "10000"); ("floor", VNum 3)])].

(** A field named like the error path of another field's nested error. *)
Definition topic_heap : heap :=
  {[ 7 := Entity Topic [("name", VNum 5)] [("name", VNum 5)] None None None VNull true ]}.
Definition dotted_schema : schema :=
  [("topic.name", string_rule);
   ("topic", rule (with_model Topic (with_type "Reference" no_rules)))].
Definition dotted_data : props :=
  [("topic.name", VStr "x"); ("topic", VModel Topic 7)].

Definition opts (nd : bool) (auth : value) : ValidationOptions :=
  {| newDocument := nd; authValue := auth |}.

Definition token_rejected : ValidationResult :=
  {| valid := false; data := [];
     errors := [("token", VStr "Admin permission required")] |}.
Definition token_accepted : ValidationResult :=
  {| valid := true; data := [("token", VStr "any")]; errors := [] |}.
Definition title_data : props := [("title", VStr "hello"); ("other", VNum 1)].
Definition title_result : ValidationResult :=
  {| valid := true; data := [("title", VStr "hello")]; errors := [] |}.
Definition user_result : ValidationResult :=
  {| valid := true; data := [("address", obj [("zip", VStr "10000")])]; errors := [] |}.

(** Nested objects for [flattenObject] and [expandObject]. *)
Definition profile : props :=
  [("name", VStr "Ann");
   ("address", obj [("zipcode", VStr "10000");
                    ("location", obj [("lat", VNum 1); ("lon", VNum 0)])]);
   ("tags", arr [VStr "a"; VStr "b"])].
Definition with_empty_meta : props := [("title", VStr "t"); ("meta", obj [])].

End Sample.

(** ** Query.ts *)

Module Query.

(** The part of [QueryData] that the methods below read or write. *)
Record QueryData := {
  q_limit : option Z;
  q_after : option (value * bool);
  q_before : option (value * bool);
  q_auth : value;
}.

Record t := {
  model : ctor;
  getOne : bool;
  query : QueryData;
  path : string;
}.

(** [new Query(model, getOne, where, path)]; [model_path] is [model.path]. *)
Definition create (model : ctor) (model_path : string) (getOne : bool)
    (path : option string) : t :=
  {| model := model;
     getOne := getOne;
     query := {| q_limit := if getOne then Some 1%Z else None;
                 q_after := None; q_before := None; q_auth := VNull |};
     path := match path with Some p => p | None => model_path end |}.








(** The choice at the head of [update]: [registered] is
    [Storage.getModelSpecs(this.model).callbacks], [callbacks] is
    [params.callbacks], [sch] is the formatted schema that [getSchema]
    returns; [&&] binds tighter than [||], and [data[field]] is read through
    [Object.prototype]. *)
Definition is_reference (r : Schema.rules) : bool :=
  match r with
  | Schema.Rules b _ =>
      match Schema.r_type b with Some t => String.eqb t "Reference" | None => false end
  | Schema.RulesText _ => false
  end.

Definition unique_set (r : Schema.rules) : bool :=
  match r with
  | Schema.Rules b _ =>
      match Schema.r_unique b with Some u => truthy u | None => false end
  | Schema.RulesText _ => false
  end.

Definition save_hooks (registered : list string) : bool :=
  existsb (fun e => bool_decide (e ∈ registered)) ["beforeSave"; "afterSave"].

Definition useModel (registered : list string) (sch : Schema.schema) (dat : props)
    (callbacks : value) : bool :=
  if negb (Validator.is_false callbacks) && save_hooks registered
  then true
  else existsb (fun fr => (truthy_at dat (fst fr) && is_reference (snd fr))
                          || unique_set (snd fr)) sch.

(** How [update] then proceeds. *)
Inductive update_path :=
| PerEntity                            (* [model.save(params)] on each result *)
| RawData (representative : bool).     (* [session.update] on each path *)

Definition update_path_of (registered : list string) (sch : Schema.schema)
    (dat : props) (callbacks validate : value) : update_path :=
  if useModel registered sch dat callbacks then PerEntity
  else RawData (negb (Validator.is_false validate)).

End Query.

(** ** Notions for the statements about [Query] *)

Module QuerySpec.
Import Query.


(** Bulk update as documented: entities are materialized when save hooks
    are registered and not disabled, or when a field of the update diff is
    a Reference or a unique field. *)
Definition in_diff (dat : props) (field : string) : bool := Props.has field dat.

Definition documented_useModel (registered : list string) (sch : Schema.schema)
    (dat : props) (callbacks : value) : bool :=
  (negb (Validator.is_false callbacks) && save_hooks registered)
  || existsb (fun fr => in_diff dat (fst fr)
                        && (is_reference (snd fr) || unique_set (snd fr))) sch.

End QuerySpec.

Module SampleQuery.
Import Schema.


Definition posts : Query.t := Query.create Sample.Post "posts" false None.

(** [{ title: { type: 'String' }, username: { type: 'String', unique: true } }],
    which [Schema.format] leaves as it is, and the diff [{ title: 'x' }]. *)
Definition account_schema : schema :=
  [("title", Sample.string_rule);
   ("username", rule (with_unique (VBool true) (with_type "String" no_rules)))].
Definition title_diff : props := [("title", VStr "x")].

(** [{ title: { type: 'String' }, author: { type: 'Reference' } }]. *)
Definition article_schema : schema :=
  [("title", Sample.string_rule); ("author", rule (with_type "Reference" no_rules))].
Definition author_diff : props := [("author", VStr "u1")].

End SampleQuery.

(** ** Collection.ts *)

Module Collection.

(** A [Collection] object: the array part ([items], [length]) and the
    properties the constructor defines on it. *)
Record t := {
  model : ctor;
  path : string;
  items : props;
  length : N;
  deleted : list value;
}.

Definition to_value (c : t) : value :=
  VColl (model c) (path c) (items c) (length c) (deleted c).

Definition with_items (c : t) (ps : props) (n : N) : t :=
  {| model := model c; path := path c; items := ps; length := n;
     deleted := deleted c |}.

(** [target.deleted.push(v)]. *)
Definition push_deleted (c : t) (v : value) : t :=
  {| model := model c; path := path c; items := items c; length := length c;
     deleted := deleted c ++ [v] |}.

(** [value.constructor === Object], for a truthy value. *)
Definition is_plain (v : value) : bool :=
  match v with VObj KObject _ => true | _ => false end.

Definition own_props (v : value) : props :=
  match v with VObj _ ps => ps | _ => [] end.

(** [v.getRef()] is truthy. *)
Definition has_ref (h : heap) (v : value) : outcome bool :=
  match v with
  | VModel _ a =>
      match h !! a with
      | Some e => Ok (bool_decide (is_Some (getRef e)))
      | None => Throw (Beyond "dangling entity")
      end
  | VUndefined | VNull =>
      Throw (TypeError "Cannot read properties of undefined (reading 'getRef')")
  | _ => Throw (TypeError "getRef is not a function")
  end.

(** [v.getId()] is truthy, for an entity instance [v]. *)
Definition has_id (h : heap) (v : value) : outcome bool :=
  match v with
  | VModel _ a =>
      match h !! a with
      | Some e => Ok (match getId e with
                      | Some s => negb (String.eqb s "")
                      | None => false
                      end)
      | None => Throw (Beyond "dangling entity")
      end
  | _ => Throw (Beyond "an instance that the Model constructor did not set up")
  end.

(** [Reflect.defineProperty(target, prop, { value: v })] on the array:
    [length] follows an index past the end; writing [length] drops the
    elements from there on. *)
Definition keep_below (n : N) (ps : props) : props :=
  List.filter (fun kv => match array_index (fst kv) with
                    | Some i => (i <? n)%N
                    | None => true
                    end) ps.

Definition Reflect_defineProperty (target : t) (prop : string) (v : value)
    : outcome t :=
  if String.eqb prop "length" then
    match v with
    | VNum n =>
        if (0 <=? n)%Z
        then Ok (with_items target (keep_below (Z.to_N n) (items target)) (Z.to_N n))
        else Throw (Beyond "RangeError: Invalid array length")
    | _ => Throw (Beyond "RangeError: Invalid array length")
    end
  else if bool_decide (prop ∈ ["model"; "path"; "deleted"]) then
    Throw (Beyond "a property that the constructor defined on the collection")
  else
    Ok (with_items target (Props.set prop v (items target))
          (match array_index prop with
           | Some i => N.max (length target) (i + 1)
           | None => length target
           end)).

(** What [Reflect.defineProperty] gives at the index [i] written [k]. *)
Definition define (target : t) (k : string) (i : N) (w : value) : t :=
  with_items target (Props.set k w (items target)) (N.max (length target) (i + 1)).

(** [target.splice(i, 1)]. *)
Definition splice (i : N) (target : t) : t :=
  if (i <? length target)%N then
    with_items target
      (flat_map (fun kv => match array_index (fst kv) with
                           | Some j => if (j <? i)%N then [kv]
                                       else if (j =? i)%N then []
                                       else [(string_of_N (j - 1), snd kv)]
                           | None => [kv]
                           end) (items target))
      (length target - 1)
  else target.

Section Traps.
(** What the [Model] constructor leaves as own properties and change-set of
    the new instance after the defaults and [Object.assign(proxy, data)]
    through [ModelHandler.set]. *)
Variable init : ctor -> props -> heap -> outcome (props * props * heap).

(** [new model(data, null)]. *)
Definition new_model (c : ctor) (dat : props) (h : heap) : outcome (value * heap) :=
  '(ps, changes, h1) ← init c dat h;
  let a := fresh (dom h1) in
  Ok (VModel c a, <[a := Entity c ps changes None None None VNull true]> h1).

(** The [defineProperty] trap, for a descriptor [{ value: v }]. *)
Definition defineProperty (h : heap) (target : t) (prop : string) (v : value)
    : outcome (t * heap) :=
  let cur := Props.get (items target) prop in
  if isNaN_parseInt prop || (negb (truthy cur) && isModelInstance v)
  then target' ← Reflect_defineProperty target prop v; Ok (target', h)
  else
    let modelInstance := isModelInstance v in
    if negb modelInstance && (negb (truthy v) || negb (is_plain v))
    then Throw (Error ("Invalid value type '" +:+ constructorName v
                         +:+ "'. Expecting Object or Model instance"))
    else
      displaced ← (if truthy cur && isModelInstance cur then has_id h cur
                   else Ok false);
      let target1 := if displaced : bool then push_deleted target cur else target in
      '(w, h') ← (if modelInstance then Ok (v, h)
                  else new_model (model target) (own_props v) h);
      target2 ← Reflect_defineProperty target1 prop w;
      Ok (target2, h').

(** The [deleteProperty] trap. [splice] converts the key to a number: an
    array index is itself, a key that is no number counts as 0. *)
Definition deleteProperty (h : heap) (target : t) (prop : string) : outcome t :=
  let cur := Props.get (items target) prop in
  ref ← has_ref h cur;
  let target1 := if ref : bool then push_deleted target cur else target in
  match array_index prop with
  | Some i => Ok (splice i target1)
  | None =>
      if isNaN_Number prop then Ok (splice 0 target1)
      else Throw (Beyond "splice at a number that is not an array index")
  end.

(** [collection[i] = v]: without a [set] trap the write reaches the
    [defineProperty] trap. *)
Definition assign_index (h : heap) (c : t) (i : N) (v : value) : outcome (t * heap) :=
  defineProperty h c (string_of_N i) v.

(** [collection.push(v)]: the element, then [length]. *)
Definition push (h : heap) (c : t) (v : value) : outcome (t * heap) :=
  '(c1, h1) ← defineProperty h c (string_of_N (length c)) v;
  defineProperty h1 c1 "length" (VNum (Z.of_N (length c + 1))).

(** [new Collection(model, path, docs)]; [model_path] is [model.path]. The
    documents are pushed before the proxy exists. *)
Fixpoint create_items (m : ctor) (docs : list props) (h : heap) (acc : list value)
    : outcome (list value * heap) :=
  match docs with
  | [] => Ok (acc, h)
  | dat :: tl =>
      '(v, h') ← new_model m dat h;
      create_items m tl h' (acc ++ [v])
  end.

Definition create (m : ctor) (model_path : string) (path : option string)
    (docs : list props) (h : heap) : outcome (t * heap) :=
  '(vs, h') ← create_items m docs h [];
  Ok ({| model := m;
         path := match path with Some p => p | None => model_path end;
         items := Props.of_list vs;
         length := N.of_nat (List.length vs);
         deleted := [] |}, h').
End Traps.

End Collection.

(** ** Notions for the statements about [Collection] *)

Module CollectionSpec.
Import Collection.

(** An element: the value under an array index. *)
Definition element (c : t) (v : value) : Prop :=
  exists k i, array_index k = Some i /\ Props.lookup k (items c) = Some v.




End CollectionSpec.

Module SampleCollection.

(** A class without defaults whose schema has no rule that converts the
    data: the constructor takes the data as it is, tracked. *)
Definition plain_init (c : ctor) (dat : props) (h : heap)
    : outcome (props * props * heap) := Ok (dat, dat, h).

(** A stored post and a new comment. *)
Definition blog_heap : heap :=
  {[ 1 := Entity Sample.Post [("title", VStr "a")] [] (Some "posts/p1") None None VNull true;
     3 := Entity Sample.Comment [("text", VStr "c")] [("text", VStr "c")]
            None None None VNull true ]}.

Definition posts : Collection.t :=
  {| Collection.model := Sample.Post; Collection.path := "posts";
     Collection.items := [("0", VModel Sample.Post 1)];
     Collection.length := 1; Collection.deleted := [] |}.


Definition new_title : value := obj [("title", VStr "n")].

End SampleCollection.

(** ** Converter.ts: [toFirestore] *)

Module Converter.

Section Fields.
(** What is assigned to [formatted[field]] for one value, if anything. *)
Variable convert : value -> option value.

(** The [for ... in] loop of [toFirestore]. *)
Fixpoint fields (l : props) : props :=
  match l with
  | [] => []
  | (field, v) :: tl =>
      match convert v with
      | Some w => (field, w) :: fields tl
      | None => fields tl
      end
  end.
End Fields.

(** One [switch (constructorName(value))]: a Collection is left out, a
    [Document] becomes the store reference, arrays, plain objects and
    sub-model instances are converted in turn, anything else is kept. The
    case is read here from the kind of the value, which is what the name of
    its class gives for the values of [ConverterSpec.regular]: those
    without an own property named [constructor], of a class that does not
    bear one of the four names of the [switch], and whose [Document]s refer
    to paths that [doc] of the store takes. *)
Fixpoint convert (v : value) : option value :=
  match v with
  | VColl _ _ _ _ _ => None
  | VDocument _ path id => Some (VDocRef (path +:+ "/" +:+ id))
  | VObj KArray ps => Some (VObj KArray (fields convert ps))
  | VObj KObject ps => Some (VObj KObject (fields convert ps))
  | VObj (KInstance c) ps =>
      if isSubModelInstance v then Some (VObj KObject (fields convert ps))
      else Some v
  | _ => Some v
  end.

(** [Converter.toFirestore(data)] on the properties of [data]. *)
Definition toFirestore (dat : props) : props := fields convert dat.

End Converter.

(** ** The store session, the callback queue and the trace of a run *)

Inductive write :=
| WSet (ref : string) (dat : props)
| WUpdate (ref : string) (dat : props)
| WDelete (ref : string).

Inductive session_kind := WriteBatch | Transaction.

(** A session object: [session[Firesnap.SESSION_KEY]],
    [session[Firesnap.INTERNAL_KEY]] and [session.constructor.name]. *)
Record session := {
  sessId : string;
  internal : bool;
  kind : session_kind;
}.

(** An entry of [Storage.callbacks[sessionId]]. *)
Record callback := {
  cb_model : value;
  cb_method : string;
  cb_args : list value;
}.

(** What a run does that can be seen from outside, in order: a lifecycle
    hook of an entity is called, a write is staged on a session, the store
    applies the writes of a session or refuses them. *)
Inductive event :=
| Called (this : value) (method : string) (args : list value)
| Staged (sid : string) (w : write)
| Committed (sid : string)
| Rejected (sid : string).

Record world := {
  w_heap : heap;
  w_callbacks : list (string * list callback);   (* Storage.callbacks *)
  w_next : N;                                    (* auto-ids handed out so far *)
  w_trace : list event;
}.

(** What the library takes from the application and from the store. *)
Record Runtime := {
  rt_env : Env;
  class_path : ctor -> string;                        (* constructor.path *)
  hook : string -> value -> list value -> heap -> js_error + value * heap;
  listCollections : string -> list string;            (* of a stored document *)
  collection_docs : string -> list string;            (* of a stored collection *)
  store_commit : list write -> option js_error;       (* [None]: applied *)
  populatePrimaryKey : bool;
  primaryKeyName : string;
}.


(** ** Runs: state that survives an exception *)

(** A computation on the world. The world is kept when the computation
    throws: [try ... catch] and [finally] see what was done before. *)
Definition io (A : Type) : Type := world -> outcome A * world.

Module IO.

Definition ret {A} (a : A) : io A := fun w => (Ok a, w).

Definition bind {A B} (m : io A) (f : A -> io B) : io B :=
  fun w => match m w with
           | (Ok a, w') => f a w'
           | (Throw e, w') => (Throw e, w')
           | (NoFuel, w') => (NoFuel, w')
           end.

Definition throw {A} (e : js_error) : io A := fun w => (Throw e, w).
Definition out_of_fuel {A} : io A := fun w => (NoFuel, w).

(** A pure step that can throw. *)
Definition lift {A} (o : outcome A) : io A := fun w => (o, w).

(** [try { m } catch (e) { error = e }]. *)
Definition catch {A} (m : io A) : io (js_error + A) :=
  fun w => match m w with
           | (Ok a, w') => (Ok (inr a), w')
           | (Throw e, w') => (Ok (inl e), w')
           | (NoFuel, w') => (NoFuel, w')
           end.

Definition get_heap : io heap := fun w => (Ok (w_heap w), w).

Definition put_heap (h : heap) : io unit :=
  fun w => (Ok tt, {| w_heap := h; w_callbacks := w_callbacks w;
                      w_next := w_next w; w_trace := w_trace w |}).

Definition log (ev : event) : io unit :=
  fun w => (Ok tt, {| w_heap := w_heap w; w_callbacks := w_callbacks w;
                      w_next := w_next w; w_trace := w_trace w ++ [ev] |}).

Definition get_trace : io (list event) := fun w => (Ok (w_trace w), w).

Definition get_callbacks : io (list (string * list callback)) :=
  fun w => (Ok (w_callbacks w), w).

Definition put_callbacks (cbs : list (string * list callback)) : io unit :=
  fun w => (Ok tt, {| w_heap := w_heap w; w_callbacks := cbs;
                      w_next := w_next w; w_trace := w_trace w |}).

(** [Storage.getFirestore().collection(path).doc().id]: an id that the
    store has not handed out before. *)
Definition auto_id_of (n : N) : string := "auto-" +:+ string_of_N n.

Definition auto_id : io string :=
  fun w => (Ok (auto_id_of (w_next w)),
            {| w_heap := w_heap w; w_callbacks := w_callbacks w;
               w_next := (w_next w + 1)%N; w_trace := w_trace w |}).

(** A loop over a list whose body runs for its effect. *)
Fixpoint for_each {A} (f : A -> io unit) (l : list A) : io unit :=
  match l with
  | [] => ret tt
  | x :: tl => bind (f x) (fun _ => for_each f tl)
  end.

End IO.

Global Instance io_ret : MRet io := @IO.ret.
Global Instance io_bind : MBind io := fun A B f m => IO.bind m f.


(** ** Metadata.ts: the callback queue *)

Module Storage.

Definition queue_of (sid : string) (cbs : list (string * list callback))
    : list callback :=
  match Props.lookup sid cbs with
  | Some l => l
  | None => []
  end.

(** [Storage.storeCallback(sessionId, model, method, args)]. *)
Definition storeCallback (sid : string) (model : value) (method : string)
    (args : list value) : io unit :=
  cbs ← IO.get_callbacks;
  IO.put_callbacks
    (Props.set sid
       (queue_of sid cbs
          ++ [{| cb_model := model; cb_method := method; cb_args := args |}])
       cbs).

(** [Storage.getCallbacks(sessionId)]. *)
Definition getCallbacks (sid : string) : io (list callback) :=
  cbs ← IO.get_callbacks; mret (queue_of sid cbs).

(** [Storage.clearCallbacks(sessionId)]. *)
Definition clearCallbacks (sid : string) : io unit :=
  cbs ← IO.get_callbacks; IO.put_callbacks (Props.remove sid cbs).

End Storage.

(** ** Entity instances in a run *)

Module Instance.

Definition lifecycle_hooks : list string :=
  ["beforeSave"; "afterSave"; "beforeDelete"; "afterDelete"].

(** The entity behind [this]. *)
Definition read (this : value) : io entity :=
  h ← IO.get_heap;
  match this with
  | VModel _ a =>
      match h !! a with
      | Some e => mret e
      | None => IO.throw (Beyond "dangling entity")
      end
  | _ => IO.throw (Beyond "an instance that the Model constructor did not set up")
  end.

Definition modify (this : value) (f : entity -> entity) : io unit :=
  e ← read this;
  h ← IO.get_heap;
  match this with
  | VModel _ a => IO.put_heap (<[a := f e]> h)
  | _ => mret tt
  end.

Definition with_props (ps : props) (e : entity) : entity :=
  Entity (e_ctor e) ps (e_changes e) (e_fireRef e) (e_docSnap e) (e_docId e)
    (e_authValue e) (e_tracking e).

Definition with_fireRef (r : option string) (e : entity) : entity :=
  Entity (e_ctor e) (e_props e) (e_changes e) r (e_docSnap e) (e_docId e)
    (e_authValue e) (e_tracking e).

(** [resetChanges()]. *)
Definition resetChanges (e : entity) : entity :=
  Entity (e_ctor e) (e_props e) [] (e_fireRef e) (e_docSnap e) (e_docId e)
    (e_authValue e) (e_tracking e).

(** [resetProperties()]: every symbol property is set to [null], every
    named property deleted, then the change-set and tracking are set up
    again. *)
Definition resetProperties (e : entity) : entity :=
  Entity (e_ctor e) [] [] None None None VNull true.

Section Runtime.
Variable rt : Runtime.

(** A call of a lifecycle hook of [this]. The body of the hook is the
    application's: it throws, or returns a value and changes entities. *)
Definition call_hook (method : string) (this : value) (args : list value) : io value :=
  IO.log (Called this method args);;
  h ← IO.get_heap;
  match hook rt method this args h with
  | inl e => IO.throw e
  | inr (r, h') => IO.put_heap h';; mret r
  end.

(** [cb.model[cb.method](...cb.args)]. *)
Definition run_callback (cb : callback) : io unit :=
  if bool_decide (cb_method cb ∈ lifecycle_hooks)
  then call_hook (cb_method cb) (cb_model cb) (cb_args cb);; mret tt
  else if String.eqb (cb_method cb) "resetChanges"
  then modify (cb_model cb) resetChanges
  else if String.eqb (cb_method cb) "resetProperties"
  then modify (cb_model cb) resetProperties
  else IO.throw (TypeError "cb.model[cb.method] is not a function").
End Runtime.

End Instance.


(** ** Firesnap.ts: sessions *)

Module Firesnap.

(** The writes staged on a session so far. *)
Definition staged_of (sid : string) (tr : list event) : list write :=
  omap (fun ev => match ev with
                  | Staged s w => if String.eqb s sid then Some w else None
                  | _ => None
                  end) tr.

(** [session.set], [session.update], [session.delete]. *)
Definition stage (s : session) (w : write) : io unit := IO.log (Staged (sessId s) w).

(** [Firesnap.batch(internal)]. The timer that clears the queue of a batch
    left uncommitted for [callbackTimeout] milliseconds is outside the
    runs described here. *)
Definition batch (internal : bool) : io session :=
  sid ← IO.auto_id;
  mret {| sessId := sid; internal := internal; kind := WriteBatch |}.

Section Runtime.
Variable rt : Runtime.

(** The store applies the staged writes of the session, or refuses them
    with its error. *)
Definition store_applies (sid : string) : io unit :=
  tr ← IO.get_trace;
  match store_commit rt (staged_of sid tr) with
  | Some err => IO.log (Rejected sid);; IO.throw err
  | None => IO.log (Committed sid)
  end.

(** [Promise.all] over the queued callbacks of a batch: each one is
    called; the first error is the one thrown. *)
Fixpoint run_all (cbs : list callback) (first : option js_error) : io unit :=
  match cbs with
  | [] => match first with Some e => IO.throw e | None => mret tt end
  | cb :: tl =>
      r ← IO.catch (Instance.run_callback rt cb);
      run_all tl (match first, r with
                  | None, inl e => Some e
                  | _, _ => first
                  end)
  end.

(** [batch.commit()] through the proxy of [Firesnap.batch]. *)
Definition commit (s : session) : io unit :=
  r ← IO.catch (store_applies (sessId s);;
                cbs ← Storage.getCallbacks (sessId s);
                run_all cbs None);
  Storage.clearCallbacks (sessId s);;
  match r with
  | inl e => IO.throw e
  | inr _ => mret tt
  end.

(** A queued callback called in a transaction: the promise of a hook is
    dropped, so an error of its body stays there. *)
Definition run_detached (cb : callback) : io unit :=
  if bool_decide (cb_method cb ∈ Instance.lifecycle_hooks)
  then _ ← IO.catch (Instance.run_callback rt cb); mret tt
  else Instance.run_callback rt cb.

(** [Firesnap.transaction(executor)]: the function handed to
    [runTransaction], then the store's commit once that function has
    returned. The store's retries are left out. *)
Definition transaction (executor : session -> io unit) : io unit :=
  sid ← IO.auto_id;
  let txn := {| sessId := sid; internal := false; kind := Transaction |} in
  r ← IO.catch (executor txn;;
                cbs ← Storage.getCallbacks sid;
                IO.for_each run_detached cbs);
  Storage.clearCallbacks sid;;
  match r with
  | inl e => IO.throw e
  | inr _ => store_applies sid
  end.
End Runtime.

End Firesnap.


(** ** Model/Model.ts: [save] and [delete] *)

Module Model.

(** [SaveParams]; [delete] reads [callbacks], [session] and [recurring]. *)
Record SaveParams := {
  p_callbacks : value;
  p_validate : value;
  p_overwrite : value;
  p_session : option session;
  p_recurring : bool;
  p_parentRef : option string;
  p_fieldName : option string;
}.

(** The defaults that [save] merges the options into. *)
Definition default_params : SaveParams :=
  {| p_callbacks := VBool true; p_validate := VBool true; p_overwrite := VBool false;
     p_session := None; p_recurring := false; p_parentRef := None;
     p_fieldName := None |}.

Definition with_callbacks (cb : value) (p : SaveParams) : SaveParams :=
  {| p_callbacks := cb; p_validate := p_validate p; p_overwrite := p_overwrite p;
     p_session := p_session p; p_recurring := p_recurring p;
     p_parentRef := p_parentRef p; p_fieldName := p_fieldName p |}.

Definition with_session (s : session) (p : SaveParams) : SaveParams :=
  {| p_callbacks := p_callbacks p; p_validate := p_validate p;
     p_overwrite := p_overwrite p; p_session := Some s; p_recurring := p_recurring p;
     p_parentRef := p_parentRef p; p_fieldName := p_fieldName p |}.

Definition with_validate (v : value) (p : SaveParams) : SaveParams :=
  {| p_callbacks := p_callbacks p; p_validate := v; p_overwrite := p_overwrite p;
     p_session := p_session p; p_recurring := p_recurring p;
     p_parentRef := p_parentRef p; p_fieldName := p_fieldName p |}.

(** [Object.assign({}, params, { recurring: true, session: session })]. *)
Definition recParams_of (p : SaveParams) (s : session) : SaveParams :=
  {| p_callbacks := p_callbacks p; p_validate := p_validate p;
     p_overwrite := p_overwrite p; p_session := Some s; p_recurring := true;
     p_parentRef := p_parentRef p; p_fieldName := p_fieldName p |}.

(** [Object.assign({}, recParams, { parentRef: ..., fieldName: field })]. *)
Definition member_params (p : SaveParams) (ref : option string) (field : string)
    : SaveParams :=
  {| p_callbacks := p_callbacks p; p_validate := p_validate p;
     p_overwrite := p_overwrite p; p_session := p_session p;
     p_recurring := p_recurring p; p_parentRef := ref; p_fieldName := Some field |}.

(** [params.callbacks === true || params.callbacks === name]. *)
Definition callbacks_is (cb : value) (name : string) : bool :=
  match cb with
  | VBool true => true
  | VStr s => String.eqb s name
  | _ => false
  end.

(** [path.indexOf('/') < 1]. *)
Definition no_inner_slash (path : string) : bool :=
  match chars path with
  | [] => true
  | c :: tl => Ascii.eqb c "/" || negb (existsb (Ascii.eqb "/") tl)
  end.

Definition is_nil {A} (l : list A) : bool :=
  match l with [] => true | _ => false end.

(** [l.splice(i, 1)] on a list. *)
Fixpoint remove_nth {A} (i : nat) (l : list A) : list A :=
  match l, i with
  | [], _ => []
  | _ :: tl, O => tl
  | x :: tl, S j => x :: remove_nth j tl
  end.

Section Runtime.
Variable rt : Runtime.
(** Bound on the nesting of [Validator.check] and of stored
    sub-collections. *)
Variable depth : nat.

(** [getSession(params)], or [Firesnap.batch(true)] without one. *)
Definition session_of (params : SaveParams) : io session :=
  match p_session params with
  | Some s => mret s
  | None => Firesnap.batch true
  end.

(** [Collection.delete(path, { session, recurring })]. *)
Fixpoint Collection_delete (fuel : nat) (path : string) (s : option session)
    (recurring : bool) : io unit :=
  match fuel with
  | O => IO.out_of_fuel
  | S fuel' =>
      if no_inner_slash path
      then IO.throw (Error "Only sub-collections can be deleted")
      else
        sess ← (match s with Some x => mret x | None => Firesnap.batch true end);
        let docs := collection_docs rt path in
        IO.for_each (fun doc => Firesnap.stage sess (WDelete doc)) docs;;
        IO.for_each
          (fun doc => IO.for_each
                        (fun col => Collection_delete fuel' col (Some sess) true)
                        (listCollections rt doc)) docs;;
        if internal sess && negb recurring then Firesnap.commit rt sess else mret tt
  end.

(** [this.delete(options)]. *)
Definition delete (this : value) (params : SaveParams) : io bool :=
  go ← (if callbacks_is (p_callbacks params) "beforeDelete"
        then r ← Instance.call_hook rt "beforeDelete" this [];
             mret (negb (Validator.is_false r))
        else mret true);
  if negb go then mret false
  else
    e ← Instance.read this;
    match getRef e with
    | None => mret false
    | Some ref =>
        sess ← session_of params;
        IO.for_each (fun col => Collection_delete depth col (Some sess) true)
          (listCollections rt ref);;
        Firesnap.stage sess (WDelete ref);;
        (if callbacks_is (p_callbacks params) "afterDelete"
         then Storage.storeCallback (sessId sess) this "afterDelete" []
         else mret tt);;
        (if internal sess && negb (p_recurring params)
         then Firesnap.commit rt sess;; Instance.modify this Instance.resetProperties
         else Storage.storeCallback (sessId sess) this "resetProperties" []);;
        mret true
    end.
End Runtime.

Section Save.
Variable rt : Runtime.
Variable depth : nat.
(** [save] itself, one level down. The promises that [save] gathers and
    awaits with [Promise.all] are modelled run to completion one after the
    other, in the order they are made. *)
Variable rec : value -> SaveParams -> io bool.

(** [this.validate(transaction)], throwing on an invalid result. *)
Definition validated (this : value) : io props :=
  h ← IO.get_heap;
  match this with
  | VModel _ a =>
      result ← IO.lift (Validator.validate depth (rt_env rt) h a);
      if negb (valid result) then IO.throw (ValidationError (errors result))
      else mret (data result)
  | _ => IO.throw (Beyond "an instance that the Model constructor did not set up")
  end.

(** The data to write: the sanitized change-set, or the change-set as it
    is when validation is off. *)
Definition change_data (this : value) (params : SaveParams) : io props :=
  if negb (Validator.is_false (p_validate params)) then validated this
  else e ← Instance.read this; mret (e_changes e).

(** The loop over [flatData]: an entity instance that is stored and
    unchanged is only noted, any other is saved; every path is deleted
    from [flatData]. The result lists the requests. *)
Fixpoint save_references (recParams : SaveParams) (flat : props)
    : io (list (string * value)) :=
  match flat with
  | [] => mret []
  | (path, v) :: tl =>
      if isModelInstance v then
        e ← Instance.read v;
        (if bool_decide (is_Some (getRef e)) && is_nil (e_changes e) then mret tt
         else _ ← rec v recParams; mret tt);;
        rest ← save_references recParams tl;
        mret ((path, v) :: rest)
      else save_references recParams tl
  end.

(** [new Document(model, id)] for an [id] that may be a path. *)
Definition new_Document (model : ctor) (id : string) : outcome value :=
  if (String.length id <? 1)%nat
  then Throw (Error ("Invalid id '" +:+ id +:+ "' for Document reference of type '"
                       +:+ ctor_name model +:+ "'"))
  else if existsb (Ascii.eqb "/") (chars id)
  then let paths := split "/" id in
       Ok (VDocument model (join "/" (removelast paths)) (List.last paths ""))
  else Ok (VDocument model (class_path rt model) id).

(** After [Promise.all]: [flatData[request.path] = new Document(...)] for
    each request. *)
Fixpoint documents_of (requests : list (string * value)) (flat : props) : io props :=
  match requests with
  | [] => mret flat
  | (path, v) :: tl =>
      e ← Instance.read v;
      match v, getRef e with
      | VModel c _, Some ref =>
          doc ← IO.lift (new_Document c ref);
          documents_of tl (Props.set path doc flat)
      | _, _ => IO.throw (TypeError "Cannot read properties of null (reading 'path')")
      end
  end.

(** The data with the references replaced, converted for the store:
    [fireData]. *)
Definition outgoing (this : value) (params : SaveParams) (sess : session) : io props :=
  dat ← change_data this params;
  e ← Instance.read this;
  flatData ← IO.lift (flattenObject (e_props e) false "__SEP__" []);
  requests ← save_references (recParams_of params sess) flatData;
  flatDocs ← documents_of requests [];
  dat' ← (if is_nil requests then mret dat
          else ex ← IO.lift (expandObject flatDocs "__SEP__");
               mret (Props.assign dat ex));
  mret (Converter.toFirestore dat').
End Save.

Section Persist.
Variable rt : Runtime.
Variable depth : nat.
Variable rec : value -> SaveParams -> io bool.

(** [session.update] or [session.set] on the stored document, or
    [session.set] on a new reference that becomes [fireRef]. *)
Definition write_document (this : value) (params : SaveParams) (sess : session)
    (exists_ : bool) (fireData : props) : io unit :=
  e ← Instance.read this;
  if exists_ then
    match getRef e with
    | Some ref =>
        Firesnap.stage sess (if Validator.is_false (p_overwrite params)
                             then WUpdate ref fireData else WSet ref fireData)
    | None => IO.throw (Beyond "a stored entity that lost its reference")
    end
  else
    let path := match p_parentRef params with
                | Some parent =>
                    parent +:+ "/" +:+ (match p_fieldName params with
                                        | Some f => f
                                        | None => "null"
                                        end)
                | None => class_path rt (e_ctor e)
                end in
    id ← (match e_docId e with
          | Some d => if String.eqb d "" then IO.auto_id else mret d
          | None => IO.auto_id
          end);
    let docRef := path +:+ "/" +:+ id in
    Firesnap.stage sess (WSet docRef fireData);;
    Instance.modify this (Instance.with_fireRef (Some docRef)).

(** The [for ... in] over [collection.deleted]: the keys are those of the
    start; a key that [splice] has removed since is skipped. *)
Fixpoint sweep (recParams : SaveParams) (keys : list nat) (deleted : list value)
    : io (list value) :=
  match keys with
  | [] => mret deleted
  | i :: tl =>
      match deleted !! i with
      | None => sweep recParams tl deleted
      | Some v =>
          h ← IO.get_heap;
          ref ← IO.lift (Collection.has_ref h v);
          if ref : bool
          then _ ← delete rt depth v recParams; sweep recParams tl deleted
          else sweep recParams tl (remove_nth i deleted)
      end
  end.

(** [for (const model of collection)]: the changed members are saved
    under the parent's reference. *)
Definition save_member (this : value) (recParams : SaveParams) (field : string)
    (items : props) (i : nat) : io unit :=
  let model := Props.get items (string_of_N (N.of_nat i)) in
  match model with
  | VModel _ _ =>
      m ← Instance.read model;
      if is_nil (e_changes m) then mret tt
      else
        e ← Instance.read this;
        _ ← rec model (member_params recParams (getRef e) field);
        mret tt
  | _ => IO.throw (TypeError "Cannot convert undefined or null to object")
  end.

(** One field of [Object.keys(this).forEach(...)]. *)
Definition save_collection (this : value) (recParams : SaveParams) (field : string)
    : io unit :=
  e ← Instance.read this;
  match Props.get (e_props e) field with
  | VColl m p items len deleted =>
      deleted' ← sweep recParams (seq 0 (List.length deleted)) deleted;
      Instance.modify this
        (fun e' => Instance.with_props
                     (Props.set field (VColl m p items len deleted') (e_props e')) e');;
      IO.for_each (save_member this recParams field items) (seq 0 (N.to_nat len))
  | _ => mret tt
  end.

(** [this[primaryKeyName] = this.getId()] with tracking off; the field of
    the primary key has no schema rule and no class default. *)
Definition populate_primary_key (this : value) : io unit :=
  Instance.modify this
    (fun e => Instance.with_props
                (Props.set (primaryKeyName rt)
                   (match getId e with Some i => VStr i | None => VNull end)
                   (e_props e)) e).

(** [this.save(options)], [params] being the options merged into the
    defaults, in three steps. First, up to [fireData]: the [beforeSave]
    hook, the session, the data. [None]: the hook returned [false]. *)
Definition prepare (this : value) (params : SaveParams)
    : io (option (session * props * bool)) :=
  e ← Instance.read this;
  let exists_ := bool_decide (is_Some (getRef e)) in
  go ← (if callbacks_is (p_callbacks params) "afterSave"
        then r ← Instance.call_hook rt "beforeSave" this [];
             mret (negb (Validator.is_false r))
        else mret true);
  if negb go then mret None
  else
    sess ← session_of params;
    fireData ← outgoing rt depth rec this params sess;
    mret (Some (sess, fireData, exists_)).

(** Then, with data to write: the document, the sub-collections, the
    [afterSave] callback, the commit of an internal session. *)
Definition persist (this : value) (params : SaveParams) (sess : session)
    (exists_ : bool) (fireData : props) : io bool :=
  write_document this params sess exists_ fireData;;
  e1 ← Instance.read this;
  IO.for_each (save_collection this (recParams_of params sess))
    (Props.keys (e_props e1));;
  (if callbacks_is (p_callbacks params) "afterSave"
   then Storage.storeCallback (sessId sess) this "afterSave" [VBool (negb exists_)]
   else mret tt);;
  (if negb (p_recurring params) && internal sess
   then Firesnap.commit rt sess;; Instance.modify this Instance.resetChanges
   else Storage.storeCallback (sessId sess) this "resetChanges" []);;
  (if negb exists_ && populatePrimaryKey rt then populate_primary_key this
   else mret tt);;
  mret true.

Definition save_body (this : value) (params : SaveParams) : io bool :=
  r ← prepare this params;
  match r with
  | None => mret false
  | Some (sess, fireData, exists_) =>
      if is_nil fireData then mret false
      else persist this params sess exists_ fireData
  end.
End Persist.

(** [save] with the nesting of entities bounded by [fuel]. *)
Fixpoint save (rt : Runtime) (depth fuel : nat) (this : value) (params : SaveParams)
    : io bool :=
  match fuel with
  | O => IO.out_of_fuel
  | S fuel' => save_body rt depth (save rt depth fuel') this params
  end.

End Model.


(** ** Notions for the statements about runs *)

Module RunSpec.

(** The writes staged in a trace, each with its session. *)
Definition writes (tr : list event) : list (string * write) :=
  omap (fun ev => match ev with
                  | Staged sid w => Some (sid, w)
                  | _ => None
                  end) tr.

Definition is_call (ev : event) : bool :=
  match ev with Called _ _ _ => true | _ => false end.

(** The calls of the hook [method] in a trace. *)
Definition calls_of (method : string) (tr : list event) : list (value * list value) :=
  omap (fun ev => match ev with
                  | Called this m args =>
                      if String.eqb m method then Some (this, args) else None
                  | _ => None
                  end) tr.

(** A queued callback that is not a lifecycle hook. *)
Definition passive (cb : callback) : Prop :=
  cb_method cb ∉ Instance.lifecycle_hooks.

Definition no_hook_queued (cbs : list (string * list callback)) : Prop :=
  forall sid, Forall passive (Storage.queue_of sid cbs).

(** A run keeps [Q] of the callback queue and appends to the trace only
    events that satisfy [ok], whether it returns or throws. *)
Definition run_inv (Q : list (string * list callback) -> Prop) (ok : event -> Prop)
    {A} (m : io A) : Prop :=
  forall w, Q (w_callbacks w) ->
    Q (w_callbacks (m w).2)
    /\ exists evs, w_trace (m w).2 = w_trace w ++ evs /\ Forall ok evs.

(** A value that [Converter.toFirestore] does not leave out. *)
Definition kept (v : value) : bool :=
  match v with VColl _ _ _ _ _ => false | _ => true end.


(** An event that is not a write. *)
Definition unstaged (ev : event) : Prop :=
  match ev with Staged _ _ => False | _ => True end.

(** The hook calls that running a queue makes, in order. *)
Definition queue_events (q : list callback) : list event :=
  omap (fun cb => if bool_decide (cb_method cb ∈ Instance.lifecycle_hooks)
                  then Some (Called (cb_model cb) (cb_method cb) (cb_args cb))
                  else None) q.

(** The world after a refused commit of the session [sid]. *)
Definition rejected (sid : string) (w : world) : world :=
  {| w_heap := w_heap w; w_callbacks := Props.remove sid (w_callbacks w);
     w_next := w_next w; w_trace := w_trace w ++ [Rejected sid] |}.

(** An entity instance of the heap whose store reference is [ref]. *)
Definition stored_at (h : heap) (v : value) (ref : string) : Prop :=
  exists c a e, v = VModel c a /\ h !! a = Some e /\ getRef e = Some ref.

(** The first event that a run appends. *)
Definition opens_with (ev : event) {A} (m : io A) (w : world) : Prop :=
  exists evs, w_trace (m w).2 = w_trace w ++ ev :: evs.





End RunSpec.


Module SampleRun.
Import Schema.

Definition post_schema : schema := [("title", Sample.string_rule)].

Definition env : Env :=
  {| getSchema := fun c => if decide (c = Sample.Post) then post_schema else [];
     getModelSchema := fun _ => None;
     email_re := fun _ => false;
     url_re := fun _ => false;
     render := fun _ => "";
     loose_ge := fun _ _ => false;
     unique_taken := fun _ _ _ _ => false |}.

(** An application whose [beforeSave] returns [veto] negated and whose
    other hooks do nothing, over a store that holds no sub-collection and
    refuses a commit when [refuse] is set. *)
Definition runtime (veto refuse : bool) : Runtime :=
  {| rt_env := env;
     class_path := fun c => if decide (c = Sample.Post) then "posts" else "comments";
     hook := fun method this args h =>
               if String.eqb method "beforeSave" then inr (VBool (negb veto), h)
               else inr (VUndefined, h);
     listCollections := fun _ => [];
     collection_docs := fun _ => [];
     store_commit := fun _ => if refuse then Some (Error "store unavailable") else None;
     populatePrimaryKey := true;
     primaryKeyName := "id" |}.

Definition new_post : entity :=
  Entity Sample.Post [("title", VStr "a")] [("title", VStr "a")] None None None VNull true.

Definition post : value := VModel Sample.Post 1.

(** A stored post without a change. *)
Definition idle_post : entity :=
  Entity Sample.Post [("title", VStr "b")] [] (Some "posts/p2") None None VNull true.

Definition stored_post : value := VModel Sample.Post 2.

Definition start_heap : heap := {[ 1 := new_post; 2 := idle_post ]}.

Definition start : world :=
  {| w_heap := start_heap; w_callbacks := []; w_next := 0; w_trace := [] |}.


(** [post.save({ session })] inside [Firesnap.transaction], and inside a
    batch of the application that is committed afterwards. *)
Definition in_transaction (rt : Runtime) : io unit :=
  Firesnap.transaction rt
    (fun txn => _ ← Model.save rt 1 2 post (Model.with_session txn Model.default_params);
                mret tt).

Definition in_batch (rt : Runtime) : io unit :=
  b ← Firesnap.batch false;
  _ ← Model.save rt 1 2 post (Model.with_session b Model.default_params);
  Firesnap.commit rt b.

Definition post_write : event :=
  Staged "auto-0" (WSet "posts/auto-1" [("title", VStr "a")]).

(** A stored post with a changed title and a sub-collection of comments.
    Two comments were removed from it: the first before the last save,
    whose commit deleted it and reset the instance; the second since. *)
Definition gone_comment : value := VModel Sample.Comment 11.
Definition removed_comment : value := VModel Sample.Comment 12.
Definition thread : value := VModel Sample.Post 10.

Definition comments_of (pending : list value) : value :=
  VColl Sample.Comment "posts/p1/comments" [] 0 pending.

Definition thread_heap (pending : list value) : heap :=
  {[ 10 := Entity Sample.Post [("title", VStr "t"); ("comments", comments_of pending)]
             [("title", VStr "t")] (Some "posts/p1") None None VNull true;
     11 := Instance.resetProperties
             (Entity Sample.Comment [("text", VStr "x")] []
                (Some "posts/p1/comments/c1") None None VNull true);
     12 := Entity Sample.Comment [("text", VStr "y")] []
             (Some "posts/p1/comments/c2") None None VNull true ]}.

Definition thread_world (pending : list value) : world :=
  {| w_heap := thread_heap pending; w_callbacks := []; w_next := 0; w_trace := [] |}.

(** The pending list of the post after a run. *)
Definition pending_after (w : world) : list value :=
  match w_heap w !! 10 with
  | Some e => match Props.get (e_props e) "comments" with
              | VColl _ _ _ _ deleted => deleted
              | _ => []
              end
  | None => []
  end.




(** [post.save()] with the given pending list. *)
Definition thread_save (pending : list value) : outcome bool * world :=
  Model.save (runtime false false) 1 2 thread Model.default_params
    (thread_world pending).

Definition inner_session : session :=
  {| sessId := "auto-0"; internal := true; kind := WriteBatch |}.

Definition title_update : string * write :=
  ("auto-0", WUpdate "posts/p1" [("title", VStr "t")]).
Definition comment_delete : string * write :=
  ("auto-0", WDelete "posts/p1/comments/c2").

End SampleRun.


(** ** Notions for the statements about [Converter.toFirestore],
    [flattenObject] and the built-in rules *)

Module DocumentSpec.

(** A path that the store takes for a document: an even number of
    segments, none of them empty. *)
Definition document_path (p : string) : bool :=
  Nat.even (List.length (split "/" p))
  && forallb (fun seg => negb (String.eqb seg "")) (split "/" p).

End DocumentSpec.

Module ConverterSpec.

(** The names that [toFirestore] switches on. *)
Definition switch_names : list string := ["Collection"; "Document"; "Array"; "Object"].

(** [toFirestore] finds the kind of [v], and of the values it converts
    inside [v], by the name of the class, and the store takes its paths: no
    object carries an own property named [constructor] (which hides the
    class) or [__proto__] (which an assignment does not create), no class
    of the application bears one of the four names of the [switch], no
    entity class is marked as a sub-model, and every [Document] refers to a
    path that the store takes for a document. *)
Fixpoint regular (v : value) : bool :=
  match v with
  | VObj k ps =>
      negb (Props.has "constructor" ps) && negb (Props.has "__proto__" ps)
      && match k with
         | KInstance c => negb (bool_decide (ctor_name c ∈ switch_names))
         | _ => true
         end
      && forallb (fun kv => regular (snd kv)) ps
  | VModel c _ =>
      negb (bool_decide (ctor_name c ∈ switch_names)) && negb (isSubModelInstance v)
  | VColl _ _ items _ _ => negb (Props.has "constructor" items)
  | VDocument _ path id => DocumentSpec.document_path (path +:+ "/" +:+ id)
  | _ => true
  end.

(** A value that holds no [Collection] and no [Document], however deep in
    arrays and plain objects. *)
Fixpoint storable (v : value) : bool :=
  match v with
  | VColl _ _ _ _ _ | VDocument _ _ _ => false
  | VObj KObject ps | VObj KArray ps => forallb (fun kv => storable (snd kv)) ps
  | _ => true
  end.

End ConverterSpec.

Module FlattenSpec.

(** The test of [flattenObject] on a property value: its [constructor] is
    [Object], or [Array] unless [excludeArray]; a plain object or an array
    with an own property named [constructor] does not pass. *)
Definition walked (excludeArray : bool) (v : value) : bool :=
  match v with
  | VObj k ps =>
      negb (Props.has "constructor" ps)
      && match k with
         | KObject => true
         | KArray => negb excludeArray
         | KInstance _ => false
         end
  | _ => false
  end.

(** [v] is [null] or [undefined], or [flattenObject] walks into [v] and
    reaches such a property. *)
Fixpoint nullish (excludeArray : bool) (v : value) : bool :=
  match v with
  | VUndefined | VNull => true
  | VObj k ps =>
      negb (Props.has "constructor" ps)
      && match k with
         | KObject => true
         | KArray => negb excludeArray
         | KInstance _ => false
         end
      && existsb (fun kv => nullish excludeArray (snd kv)) ps
  | _ => false
  end.

End FlattenSpec.

Module ValidatorSpec.
Import Schema.


End ValidatorSpec.

Module DeleteSpec.

(** The store nests sub-collections below the sub-collection at [path]
    less than [fuel] levels deep, and each of them is a sub-collection. *)
Fixpoint shallow (rt : Runtime) (fuel : nat) (path : string) : bool :=
  match fuel with
  | O => false
  | S fuel' =>
      negb (Model.no_inner_slash path)
      && forallb (fun doc => forallb (shallow rt fuel') (listCollections rt doc))
           (collection_docs rt path)
  end.

(** The documents below those of the collection at [path]: the documents
    of the sub-collections of its documents, and the documents below
    these. *)
Fixpoint below (rt : Runtime) (fuel : nat) (path : string) : list string :=
  match fuel with
  | O => []
  | S fuel' =>
      flat_map (fun doc =>
                  flat_map (fun col => collection_docs rt col ++ below rt fuel' col)
                    (listCollections rt doc))
        (collection_docs rt path)
  end.

End DeleteSpec.

Module SchemaSpec.
Import Schema.

(** An entry that [Schema.flatten] does not walk into: a string, or a
    rule with a supported type and no [of]. *)
Definition terminal (r : rules) : bool :=
  match r with
  | RulesText _ => true
  | Rules b o => is_type (r_type b) && of_falsy o
  end.

End SchemaSpec.

(** ** Further sample data *)

Module SampleMore.
Import Schema.

(** A store that holds two comments under a post, the first with a
    reply; every hook returns [undefined]. *)
Definition forum : Runtime :=
  {| rt_env := SampleRun.env;
     class_path := fun c => if decide (c = Sample.Post) then "posts" else "comments";
     hook := fun _ _ _ h => inr (VUndefined, h);
     listCollections := fun doc =>
       if String.eqb doc "posts/p1/comments/c1" then ["posts/p1/comments/c1/replies"]
       else [];
     collection_docs := fun col =>
       if String.eqb col "posts/p1/comments"
       then ["posts/p1/comments/c1"; "posts/p1/comments/c2"]
       else if String.eqb col "posts/p1/comments/c1/replies"
       then ["posts/p1/comments/c1/replies/r1"]
       else [];
     store_commit := fun _ => None;
     populatePrimaryKey := true;
     primaryKeyName := "id" |}.

(** A new post whose title is a number. *)
Definition draft : value := VModel Sample.Post 1.

Definition draft_world : world :=
  {| w_heap := {[ 1 := Entity Sample.Post [("title", VNum 5)] [("title", VNum 5)]
                         None None None VNull true ]};
     w_callbacks := []; w_next := 0; w_trace := [] |}.

Definition title_mismatch : ValidationResult :=
  {| valid := false; data := [];
     errors := [("title", VStr "Invalid type 'Number'. Expecting type 'String'")] |}.






Definition member : entity :=
  Entity Sample.Topic [("email", VStr "a@b.c")] [("email", VStr "a@b.c")]
    None None None VNull true.





(** [SampleCollection.posts] after [delete posts[0]]. *)
Definition posts_emptied : Collection.t :=
  {| Collection.model := Sample.Post; Collection.path := "posts";
     Collection.items := []; Collection.length := 0;
     Collection.deleted := [VModel Sample.Post 1] |}.



Definition profile_flat : props :=
  [("name", VStr "Ann"); ("address.zipcode", VStr "10000");
   ("address.location.lat", VNum 1); ("address.location.lon", VNum 0);
   ("tags", arr [VStr "a"; VStr "b"])].

End SampleMore.


(** * Part II: properties *)

(** ** Strings *)

Module JsStringFacts.

Local Arguments Ascii.eqb : simpl never.

Lemma chars_unchars l : chars (unchars l) = l.
Proof. apply String.list_ascii_of_string_of_list_ascii. Qed.

Lemma unchars_chars s : unchars (chars s) = s.
Proof. apply String.string_of_list_ascii_of_string. Qed.

Lemma chars_app a b : chars (a +:+ b) = chars a ++ chars b.
Proof.
  unfold chars. induction a as [|c a IH]; simpl; [reflexivity|].
  by rewrite IH.
Qed.

Lemma chars_inj a b : chars a = chars b -> a = b.
Proof. intros H. rewrite <- (unchars_chars a), <- (unchars_chars b). by rewrite H. Qed.

Lemma split_go_dot_piece (l : list ascii) : forall rest cur,
    forallb (fun c => negb (Ascii.eqb "." c)) l = true ->
    split_go ["."%char] (l ++ rest) 0 cur = split_go ["."%char] rest 0 (rev l ++ cur).
Proof.
  induction l as [|c l IH]; intros rest cur Hl; simpl in *; [done|].
  apply andb_prop in Hl as [Hc Hl].
  destruct (Ascii.eqb "." c) eqn:E; [done|]. simpl.
  rewrite IH by done. f_equal. by rewrite <- app_assoc.
Qed.

Lemma no_dot_forallb k :
  no_dot k = true -> forallb (fun c => negb (Ascii.eqb "." c)) (chars k) = true.
Proof.
  unfold no_dot. induction (chars k) as [|c l IH]; simpl; [done|].
  destruct (Ascii.eqb "." c); simpl; [done|]. apply IH.
Qed.

Lemma split_go_dot (l cur : list ascii) :
  split_go ["."%char] ("."%char :: l) 0 cur
  = unchars (rev cur) :: split_go ["."%char] l 0 [].
Proof. reflexivity. Qed.

Lemma join_cons sep k k' ks :
  join sep (k :: k' :: ks) = k +:+ sep +:+ join sep (k' :: ks).
Proof. reflexivity. Qed.

Lemma split_go_join (ks : list string) : forall k cur,
    Forall (fun x => no_dot x = true) (k :: ks) ->
    split_go ["."%char] (chars (join "." (k :: ks))) 0 cur
    = unchars (rev (rev (chars k) ++ cur)) :: ks.
Proof.
  induction ks as [|k' ks IH]; intros k cur Hks.
  - cbn [join]. replace (chars k) with (chars k ++ []) at 1 by apply app_nil_r.
    rewrite split_go_dot_piece by (apply no_dot_forallb; by inversion Hks).
    reflexivity.
  - rewrite join_cons, !chars_app.
    rewrite split_go_dot_piece by (apply no_dot_forallb; by inversion Hks).
    change (chars ".") with ["."%char]. cbn [app].
    rewrite split_go_dot. f_equal.
    rewrite IH by (by inversion Hks).
    cbn [rev app]. by rewrite app_nil_r, rev_involutive, unchars_chars.
Qed.

(** [join] then [split] gives the pieces back. *)
Lemma split_join (ks : list string) :
  ks <> [] -> Forall (fun x => no_dot x = true) ks -> split "." (join "." ks) = ks.
Proof.
  intros Hne Hks. destruct ks as [|k ks]; [done|].
  change (split "." (join "." (k :: ks)))
    with (split_go ["."%char] (chars (join "." (k :: ks))) 0 []).
  rewrite split_go_join by done.
  by rewrite app_nil_r, rev_involutive, unchars_chars.
Qed.

(** *** Integer keys are numeric strings *)

Lemma digit_not_space c : is_digit c = true -> is_space c = false.
Proof. by destruct c as [[] [] [] [] [] [] [] []]; vm_compute. Qed.

Lemma digit_not_sign c : is_digit c = true -> ascii_in c "+-" = false.
Proof. by destruct c as [[] [] [] [] [] [] [] []]; vm_compute. Qed.

Lemma forallb_rev {A} (p : A -> bool) l : forallb p (rev l) = forallb p l.
Proof.
  induction l as [|x l IH]; [done|]. simpl.
  rewrite forallb_app, IH. simpl. by rewrite andb_true_r, andb_comm.
Qed.

Lemma drop_spaces_digits l :
  forallb is_digit l = true -> drop_while is_space l = l.
Proof.
  destruct l as [|c l]; [done|]. simpl. intros H.
  apply andb_prop in H as [Hc _]. by rewrite digit_not_space.
Qed.

Lemma take_while_all p l : forallb p l = true -> take_while p l = l.
Proof.
  induction l as [|c l IH]; [done|]. simpl. intros H.
  apply andb_prop in H as [-> H]. by rewrite IH.
Qed.

Lemma drop_while_all p l : forallb p l = true -> drop_while p l = [].
Proof.
  induction l as [|c l IH]; [done|]. simpl. intros H.
  apply andb_prop in H as [-> H]. by apply IH.
Qed.

Lemma array_index_digits s n :
  array_index s = Some n -> chars s <> [] /\ forallb is_digit (chars s) = true.
Proof.
  unfold array_index. destruct (chars s) as [|c tl]; [done|].
  destruct (forallb is_digit (c :: tl)) eqn:E; [|done]. done.
Qed.

Lemma digits_numeric s :
  chars s <> [] -> forallb is_digit (chars s) = true -> isNaN_Number s = false.
Proof.
  intros Hne Hd. unfold isNaN_Number, trim.
  rewrite (drop_spaces_digits _ Hd).
  rewrite drop_spaces_digits by (by rewrite forallb_rev).
  rewrite rev_involutive.
  destruct (chars s) as [|c l] eqn:E; [done|].
  assert (Hs : strip_sign (c :: l) = c :: l).
  { simpl in Hd. apply andb_prop in Hd as [Hc _]. unfold strip_sign.
    by rewrite digit_not_sign. }
  rewrite Hs. unfold unsigned_decimal.
  destruct (decide (unchars (c :: l) = "Infinity")); [by rewrite orb_true_r|].
  rewrite take_while_all, drop_while_all by done.
  cbn [length Nat.eqb negb]. by rewrite orb_true_r.
Qed.

Lemma array_index_numeric s n : array_index s = Some n -> isNaN_Number s = false.
Proof. intros H. apply array_index_digits in H as [? ?]. by apply digits_numeric. Qed.

Lemma join_head_chars sep k rest :
  exists t, chars (join sep (k :: rest)) = chars k ++ t.
Proof.
  destruct rest as [|k' rest].
  - exists []. cbn [join]. by rewrite app_nil_r.
  - eexists. rewrite join_cons, chars_app. reflexivity.
Qed.

(** A joined path that starts with a non-numeric key is not an integer key. *)
Lemma join_not_index sep k rest :
  isNaN_Number k = true -> array_index (join sep (k :: rest)) = None.
Proof.
  intros Hk. destruct (array_index (join sep (k :: rest))) as [n|] eqn:E; [|done].
  apply array_index_digits in E as [_ Hd].
  destruct (join_head_chars sep k rest) as [t Ht]. rewrite Ht in Hd.
  rewrite forallb_app in Hd. apply andb_prop in Hd as [Hd _].
  destruct (chars k) as [|c l] eqn:Ek.
  - assert (k = "") as -> by (apply chars_inj; by rewrite Ek). done.
  - rewrite digits_numeric in Hk; [done| |]; by rewrite Ek.
Qed.

End JsStringFacts.

(** ** Property lists *)

Module PropsFacts.
Import Props.

Section Assoc.
Context {A : Type}.
Implicit Types (ps : list (string * A)) (k : string) (v : A).

Lemma lookup_None k ps : lookup k ps = None <-> k ∉ keys ps.
Proof.
  induction ps as [|[k' w] tl IH]; simpl.
  - split; [intros _; apply not_elem_of_nil | done].
  - destruct (String.eqb_spec k k') as [->|Hne].
    + split; [done|]. intros H. exfalso. apply H. left.
    + rewrite IH. unfold keys. simpl. rewrite not_elem_of_cons. tauto.
Qed.

Lemma lookup_Some_elem k v ps : lookup k ps = Some v -> (k, v) ∈ ps.
Proof.
  induction ps as [|[k' w] tl IH]; simpl; [done|].
  destruct (String.eqb_spec k k') as [->|Hne].
  - intros [= ->]. left.
  - intros H. right. by apply IH.
Qed.


Lemma has_false k ps : has k ps = false <-> k ∉ keys ps.
Proof.
  unfold has. rewrite <- lookup_None. destruct (lookup k ps); naive_solver.
Qed.

Lemma has_true k ps : has k ps = true <-> k ∈ keys ps.
Proof.
  destruct (has k ps) eqn:E.
  - split; [|done]. intros _. destruct (decide (k ∈ keys ps)) as [|Hn]; [done|].
    apply has_false in Hn. congruence.
  - apply has_false in E. split; [done|]. intros. done.
Qed.

Lemma lookup_app k ps qs :
  lookup k (ps ++ qs) = match lookup k ps with
                        | Some v => Some v
                        | None => lookup k qs
                        end.
Proof.
  induction ps as [|[k' w] tl IH]; simpl; [done|].
  by destruct (String.eqb k k').
Qed.

Lemma lookup_app_fresh k ps v :
  k ∉ keys ps -> lookup k (ps ++ [(k, v)]) = Some v.
Proof.
  intros H. rewrite lookup_app. apply lookup_None in H. rewrite H.
  simpl. by rewrite String.eqb_refl.
Qed.

Lemma set_fresh k v ps :
  k ∉ keys ps -> array_index k = None -> set k v ps = ps ++ [(k, v)].
Proof.
  intros H Hi. unfold set. apply has_false in H. by rewrite H, Hi.
Qed.

Lemma replace_app_fresh k v w ps :
  k ∉ keys ps -> replace k w (ps ++ [(k, v)]) = ps ++ [(k, w)].
Proof.
  induction ps as [|[k' u] tl IH]; simpl; intros H.
  - by rewrite String.eqb_refl.
  - unfold keys in H. simpl in H. apply not_elem_of_cons in H as [Hne H].
    destruct (String.eqb_spec k k'); [done|]. by rewrite IH.
Qed.

(** [Object.assign] appends entries with fresh non-integer keys. *)
Lemma assign_fresh qs : forall ps,
    NoDup (keys (ps ++ qs)) ->
    Forall (fun kv => array_index (fst kv) = None) qs ->
    assign ps qs = ps ++ qs.
Proof.
  unfold assign.
  induction qs as [|[k v] qs IH]; intros ps Hnd Hidx; simpl.
  - by rewrite app_nil_r.
  - inversion Hidx as [|? ? Hk Hidx']; subst. simpl in Hk.
    rewrite set_fresh; [| |done].
    + rewrite IH; [by rewrite <- app_assoc| |done].
      by rewrite <- app_assoc.
    + unfold keys in *. rewrite map_app in Hnd. simpl in Hnd.
      apply NoDup_app in Hnd as (_ & Hd & _).
      intros Hin. apply (Hd k Hin). left.
Qed.

(** A key added or overwritten by [set] is then present. *)
Lemma keys_replace k v ps : keys (replace k v ps) = keys ps.
Proof.
  induction ps as [|[k' w] tl IH]; simpl; [done|].
  destruct (String.eqb_spec k k') as [->|]; simpl; [done|]. by rewrite IH.
Qed.

Lemma lookup_replace k k' v ps :
  lookup k' (replace k v ps)
  = if String.eqb k' k then (if has k ps then Some v else None) else lookup k' ps.
Proof.
  unfold has. induction ps as [|[k0 w] tl IH]; simpl.
  - by destruct (String.eqb k' k).
  - destruct (String.eqb_spec k k0) as [->|Hne]; simpl.
    + by destruct (String.eqb_spec k' k0).
    + destruct (String.eqb_spec k' k0) as [->|Hne'].
      * destruct (String.eqb_spec k0 k); [congruence|done].
      * apply IH.
Qed.

Lemma lookup_insert_index n k k' v ps :
  k ∉ keys ps ->
  lookup k' (insert_index n k v ps)
  = if String.eqb k' k then Some v else lookup k' ps.
Proof.
  induction ps as [|[k0 w] tl IH]; simpl; intros Hk.
  - by destruct (String.eqb k' k).
  - unfold keys in Hk. simpl in Hk. apply not_elem_of_cons in Hk as [Hne Hk].
    destruct (array_index k0) as [m|]; [destruct (m <? n)%N|]; simpl.
    + destruct (String.eqb_spec k' k0) as [->|].
      * destruct (String.eqb_spec k0 k); [congruence|done].
      * by apply IH.
    + by destruct (String.eqb k' k).
    + by destruct (String.eqb k' k).
Qed.

(** Reading after [obj[k] = v]. *)
Lemma lookup_set k k' v ps :
  lookup k' (set k v ps) = if String.eqb k' k then Some v else lookup k' ps.
Proof.
  unfold set. destruct (has k ps) eqn:Hh.
  - rewrite lookup_replace, Hh. done.
  - apply has_false in Hh. destruct (array_index k).
    + by apply lookup_insert_index.
    + rewrite lookup_app. simpl.
      destruct (String.eqb_spec k' k) as [->|].
      * apply lookup_None in Hh. by rewrite Hh.
      * by destruct (lookup k' ps).
Qed.

Lemma lookup_remove k k' ps :
  lookup k' (remove k ps) = if String.eqb k' k then None else lookup k' ps.
Proof.
  unfold remove. induction ps as [|[k0 w] tl IH]; cbn [lookup].
  - rewrite filter_nil. by destruct (String.eqb k' k).
  - rewrite filter_cons. cbn [fst]. destruct (String.eqb_spec k k0) as [->|Hne]; cbn.
    + rewrite decide_False by (by intros []). rewrite IH.
      by destruct (String.eqb_spec k' k0).
    + rewrite decide_True by done. cbn [lookup]. rewrite IH.
      destruct (String.eqb_spec k' k0) as [->|]; [|done].
      destruct (String.eqb_spec k0 k); [congruence|done].
Qed.

Lemma has_set k k' v ps :
  has k' (set k v ps) = String.eqb k' k || has k' ps.
Proof.
  unfold has. rewrite lookup_set. by destruct (String.eqb k' k).
Qed.
End Assoc.
(** What holds of every value, or of every key, of a property list still
    holds after [set] and [Object.assign]. *)
Section Values.
Context {A : Type}.
Variable P : A -> Prop.
Local Abbreviation all l := (Forall (fun kv : string * A => P (snd kv)) l).

Lemma all_replace k v ps : P v -> all ps -> all (replace k v ps).
Proof.
  intros Hv. induction ps as [|[k' w] tl IH]; cbn [replace]; [done|].
  intros H. apply Forall_cons in H as [Hw H].
  destruct (String.eqb k k'); apply Forall_cons; auto.
Qed.

Lemma all_insert_index n k v ps : P v -> all ps -> all (insert_index n k v ps).
Proof.
  intros Hv. induction ps as [|[k' w] tl IH]; cbn [insert_index].
  - intros _. by apply Forall_singleton.
  - intros H. pose proof H as H'. apply Forall_cons in H as [Hw H].
    destruct (array_index k') as [m|]; [destruct (m <? n)%N|];
      apply Forall_cons; auto.
Qed.

Lemma all_set k v ps : P v -> all ps -> all (set k v ps).
Proof.
  intros Hv H. unfold set. destruct (has k ps); [by apply all_replace|].
  destruct (array_index k); [by apply all_insert_index|].
  apply Forall_app. split; [done|]. by apply Forall_singleton.
Qed.

Lemma all_assign src : forall target, all target -> all src -> all (assign target src).
Proof.
  unfold assign. induction src as [|[k v] tl IH]; intros target Ht Hs; [done|].
  apply Forall_cons in Hs as [Hv Hs]. cbn [fold_left]. apply IH; [|done].
  by apply all_set.
Qed.
End Values.

Section Keys.
Context {A : Type}.
Variable Q : string -> Prop.
Local Abbreviation allk l := (Forall (fun kv : string * A => Q (fst kv)) l).




End Keys.

End PropsFacts.

(** ** utils.ts: [flattenObject] and [expandObject] *)

Module RoundTrip.
Import Props Shape JsStringFacts PropsFacts.

Lemma leaves_of_cons k w tl :
  leaves_of ((k, w) :: tl) = map (under k) (leaves w) ++ leaves_of tl.
Proof. reflexivity. Qed.

Lemma flat_entry_under path k e :
  flat_entry path (under k e) = flat_entry (path ++ [k]) e.
Proof. unfold flat_entry, under. simpl. by rewrite <- app_assoc. Qed.

Local Abbreviation flat_ok path L :=
  (NoDup (keys (map (flat_entry path) L))
   /\ Forall (fun kv : string * value => array_index (fst kv) = None)
        (map (flat_entry path) L)).

Lemma plain_key_own k : plain_key k = true -> inherited k = false.
Proof. unfold plain_key. intros [_ H]%andb_prop. by apply negb_true_iff in H. Qed.

(** A plain nested object has no own property named [constructor]. *)
Lemma plain_no_constructor ps :
  plain_keys (VObj KObject ps) = true -> has "constructor" ps = false.
Proof.
  cbn [plain_keys]. intros [_ Hall]%andb_prop.
  destruct (has "constructor" ps) eqn:Hh; [|done].
  apply has_true, list_elem_of_fmap in Hh as ([k w] & Hk & Hin). cbn in Hk. subst k.
  rewrite forallb_forall in Hall. apply list_elem_of_In in Hin.
  specialize (Hall _ Hin). cbn in Hall. by apply andb_prop in Hall as [?%plain_key_own _].
Qed.

Local Abbreviation FlattenSpec v :=
  (plain_keys v = true -> solid v = true -> forall path,
      flat_ok path (leaves v) ->
      flattenEntry true "." path v = Ok (map (flat_entry path) (leaves v))).

Lemma flatten_loop_leaves path ps :
  Forall (fun kv => FlattenSpec (snd kv)) ps ->
  Forall (fun kv => plain_keys (snd kv) = true) ps ->
  forallb (fun kv => solid (snd kv)) ps = true ->
  forall memo,
    NoDup (keys (memo ++ map (flat_entry path) (leaves_of ps))) ->
    Forall (fun kv : string * value => array_index (fst kv) = None)
      (map (flat_entry path) (leaves_of ps)) ->
    flatten_loop (fun prop w => flattenEntry true "." (path ++ [prop]) w) ps memo
    = Ok (memo ++ map (flat_entry path) (leaves_of ps)).
Proof.
  induction ps as [|[k w] tl IH]; intros HP Hpl Hs memo Hnd Hidx.
  - simpl. by rewrite app_nil_r.
  - inversion HP as [|? ? Hw HP']; inversion Hpl as [|? ? Hpw Hpl']; subst.
    simpl in Hw, Hpw, Hs.
    apply andb_prop in Hs as [Hsw Hs].
    rewrite leaves_of_cons, map_app in Hnd, Hidx |- *.
    rewrite map_map in Hnd, Hidx |- *.
    rewrite (map_ext _ _ (flat_entry_under path k)) in Hnd, Hidx |- *.
    apply Forall_app in Hidx as [Hidx1 Hidx2].
    cbn [flatten_loop].
    rewrite (Hw Hpw Hsw (path ++ [k])).
    + cbn [mbind outcome_bind].
      rewrite assign_fresh; [| |done].
      * rewrite IH; [by rewrite <- app_assoc|done|done|done| |done].
        by rewrite <- app_assoc.
      * rewrite app_assoc in Hnd. unfold keys in *. rewrite map_app in Hnd.
        by apply NoDup_app in Hnd as (? & _ & _).
    + split; [|done].
      unfold keys in *. rewrite !map_app in Hnd.
      apply NoDup_app in Hnd as (_ & _ & Hnd).
      by apply NoDup_app in Hnd as (? & _ & _).
Qed.

Lemma flattenEntry_leaves v : FlattenSpec v.
Proof.
  induction v as [| | | | |k ps IH| | | |] using value_nested_ind;
    intros Hp Hs path [Hnd Hidx]; try discriminate Hs;
    try (cbn; unfold flat_entry; cbn; by rewrite app_nil_r).
  destruct k;
    try (cbn [flattenEntry leaves map]; rewrite andb_false_r;
         unfold flat_entry; cbn; by rewrite app_nil_r).
  cbn [flattenEntry]. rewrite (plain_no_constructor ps Hp). cbn [negb andb].
  cbn in Hs. apply andb_prop in Hs as [_ Hs].
  cbn [plain_keys] in Hp. apply andb_prop in Hp as [_ Hp].
  rewrite (flatten_loop_leaves path ps IH); [done| |done|done|done].
  apply Forall_forall. intros kv Hin. rewrite forallb_forall in Hp.
  apply list_elem_of_In in Hin. specialize (Hp _ Hin). by apply andb_prop in Hp as [_ ?].
Qed.

(** On a nested object without [null] or [undefined] leaves whose flat keys
    are distinct and not integer keys, [flattenObject] lists the leaves in
    depth-first order under their joined paths. *)
Lemma flattenObject_leaves ps :
  plain_keys (VObj KObject ps) = true ->
  forallb (fun kv => solid (snd kv)) ps = true ->
  flat_ok [] (leaves_of ps) ->
  flattenObject ps true "." [] = Ok (map (flat_entry []) (leaves_of ps)).
Proof.
  intros Hp Hs [Hnd Hidx]. unfold flattenObject.
  rewrite (flatten_loop_leaves [] ps); [done| | |done|done|done].
  - apply Forall_forall. intros kv _. apply flattenEntry_leaves.
  - cbn [plain_keys] in Hp. apply andb_prop in Hp as [_ Hp].
    apply Forall_forall. intros kv Hin. rewrite forallb_forall in Hp.
    apply list_elem_of_In in Hin. specialize (Hp _ Hin). by apply andb_prop in Hp as [_ ?].
Qed.

(** *** [expandObject] on the flattened leaves *)

Lemma expand_keys_app L1 : forall L2 r,
    expand_keys (L1 ++ L2) r = (r' ← expand_keys L1 r; expand_keys L2 r').
Proof.
  induction L1 as [|[ks v] L1 IH]; intros L2 r; [done|].
  cbn [app expand_keys]. destruct (expand_reduce KObject ks v r); cbn; [apply IH|done|done].
Qed.

Lemma expand_loop_keys L :
  Forall (fun e : list string * value =>
            fst e <> [] /\ Forall (fun k => no_dot k = true) (fst e)) L ->
  forall r, expand_loop "." (map (flat_entry []) L) r = expand_keys L r.
Proof.
  induction L as [|[ks v] L IH]; intros HL r; [done|].
  inversion HL as [|? ? [Hne Hd] HL']; subst. simpl in Hne, Hd.
  cbn [map flat_entry expand_loop expand_keys fst snd app].
  rewrite split_join by done.
  destruct (expand_reduce KObject ks v r); cbn; [by apply IH|done|done].
Qed.

Lemma read_fresh k (acc : props) :
  k ∉ keys acc -> inherited k = false -> read_member KObject acc k = Absent.
Proof.
  intros H Hi. unfold read_member. apply lookup_None in H. by rewrite H, Hi.
Qed.

Lemma expand_leaf k v acc :
  k ∉ keys acc -> array_index k = None -> inherited k = false ->
  expand_reduce KObject [k] v acc = Ok (acc ++ [(k, v)]).
Proof.
  intros Hk Hi Hown. cbn [expand_reduce].
  rewrite read_fresh by done. cbn [next_isNaN]. by rewrite set_fresh.
Qed.

Lemma expand_first k ks v acc :
  k ∉ keys acc -> array_index k = None -> inherited k = false ->
  ks <> [] -> next_isNaN ks = true ->
  expand_reduce KObject (k :: ks) v acc
  = (c ← expand_reduce KObject ks v []; Ok (acc ++ [(k, VObj KObject c)])).
Proof.
  intros Hk Hi Hown Hne Hn. cbn [expand_reduce].
  rewrite read_fresh by done. rewrite Hn.
  destruct ks as [|k1 ks]; [done|].
  destruct (expand_reduce KObject (k1 :: ks) v []); cbn [mbind outcome_bind]; [|done|done].
  by rewrite set_fresh, replace_app_fresh.
Qed.

Lemma expand_descend k ks v acc c0 :
  k ∉ keys acc -> ks <> [] ->
  expand_reduce KObject (k :: ks) v (acc ++ [(k, VObj KObject c0)])
  = (c ← expand_reduce KObject ks v c0; Ok (acc ++ [(k, VObj KObject c)])).
Proof.
  intros Hk Hne. cbn [expand_reduce].
  unfold read_member. rewrite lookup_app_fresh by done. cbn [truthy].
  destruct ks as [|k1 ks]; [done|].
  destruct (expand_reduce KObject (k1 :: ks) v c0); cbn [mbind outcome_bind]; [|done|done].
  by rewrite replace_app_fresh.
Qed.

Lemma expand_keys_descend L :
  Forall (fun e : list string * value => fst e <> []) L ->
  forall k acc c0, k ∉ keys acc ->
    expand_keys (map (under k) L) (acc ++ [(k, VObj KObject c0)])
    = (c ← expand_keys L c0; Ok (acc ++ [(k, VObj KObject c)])).
Proof.
  induction L as [|[ks v] L IH]; intros HL k acc c0 Hk; [done|].
  inversion HL as [|? ? Hne HL']; subst. simpl in Hne.
  cbn [map under expand_keys fst snd].
  rewrite expand_descend by done.
  destruct (expand_reduce KObject ks v c0); cbn; [by apply IH|done|done].
Qed.

(** *** The leaves of a plain nested object *)

Lemma plain_key_split k : plain_key k = true -> isNaN_Number k = true /\ no_dot k = true.
Proof. unfold plain_key. intros [H _]%andb_prop. by apply andb_prop in H. Qed.

Lemma plain_key_not_index k : plain_key k = true -> array_index k = None.
Proof.
  intros [Hn _]%plain_key_split.
  destruct (array_index k) eqn:E; [|done].
  apply array_index_numeric in E. congruence.
Qed.

Lemma plain_keys_obj ps :
  plain_keys (VObj KObject ps) = true ->
  NoDup (keys ps)
  /\ Forall (fun kv => plain_key (fst kv) = true /\ plain_keys (snd kv) = true) ps.
Proof.
  cbn [plain_keys]. intros H. apply andb_prop in H as [Hnd Hall].
  apply bool_decide_eq_true in Hnd. split; [done|].
  apply Forall_forall. intros kv Hin.
  rewrite forallb_forall in Hall. specialize (Hall kv).
  rewrite list_elem_of_In in Hin. specialize (Hall Hin).
  by apply andb_prop in Hall.
Qed.

Lemma leaves_of_keys ps :
  Forall (fun e : list string * value => exists k ks, fst e = k :: ks /\ k ∈ keys ps)
    (leaves_of ps).
Proof.
  induction ps as [|[k w] tl IH]; [constructor|].
  rewrite leaves_of_cons. apply Forall_app. split.
  - apply Forall_forall. intros e He. apply list_elem_of_fmap in He as (e' & -> & _).
    exists k, (fst e'). split; [done|]. left.
  - eapply Forall_impl; [exact IH|]. intros e (k' & ks & ? & ?).
    exists k', ks. split; [done|]. by right.
Qed.

Lemma leaves_plain v :
  plain_keys v = true ->
  Forall (fun e : list string * value => Forall (fun k => plain_key k = true) (fst e))
    (leaves v).
Proof.
  induction v as [| | | | |k ps IH| | | |] using value_nested_ind; intros Hp;
    try (repeat constructor).
  destruct k; try (repeat constructor).
  apply plain_keys_obj in Hp as [_ Hall].
  induction ps as [|[k w] tl IHl]; [constructor|].
  change (leaves (VObj KObject ((k, w) :: tl))) with (leaves_of ((k, w) :: tl)).
  rewrite leaves_of_cons.
  inversion IH as [|? ? Hw IH']; inversion Hall as [|? ? [Hk Hpw] Hall']; subst.
  simpl in Hw, Hk, Hpw. apply Forall_app. split; [|by apply IHl].
  apply Forall_forall. intros e He. apply list_elem_of_fmap in He as (e' & -> & He').
  cbn [under fst]. constructor; [done|].
  specialize (Hw Hpw). rewrite Forall_forall in Hw. by apply Hw.
Qed.

Lemma leaves_NoDup v : plain_keys v = true -> NoDup (map fst (leaves v)).
Proof.
  induction v as [| | | | |k ps IH| | | |] using value_nested_ind; intros Hp;
    try (cbn; apply NoDup_singleton).
  destruct k; try (cbn; apply NoDup_singleton).
  apply plain_keys_obj in Hp as [Hnd Hall].
  induction ps as [|[k w] tl IHl]; [constructor|].
  change (leaves (VObj KObject ((k, w) :: tl))) with (leaves_of ((k, w) :: tl)).
  rewrite leaves_of_cons, map_app.
  inversion IH as [|? ? Hw IH']; inversion Hall as [|? ? [Hk Hpw] Hall']; subst.
  unfold keys in Hnd. simpl in Hw, Hk, Hpw, Hnd. apply NoDup_cons in Hnd as [Hk' Hnd].
  apply NoDup_app. split; [|split].
  - rewrite map_map. cbn [under fst].
    rewrite <- (map_map fst (cons k)).
    apply NoDup_fmap_2; [intros ? ? [=]; done|]. by apply Hw.
  - intros ks Hin Hin'.
    apply list_elem_of_fmap in Hin as (e & -> & He).
    apply list_elem_of_fmap in He as (e' & -> & _).
    apply list_elem_of_fmap in Hin' as (e2 & Heq & He2).
    pose proof (leaves_of_keys tl) as Hkeys. rewrite Forall_forall in Hkeys.
    destruct (Hkeys e2 He2) as (k2 & ks2 & Hf & Hin2).
    cbn [under fst] in Heq. rewrite Hf in Heq. injection Heq as -> _. done.
  - by apply IHl.
Qed.

Lemma leaves_nonempty v : solid v = true -> leaves v <> [].
Proof.
  induction v as [| | | | |k ps IH| | | |] using value_nested_ind; intros Hs; try done.
  destruct k; try done.
  cbn [solid] in Hs. apply andb_prop in Hs as [Hne Hs].
  destruct ps as [|[k w] tl]; [done|].
  change (leaves (VObj KObject ((k, w) :: tl))) with (leaves_of ((k, w) :: tl)).
  rewrite leaves_of_cons.
  inversion IH as [|? ? Hw _]; subst. simpl in Hw, Hs.
  apply andb_prop in Hs as [Hsw _]. specialize (Hw Hsw).
  destruct (leaves w); [done|]. done.
Qed.

Local Abbreviation ExpandSpec v :=
  (plain_keys v = true -> solid v = true ->
   forall k acc, k ∉ keys acc -> array_index k = None -> inherited k = false ->
     expand_keys (map (under k) (leaves v)) acc = Ok (acc ++ [(k, v)])).

Lemma expand_keys_props ps :
  Forall (fun kv => ExpandSpec (snd kv)) ps ->
  Forall (fun kv => plain_key (fst kv) = true /\ plain_keys (snd kv) = true) ps ->
  forallb (fun kv => solid (snd kv)) ps = true ->
  forall acc, NoDup (keys (acc ++ ps)) ->
    expand_keys (leaves_of ps) acc = Ok (acc ++ ps).
Proof.
  induction ps as [|[k w] tl IH]; intros HP Hall Hs acc Hnd.
  - by rewrite app_nil_r.
  - inversion HP as [|? ? Hw HP']; inversion Hall as [|? ? [Hk Hpw] Hall']; subst.
    simpl in Hw, Hk, Hpw, Hs. apply andb_prop in Hs as [Hsw Hs].
    rewrite leaves_of_cons, expand_keys_app.
    rewrite Hw; [| done | done | | by apply plain_key_not_index | by apply plain_key_own].
    + cbn [mbind outcome_bind].
      rewrite IH; [by rewrite <- app_assoc|done|done|done|].
      by rewrite <- app_assoc.
    + unfold keys in *. rewrite map_app in Hnd. simpl in Hnd.
      apply NoDup_app in Hnd as (_ & Hd & _).
      intros Hin. apply (Hd k Hin). left.
Qed.

Lemma expand_keys_value v : ExpandSpec v.
Proof.
  induction v as [| | | | |kd ps IH| | | |] using value_nested_ind;
    intros Hp Hs k acc Hk Hi Hown; try discriminate Hs;
    try (cbn [leaves map under fst snd expand_keys]; rewrite expand_leaf by done; done).
  destruct kd;
    try (cbn [leaves map under fst snd expand_keys]; rewrite expand_leaf by done; done).
  pose proof (leaves_nonempty _ Hs) as Hne.
  pose proof (leaves_plain _ Hp) as Hplain.
  pose proof (leaves_of_keys ps) as Hkeys.
  apply plain_keys_obj in Hp as [Hnd Hall].
  cbn [solid] in Hs. apply andb_prop in Hs as [_ Hs].
  pose proof (expand_keys_props ps IH Hall Hs [] Hnd) as Hinner.
  change (leaves (VObj KObject ps)) with (leaves_of ps) in *.
  destruct (leaves_of ps) as [|[ks1 v1] L] eqn:EL; [done|].
  inversion Hkeys as [|? ? (k1 & ks' & Hf & Hin1) Hkeys']; subst.
  simpl in Hf. subst ks1.
  assert (Hk1 : isNaN_Number k1 = true).
  { rewrite Forall_forall in Hall.
    apply list_elem_of_fmap in Hin1 as ([k1' w1] & -> & Hin1).
    destruct (Hall _ Hin1) as [Hpk _]. by apply plain_key_split in Hpk as [? _]. }
  cbn [map under fst snd expand_keys] in Hinner |- *.
  rewrite expand_first by done.
  destruct (expand_reduce KObject (k1 :: ks') v1 []) as [c1| |]; cbn [mbind outcome_bind] in *;
    [|done|done].
  rewrite expand_keys_descend; [|by eapply Forall_impl; [exact Hkeys'|];
                                  intros ? (? & ? & -> & _)|done].
  by rewrite Hinner.
Qed.

(** [expandObject] rebuilds a plain nested object from its leaves. *)
Lemma expandObject_leaves ps :
  plain_keys (VObj KObject ps) = true ->
  forallb (fun kv => solid (snd kv)) ps = true ->
  expandObject (map (flat_entry []) (leaves_of ps)) "." = Ok ps.
Proof.
  intros Hp Hs. unfold expandObject.
  pose proof (leaves_plain _ Hp) as Hplain.
  pose proof (leaves_of_keys ps) as Hkeys.
  rewrite expand_loop_keys.
  - apply plain_keys_obj in Hp as [Hnd Hall].
    apply (expand_keys_props ps); [|done|done|done].
    apply Forall_forall. intros kv _. apply expand_keys_value.
  - change (leaves (VObj KObject ps)) with (leaves_of ps) in Hplain.
    rewrite Forall_forall in Hplain, Hkeys |- *. intros e He.
    destruct (Hkeys e He) as (k & ks & Hf & _). split; [by rewrite Hf|].
    eapply Forall_impl; [exact (Hplain e He)|].
    intros k' Hk'. by apply plain_key_split in Hk' as [_ ?].
Qed.

Lemma flat_keys_ok ps :
  plain_keys (VObj KObject ps) = true -> flat_ok [] (leaves_of ps).
Proof.
  intros Hp.
  pose proof (leaves_plain _ Hp) as Hplain.
  pose proof (leaves_NoDup _ Hp) as Hnd.
  pose proof (leaves_of_keys ps) as Hkeys.
  change (leaves (VObj KObject ps)) with (leaves_of ps) in *.
  rewrite Forall_forall in Hplain, Hkeys.
  assert (Hsplit : forall e, e ∈ leaves_of ps -> split "." (join "." (fst e)) = fst e).
  { intros e He. destruct (Hkeys e He) as (k & ks & Hf & _).
    apply split_join; [by rewrite Hf|].
    eapply Forall_impl; [exact (Hplain e He)|].
    intros k' Hk'. by apply plain_key_split in Hk' as [_ ?]. }
  split.
  - unfold keys. rewrite map_map. cbn [flat_entry fst app].
    rewrite <- (map_map fst (join ".")).
    apply NoDup_fmap_2_strong; [|done].
    intros ks1 ks2 H1 H2 Heq.
    apply list_elem_of_fmap in H1 as (e1 & -> & He1).
    apply list_elem_of_fmap in H2 as (e2 & -> & He2).
    by rewrite <- (Hsplit e1 He1), <- (Hsplit e2 He2), Heq.
  - apply Forall_forall. intros kv Hin.
    apply list_elem_of_fmap in Hin as (e & -> & He).
    destruct (Hkeys e He) as (k & ks & Hf & Hin).
    cbn [flat_entry fst app]. rewrite Hf. apply join_not_index.
    specialize (Hplain e He). rewrite Hf in Hplain.
    inversion Hplain as [|? ? Hk _]; subst. by apply plain_key_split in Hk as [? _].
Qed.

(** C8, as amended. For every plain nested object whose keys at every level
    are distinct strings that [Number] does not convert to a number (not
    numeric, not empty, not blank), that hold no dot and that are not names
    of members of [Object.prototype], and that has no [null] or [undefined]
    leaf and no empty nested object, [expandObject(flattenObject(x, true))]
    returns [x] itself, arrays and other leaves unchanged and keys in the
    same order. *)
Theorem expand_flatten_roundtrip (x : props) :
  plain_keys (VObj KObject x) = true ->
  forallb (fun kv => solid (snd kv)) x = true ->
  (flat ← flattenObject x true "." []; expandObject flat ".") = Ok x.
Proof.
  intros Hp Hs.
  rewrite flattenObject_leaves; [|done|done|by apply flat_keys_ok].
  cbn [mbind outcome_bind]. by apply expandObject_leaves.
Qed.

Lemma expand_flatten_roundtrip_witness :
  plain_keys (VObj KObject Sample.profile) = true
  /\ forallb (fun kv => solid (snd kv)) Sample.profile = true
  /\ (flat ← flattenObject Sample.profile true "." []; expandObject flat ".")
     = Ok Sample.profile.
Proof.
  split; [reflexivity|]. split; [reflexivity|].
  apply (expand_flatten_roundtrip Sample.profile); reflexivity.
Defined.

(** C8 as stated fails: an empty nested object is lost by [flattenObject],
    although every key is a non-numeric string without a dot. *)
Lemma roundtrip_loses_empty_object :
  plain_keys (VObj KObject Sample.with_empty_meta) = true
  /\ (flat ← flattenObject Sample.with_empty_meta true "." []; expandObject flat ".")
     = Ok [("title", VStr "t")]
  /\ (flat ← flattenObject Sample.with_empty_meta true "." []; expandObject flat ".")
     <> Ok Sample.with_empty_meta.
Proof. by vm_compute. Qed.

(** A key that bears the name of a member of [Object.prototype] is lost:
    [{ a: { toString: 'v' } }] comes back as [{ a: {} }]. *)
Lemma roundtrip_loses_inherited_key :
  (flat ← flattenObject [("a", VObj KObject [("toString", VStr "v")])] true "." [];
   expandObject flat ".")
  = Ok [("a", VObj KObject [])].
Proof. reflexivity. Qed.

(** An empty or blank key, which [Number] converts to 0, makes an array of
    the object that holds it. *)
Lemma roundtrip_blank_key_gives_array :
  (flat ← flattenObject [("a", VObj KObject [("", VStr "v")])] true "." [];
   expandObject flat ".")
  = Ok [("a", VObj KArray [("", VStr "v")])]
  /\ (flat ← flattenObject [("a", VObj KObject [(" ", VStr "v")])] true "." [];
      expandObject flat ".")
     = Ok [("a", VObj KArray [(" ", VStr "v")])].
Proof. split; reflexivity. Qed.

(** A [null] leaf makes [flattenObject] throw. *)
Lemma flatten_null_leaf_throws :
  flattenObject [("a", VNull)] true "." []
  = Throw (TypeError "Cannot read properties of null or undefined (reading 'constructor')").
Proof. reflexivity. Qed.

End RoundTrip.

(** ** Validator.ts *)

Module CheckFacts.
Import Props Schema Validator CheckSpec JsStringFacts PropsFacts.

Lemma starts_with_app l m : starts_with l (l ++ m) = true.
Proof.
  induction l as [|c l IH]; [done|]. simpl. by rewrite Ascii.eqb_refl, IH.
Qed.

Lemma extends_dot f x : extends f (f +:+ "." +:+ x) = true.
Proof.
  unfold extends. rewrite (chars_app f ("." +:+ x)), (chars_app "." x), (chars_app f ".").
  by rewrite (app_assoc (chars f)), starts_with_app.
Qed.

Lemma extends_bracket f x : extends f (f +:+ "[" +:+ x) = true.
Proof.
  unfold extends. rewrite (chars_app f ("[" +:+ x)), (chars_app "[" x), (chars_app f "[").
  rewrite (app_assoc (chars f)), starts_with_app. by rewrite orb_true_r.
Qed.

Lemma marked_spec f errs :
  marked f errs = true <->
  exists k, has k errs = true /\ (k = f \/ extends f k = true).
Proof.
  unfold marked. rewrite existsb_exists. split.
  - intros (k & Hin & Hk). exists k. split.
    + apply has_true. by apply list_elem_of_In.
    + apply orb_prop in Hk as [Hk|Hk]; [left|by right].
      by apply String.eqb_eq.
  - intros (k & Hh & Hk). exists k. split.
    + apply list_elem_of_In. by apply has_true.
    + destruct Hk as [->|Hk]; [by rewrite String.eqb_refl|]. by rewrite Hk, orb_true_r.
Qed.

Lemma grows_refl f (errs : props) : grows f errs errs.
Proof. split; auto. Qed.

Lemma grows_mono f (errs errs' : props) k :
  grows f errs errs' -> has k errs = true -> has k errs' = true.
Proof. intros [H _]. apply H. Qed.

Lemma grows_other f (errs errs' : props) k :
  grows f errs errs' -> k <> f -> extends f k = false ->
  lookup k errs' = lookup k errs.
Proof. intros [_ H] Hk He. destruct (H k) as [?|[?|?]]; [done|congruence|done]. Qed.

Lemma grows_trans f (a b c : props) : grows f a b -> grows f b c -> grows f a c.
Proof.
  intros [H1 H2] [H3 H4]. split; [auto|].
  intros k. destruct (H4 k) as [?|[?|Hk]]; auto.
  destruct (H2 k) as [?|[?|Hk']]; auto. right. right. congruence.
Qed.

Lemma grows_set f k v (errs : props) :
  k = f \/ extends f k = true -> grows f errs (set k v errs).
Proof.
  intros Hk. split; intros k'.
  - rewrite has_set. intros ->. by rewrite orb_true_r.
  - rewrite lookup_set. destruct (String.eqb_spec k' k) as [->|]; [|by right; right].
    destruct Hk; auto.
Qed.

Lemma marked_set f k v (errs : props) :
  k = f \/ extends f k = true -> marked f (set k v errs) = true.
Proof.
  intros Hk. apply marked_spec. exists k. split; [|done].
  by rewrite has_set, String.eqb_refl.
Qed.

Lemma marked_mono f (errs errs' : props) :
  (forall k, has k errs = true -> has k errs' = true) ->
  marked f errs = true -> marked f errs' = true.
Proof.
  intros Hm. rewrite !marked_spec. intros (k & ? & ?). exists k. auto.
Qed.

Lemma grows_add_errors f pre (sub : props) : forall errs : props,
    (forall key, extends f (pre key) = true) ->
    grows f errs (add_errors pre sub errs).
Proof.
  unfold add_errors. induction sub as [|[key v] sub IH]; intros errs Hpre.
  - apply grows_refl.
  - simpl. eapply grows_trans; [|by apply IH].
    apply grows_set. by right.
Qed.

Lemma marked_add_errors f pre (sub : props) : forall errs : props,
    (forall key, extends f (pre key) = true) ->
    sub <> [] -> marked f (add_errors pre sub errs) = true.
Proof.
  intros errs Hpre Hne. destruct sub as [|[key v] sub]; [done|].
  unfold add_errors. simpl.
  eapply marked_mono.
  - apply (grows_add_errors f pre sub (set (pre key) v errs) Hpre).
  - apply marked_set. by right.
Qed.

Lemma set_nonempty {A} k (v : A) ps : set k v ps <> [].
Proof.
  intros H. pose proof (has_set k k v ps) as Hh. rewrite H, String.eqb_refl in Hh. done.
Qed.

Lemma has_nonempty (errs : props) k : has k errs = true -> errs <> [].
Proof. by destruct errs. Qed.

Lemma marked_nonempty f (errs : props) : marked f errs = true -> errs <> [].
Proof. intros (k & Hk & _)%marked_spec. by eapply has_nonempty. Qed.

(** A result says [valid: false] only with an error in its map. *)
Local Abbreviation sound r := (valid r = false -> errors r <> []).

Section Step.
Variable env : Env.
Variable h : heap.
Variable chk : schema -> props -> ValidationOptions -> outcome (ValidationResult * props).
Hypothesis chk_sound : forall s d o r d', chk s d o = Ok (r, d') -> sound r.

Lemma unique_step_sound e nd d' acc fr r :
  (forall r0, acc = Ok r0 -> sound r0) ->
  unique_step env e nd d' acc fr = Ok r -> sound r.
Proof.
  intros Hacc. unfold unique_step. destruct acc as [r0| |]; cbn; [|done|done].
  specialize (Hacc r0 eq_refl).
  destruct (snd fr) as [b o|]; [|by intros [= <-]].
  destruct (r_unique b) as [u|]; [|by intros [= <-]].
  destruct (truthy _ && _); [|by intros [= <-]].
  destruct (constraint env u _) as [[cv msg]| |]; cbn; [|done|done].
  destruct cv as [| |[]| | | | | | |]; try (by intros [= <-]).
  destruct (unique_taken _ _ _ _ _); intros [= <-]; [|done].
  cbn. intros _. apply set_nonempty.
Qed.

Lemma unique_fold_sound e nd d' sch : forall acc r,
    (forall r0, acc = Ok r0 -> sound r0) ->
    fold_left (unique_step env e nd d') sch acc = Ok r -> sound r.
Proof.
  induction sch as [|fr sch IH]; intros acc r Hacc; simpl.
  - intros ->. by apply Hacc.
  - apply IH. intros r0 Hr0. by eapply unique_step_sound.
Qed.

Lemma validate_entity_sound a r : validate_entity env h chk a = Ok r -> sound r.
Proof.
  unfold validate_entity. destruct (h !! a) as [e|]; [|done].
  destruct (chk _ _ _) as [[r0 d0]| |] eqn:Hc; cbn; [|done|done].
  apply unique_fold_sound. intros ? [= <-]. by eapply chk_sound.
Qed.

Lemma validate_value_sound v r : validate_value env h chk v = Ok r -> sound r.
Proof. destruct v; try done. apply validate_entity_sound. Qed.

Lemma sound_marks f pre r (errs : props) :
  sound r -> valid r = false ->
  (forall key, extends f (pre key) = true) ->
  marked f (add_errors pre (errors r) errs) = true.
Proof. intros Hs Hv Hpre. apply marked_add_errors; auto. Qed.

Lemma validate_items_spec f name items : forall errs res,
    validate_items env h chk f name items errs = Ok res ->
    match res with
    | inl errs' => grows f errs errs' /\ marked f errs' = true
    | inr errs' => grows f errs errs'
    end.
Proof.
  induction items as [|[i item] items IH]; intros errs res; cbn [validate_items].
  - intros [= <-]. apply grows_refl.
  - destruct (negb (String.eqb (constructorName item) name)).
    + intros [= <-]. split.
      * apply grows_set. right. apply extends_bracket.
      * apply marked_set. right. apply extends_bracket.
    + destruct (validate_value env h chk item) as [r| |] eqn:Hv; cbn; [|done|done].
      pose proof (validate_value_sound _ _ Hv) as Hs.
      assert (Hpre : forall key, extends f (f +:+ "[" +:+ i +:+ "]" +:+ key) = true)
        by (intros; apply extends_bracket).
      destruct (negb (valid r)) eqn:Hvalid.
      * intros [= <-]. split; [by apply grows_add_errors|].
        apply sound_marks; [done| |done]. by destruct (valid r).
      * intros Hrest. apply IH in Hrest.
        pose proof (grows_add_errors f _ (errors r) errs Hpre) as Hg.
        destruct res as [errs'|errs'].
        -- destruct Hrest as [Hg' Hm]. split; [by eapply grows_trans|done].
        -- by eapply grows_trans.
Qed.

Lemma check_items_spec f o items : forall errs,
    match check_items f o items errs with
    | inl errs' => grows f errs errs' /\ marked f errs' = true
    | inr errs' => errs' = errs
    end.
Proof.
  induction items as [|[i item] items IH]; intros errs; cbn [check_items]; [done|].
  destruct (match o with OfType t => _ | _ => false end); [apply IH|].
  split; [apply grows_set|apply marked_set]; right; apply extends_bracket.
Qed.

Lemma check_composite_spec options f type b o v errs cleaned dat res :
  check_composite env h chk options f type b o v (errs, cleaned, dat) = Ok res ->
  match res with
  | inl (errs', cleaned', dat') =>
      cleaned' = cleaned /\ dat' = dat /\ grows f errs errs' /\ marked f errs' = true
  | inr ((errs', cleaned', dat'), _) =>
      cleaned' = cleaned /\ grows f errs errs'
      /\ (dat' = dat
          \/ exists m sub res d0,
               type = "SubModel"
               /\ r_model b = Some m /\ getModelSchema env m = Some sub
               /\ chk sub (enum_props h v) options = Ok (res, d0)
               /\ valid res = true
               /\ dat' = set f (VObj KObject (data res)) dat)
  end.
Proof.
  assert (Hdot : forall key, extends f (f +:+ "." +:+ key) = true)
    by (intros; apply extends_dot).
  unfold check_composite.
  destruct (String.eqb type "Reference").
  { unfold model_name. destruct (r_model b) as [m|]; cbn [mbind outcome_bind]; [|done].
    destruct (negb (String.eqb (constructorName v) (ctor_name m))).
    - intros [= <-]. split_and!; try done.
      + apply grows_set; by left.
      + apply marked_set; by left.
    - destruct (validate_value env h chk v) as [r| |] eqn:Hv; cbn [mbind outcome_bind]; [|done|done].
      pose proof (validate_value_sound _ _ Hv) as Hs.
      destruct (negb (valid r)) eqn:Hvalid; intros [= <-].
      + split_and!; try done; [by apply grows_add_errors|].
        apply sound_marks; [done| |done]. by destruct (valid r).
      + split_and!; [done|by apply grows_add_errors|by left]. }
  destruct (String.eqb type "Collection").
  { destruct (enum_props h v) as [|it items] eqn:Hi.
    - intros [= <-]. split_and!; [done|apply grows_refl|by left].
    - unfold model_name. destruct (r_model b) as [m|]; cbn [mbind outcome_bind]; [|done].
      destruct (validate_items env h chk f (ctor_name m) (it :: items) errs)
        as [[e'|e']| |] eqn:Hv; cbn [mbind outcome_bind]; [| |done|done]; intros [= <-];
        apply validate_items_spec in Hv.
      + destruct Hv. done.
      + split_and!; [done|done|by left]. }
  destruct (String.eqb_spec type "SubModel") as [Htype|_].
  { destruct (r_model b) as [m|]; [|done].
    destruct (getModelSchema env m) as [sub|] eqn:Hsub.
    - destruct (chk sub (enum_props h v) options) as [[r d0]| |] eqn:Hc; cbn [mbind outcome_bind]; [|done|done].
      pose proof (chk_sound _ _ _ _ _ Hc) as Hs.
      destruct (negb (valid r)) eqn:Hvalid; intros [= <-].
      + split_and!; try done; [by apply grows_add_errors|].
        apply sound_marks; [done| |done]. by destruct (valid r).
      + split_and!; [done|by apply grows_add_errors|]. right.
        exists m, sub, r, d0. split_and!; try done. by destruct (valid r).
    - intros [= <-]. split_and!; [done|apply grows_refl|by left]. }
  destruct (String.eqb type "Object").
  { destruct (match o with OfNone => false | _ => _ end).
    - destruct (flattenObject _ _ _ _) as [fo| |]; cbn [mbind outcome_bind]; [|done|done].
      destruct (chk _ fo options) as [[r d0]| |] eqn:Hc; cbn [mbind outcome_bind]; [|done|done].
      pose proof (chk_sound _ _ _ _ _ Hc) as Hs.
      destruct (negb (valid r)) eqn:Hvalid.
      + intros [= <-]. split_and!; try done; [by apply grows_add_errors|].
        apply sound_marks; [done| |done]. by destruct (valid r).
      + destruct (expandObject fo ".") as [ex| |]; cbn [mbind outcome_bind]; [|done|done].
        intros [= <-]. split_and!; [done|by apply grows_add_errors|by left].
    - intros [= <-]. split_and!; [done|apply grows_refl|by left]. }
  destruct (String.eqb type "Array").
  { assert (Hplain :
      forall res, (match check_items f o (enum_props h v) errs with
                   | inl errs' => Ok (inl (errs', cleaned, dat))
                   | inr errs' => Ok (inr (errs', cleaned, dat, v))
                   end) = Ok res ->
        match res with
        | inl (errs', cleaned', dat') =>
            cleaned' = cleaned /\ dat' = dat /\ grows f errs errs' /\ marked f errs' = true
        | inr ((errs', cleaned', dat'), _) =>
            cleaned' = cleaned /\ grows f errs errs'
            /\ (dat' = dat
                \/ exists m sub res d0,
                     type = "SubModel"
                     /\ r_model b = Some m /\ getModelSchema env m = Some sub
                     /\ chk sub (enum_props h v) options = Ok (res, d0)
                     /\ valid res = true
                     /\ dat' = set f (VObj KObject (data res)) dat)
        end).
    { intros res'. pose proof (check_items_spec f o (enum_props h v) errs) as Hci.
      destruct (check_items f o (enum_props h v) errs) as [e'|e']; intros [= <-].
      - destruct Hci. done.
      - subst. split_and!; [done|apply grows_refl|by left]. }
    destruct (match o with OfType t => _ | _ => false end); [|apply Hplain].
    destruct (enum_props h v) as [|it items] eqn:Hi.
    - intros [= <-]. split_and!; [done|apply grows_refl|by left].
    - unfold model_name. destruct (r_model b) as [m|]; cbn [mbind outcome_bind]; [|done].
      destruct (validate_items env h chk f (ctor_name m) (it :: items) errs)
        as [[e'|e']| |] eqn:Hv; cbn [mbind outcome_bind]; [| |done|done]; intros [= <-];
        apply validate_items_spec in Hv.
      + destruct Hv. done.
      + split_and!; [done|done|by left]. }
  intros [= <-]. split_and!; [done|apply grows_refl|by left].
Qed.

Lemma check_builtin_spec names f b v errs errs' :
  check_builtin env names f b v errs = Some errs' ->
  exists msg, errs' = set f msg errs.
Proof.
  induction names as [|name names IH]; cbn [check_builtin]; [done|].
  destruct (builtin_rule b name) as [r|]; [|done].
  destruct (truthy r); [|done].
  destruct (match r with VObj KArray ps => _ | _ => _ end) as [c msg].
  destruct (negb (builtin_validator env name v c)); [|done].
  intros [= <-]. by exists msg.
Qed.

Lemma get_defined_has (errs : props) f :
  is_undefined (get errs f) = false -> has f errs = true.
Proof. unfold get, has. by destruct (lookup f errs). Qed.

Lemma get_set k g v (d : props) :
  get (set g v d) k = if String.eqb k g then v else get d k.
Proof. unfold get. rewrite lookup_set. by destruct (String.eqb k g). Qed.

Lemma undefined_at_of_lookup_eq k (ps qs : props) :
  lookup k ps = lookup k qs -> undefined_at ps k = undefined_at qs k.
Proof. unfold undefined_at. by intros ->. Qed.

Lemma add_errors_keep f pre (sub : props) : forall errs : props,
    (forall key, pre key <> f) ->
    lookup f (add_errors pre sub errs) = lookup f errs.
Proof.
  unfold add_errors. induction sub as [|[key v] sub IH]; intros errs Hpre; [done|].
  simpl. rewrite IH by done. rewrite lookup_set.
  destruct (String.eqb_spec f (pre key)) as [Heq|]; [|done]. by destruct (Hpre key).
Qed.

Lemma append_ne f x : x <> "" -> f +:+ x <> f.
Proof.
  intros Hx Heq. apply Hx. induction f as [|c f IH]; [done|].
  apply IH. by injection Heq.
Qed.

Lemma validate_items_keep f name items : forall errs errs',
    validate_items env h chk f name items errs = Ok (inr errs') ->
    lookup f errs' = lookup f errs.
Proof.
  induction items as [|[i item] items IH]; intros errs errs'; cbn [validate_items].
  - by intros [= <-].
  - destruct (negb (String.eqb (constructorName item) name)); [done|].
    destruct (validate_value env h chk item) as [r| |]; cbn [mbind outcome_bind];
      [|done|done].
    destruct (negb (valid r)); [done|].
    intros Hrest. apply IH in Hrest. rewrite Hrest.
    apply add_errors_keep. intros key. by apply append_ne.
Qed.

(** When the [switch] lets the field go on, no error sits under its name. *)
Lemma check_composite_keep options f type b o v errs cleaned dat st' v' :
  check_composite env h chk options f type b o v (errs, cleaned, dat)
  = Ok (inr (st', v')) ->
  lookup f (fst (fst st')) = lookup f errs.
Proof.
  assert (Hdot : forall key, f +:+ "." +:+ key <> f) by (intros; by apply append_ne).
  unfold check_composite.
  destruct (String.eqb type "Reference").
  { unfold model_name. destruct (r_model b) as [m|]; cbn [mbind outcome_bind]; [|done].
    destruct (negb (String.eqb (constructorName v) (ctor_name m))); [done|].
    destruct (validate_value env h chk v) as [r| |]; cbn [mbind outcome_bind]; [|done|done].
    destruct (negb (valid r)); intros [= <- <-]. by apply add_errors_keep. }
  destruct (String.eqb type "Collection").
  { destruct (enum_props h v) as [|it items]; [by intros [= <- <-]|].
    unfold model_name. destruct (r_model b) as [m|]; cbn [mbind outcome_bind]; [|done].
    destruct (validate_items env h chk f (ctor_name m) (it :: items) errs)
      as [[e'|e']| |] eqn:Hv; cbn [mbind outcome_bind]; [done| |done|done].
    intros [= <- <-]. by apply validate_items_keep in Hv. }
  destruct (String.eqb type "SubModel").
  { destruct (r_model b) as [m|]; [|done].
    destruct (getModelSchema env m) as [sub|]; [|by intros [= <- <-]].
    destruct (chk sub (enum_props h v) options) as [[r d0]| |]; cbn [mbind outcome_bind];
      [|done|done].
    destruct (negb (valid r)); intros [= <- <-]. by apply add_errors_keep. }
  destruct (String.eqb type "Object").
  { destruct (match o with OfNone => false | _ => _ end); [|by intros [= <- <-]].
    destruct (flattenObject _ _ _ _) as [fo| |]; cbn [mbind outcome_bind]; [|done|done].
    destruct (chk _ fo options) as [[r d0]| |]; cbn [mbind outcome_bind]; [|done|done].
    destruct (negb (valid r)); [done|].
    destruct (expandObject fo ".") as [ex| |]; cbn [mbind outcome_bind]; [|done|done].
    intros [= <- <-]. by apply add_errors_keep. }
  destruct (String.eqb type "Array").
  { destruct (match o with OfType t => _ | _ => false end).
    - destruct (enum_props h v) as [|it items]; [by intros [= <- <-]|].
      unfold model_name. destruct (r_model b) as [m|]; cbn [mbind outcome_bind]; [|done].
      destruct (validate_items env h chk f (ctor_name m) (it :: items) errs)
        as [[e'|e']| |] eqn:Hv; cbn [mbind outcome_bind]; [done| |done|done].
      intros [= <- <-]. by apply validate_items_keep in Hv.
    - pose proof (check_items_spec f o (enum_props h v) errs) as Hci.
      destruct (check_items f o (enum_props h v) errs) as [e'|e']; [done|].
      intros [= <- <-]. by subst. }
  by intros [= <- <-].
Qed.

Lemma turn_left_out sch options f lk (errs e1 cleaned dat : props) :
  grows f errs e1 -> marked f e1 = true ->
  turn env h chk sch options f lk (errs, cleaned, dat) (e1, cleaned, dat).
Proof. intros. split_and!; [done|by left|left; split; [done|by right; right]]. Qed.

Lemma turn_error sch options f lk msg (errs cleaned dat : props) :
  turn env h chk sch options f lk (errs, cleaned, dat) (set_error f msg errs, cleaned, dat).
Proof. apply turn_left_out; [apply grows_set|apply marked_set]; by left. Qed.

(** One turn of the loop. *)
Lemma check_field_turn sch options f lk st st' :
  lookup f sch = lk ->
  check_field env h chk sch options st f = Ok st' ->
  turn env h chk sch options f lk st st'.
Proof.
  destruct st as [[errs cleaned] dat]. intros Hl. unfold check_field. rewrite Hl.
  destruct lk as [rules|].
  2: { destruct (inherited f && undefined_at errs f); [done|].
       intros [= <-]. split_and!; [apply grows_refl|by left|].
       left. split; [done|by left]. }
  destruct (negb (undefined_at errs f)) eqn:Hu.
  { intros [= <-]. split_and!; [apply grows_refl|by left|].
    left. split; [done|]. right.
    apply negb_true_iff in Hu. unfold undefined_at in Hu.
    destruct (lookup f errs) as [v|] eqn:Hlk.
    - right. apply marked_spec. exists f. split; [|by left]. unfold has. by rewrite Hlk.
    - left. by apply negb_false_iff in Hu. }
  apply negb_false_iff in Hu.
  assert (Hcommon : forall b o,
    rules = Rules b o -> passes_early rules (get dat f) = is_transform (get dat f) ->
    (let val := get dat f in
     let type := match r_type b with
                 | Some t => if String.eqb t "" then constructorName val else t
                 | None => constructorName val
                 end in
     if is_transform val then Ok (errs, set f val cleaned, dat)
     else if negb (String.eqb type "Reference") && negb (String.eqb type "SubModel")
             && negb (String.eqb (constructorName val) type)
     then Ok (set_error f (invalid_type (constructorName val) type) errs, cleaned, dat)
     else
       r ← check_composite env h chk options f type b o val (errs, cleaned, dat);
       match r with
       | inl st' => Ok st'
       | inr ((errs, cleaned, dat), val) =>
           if match r_enum b with
              | Some l => negb (includes l val)
              | None => false
              end
           then Ok (set_error f
                      ("Invalid value '" +:+ to_text env val +:+ "'. Allowed values ['"
                       +:+ join "|" (map (join_text env) (default [] (r_enum b)))
                       +:+ "']") errs, cleaned, dat)
           else
             match check_builtin env builtin_names f b val errs with
             | Some errs' => Ok (errs', cleaned, dat)
             | None =>
                 if match r_validate b with
                    | Some cr => undefined_at errs f && negb (validator cr val)
                    | None => false
                    end
                 then Ok (set_error f
                            (custom_text f val
                               (match r_validate b with
                                | Some cr => message cr
                                | None => NoMessage
                                end)) errs, cleaned, dat)
                 else
                   if admin_only b && not_admin (authValue options)
                   then Ok (set_error f "Admin permission required" errs, cleaned, dat)
                   else Ok (errs, set f (get dat f) cleaned, dat)
             end
       end) = Ok st' ->
    turn env h chk sch options f (Some rules) (errs, cleaned, dat) st').
  { intros b o -> Hearly. cbn zeta.
    destruct (is_transform (get dat f)) eqn:Ht.
    { intros [= <-]. split_and!; [apply grows_refl|by left|].
      right. split_and!; [done|done|done|].
      exists (Rules b o). split; [done|]. by left. }
    destruct (_ && negb (String.eqb (constructorName (get dat f)) _)).
    { intros [= <-]. apply turn_error. }
    destruct (check_composite _ _ _ _ _ _ _ _ _ _) as [[[[e1 c1] d1]|[[[e1 c1] d1] v1]]| |]
      eqn:Hc; cbn [mbind outcome_bind]; [| |done|done].
    { apply check_composite_spec in Hc. destruct Hc as (-> & -> & Hg & Hm).
      intros [= <-]. by apply turn_left_out. }
    pose proof (check_composite_keep _ _ _ _ _ _ _ _ _ _ _ Hc) as Hkeep.
    cbn [fst] in Hkeep.
    apply check_composite_spec in Hc. destruct Hc as (-> & Hg & Hd).
    assert (Hd' : d1 = dat
                  \/ exists d, sanitized_by env h chk sch options f (get dat f) d
                               /\ d1 = set f (VObj KObject d) dat).
    { destruct Hd as [->|(m & sub & res & d0 & Ht' & Hm & Hs & Hchk & Hval & ->)];
        [by left|].
      right. exists (data res). split; [|done].
      by exists b, o, m, sub, res, d0. }
    assert (Hrej1 : forall msg,
      turn env h chk sch options f (Some (Rules b o)) (errs, cleaned, dat)
        (set f msg e1, cleaned, d1)).
    { intros msg. split_and!; [|done|].
      - eapply grows_trans; [exact Hg|]. apply grows_set. by left.
      - left. split; [done|]. right. right. apply marked_set. by left. }
    destruct (match r_enum b with Some l => _ | None => false end).
    { intros [= <-]. apply Hrej1. }
    destruct (check_builtin env builtin_names f b v1 e1) as [e2|] eqn:Hb.
    { apply check_builtin_spec in Hb as [msg ->]. intros [= <-]. apply Hrej1. }
    destruct (match r_validate b with Some cr => _ | None => false end).
    { intros [= <-]. apply Hrej1. }
    destruct (admin_only b && not_admin (authValue options)) eqn:Hadm.
    { intros [= <-]. apply Hrej1. }
    intros [= <-]. split_and!; [done|done|].
    right. split_and!; [done|done|done|].
    exists (Rules b o). split; [done|]. right. by exists b, o. }
  destruct (get dat f) eqn:Hv.
  - intros [= <-]. apply turn_error.
  - destruct rules as [b o|t].
    + destruct (r_null b) as [[]|] eqn:Hn.
      * intros [= <-]. split_and!; [apply grows_refl|by left|].
        right. unfold taken. rewrite ?Hv. split_and!; [done|done|done|].
        exists (Rules b o). split; [done|]. left. cbn. by rewrite Hn.
      * intros [= <-]. apply turn_error.
      * intros [= <-]. apply turn_error.
    + intros [= <-]. apply turn_error.
  - destruct rules as [rb ro|t]; [|done].
    intros Hres. by apply (Hcommon rb ro eq_refl eq_refl).
  - destruct rules as [rb ro|t]; [|done].
    intros Hres. by apply (Hcommon rb ro eq_refl eq_refl).
  - destruct rules as [rb ro|t]; [|done].
    intros Hres. by apply (Hcommon rb ro eq_refl eq_refl).
  - destruct rules as [rb ro|t]; [|done].
    intros Hres. by apply (Hcommon rb ro eq_refl eq_refl).
  - destruct rules as [rb ro|t]; [|done].
    intros Hres. by apply (Hcommon rb ro eq_refl eq_refl).
  - destruct rules as [rb ro|t]; [|done].
    intros Hres. by apply (Hcommon rb ro eq_refl eq_refl).
  - destruct rules as [rb ro|t]; [|done].
    intros Hres. by apply (Hcommon rb ro eq_refl eq_refl).
  - destruct rules as [rb ro|t]; [|done].
    intros Hres. by apply (Hcommon rb ro eq_refl eq_refl).
Qed.

Lemma fields_loop_cons sch options g fields st :
  fields_loop env h chk sch options (g :: fields) st
  = (st' ← check_field env h chk sch options st g;
     fields_loop env h chk sch options fields st').
Proof.
  unfold fields_loop. cbn [fold_left mbind outcome_bind].
  destruct (check_field env h chk sch options st g) as [st'| |]; [done| |].
  - cbn. induction fields; [done|]. done.
  - cbn. induction fields; [done|]. done.
Qed.

(** An invariant of the [fields:] loop, indexed by the fields done. *)
Lemma fields_loop_inv (Inv : list string -> state -> Prop) sch options fields st0 st' :
  (forall done g rest st st1,
      fields = done ++ g :: rest -> Inv done st ->
      turn env h chk sch options g (lookup g sch) st st1 -> Inv (done ++ [g]) st1) ->
  Inv [] st0 ->
  fields_loop env h chk sch options fields st0 = Ok st' ->
  Inv fields st'.
Proof.
  intros Hstep.
  assert (Hgen : forall todo done st,
             fields = done ++ todo -> Inv done st ->
             fields_loop env h chk sch options todo st = Ok st' -> Inv fields st').
  { induction todo as [|g todo IH]; intros done st Hf Hinv.
    - intros [= <-]. rewrite app_nil_r in Hf. by subst.
    - rewrite fields_loop_cons.
      destruct (check_field env h chk sch options st g) as [st1| |] eqn:Hc;
        cbn [mbind outcome_bind]; [|done|done].
      apply (IH (done ++ [g]) st1).
      + by rewrite <- app_assoc.
      + eapply Hstep; [exact Hf|done|]. by apply check_field_turn. }
  intros H0. by apply (Hgen fields [] st0).
Qed.

Lemma has_lookup {A} k (ps : list (string * A)) :
  has k ps = true <-> exists v, lookup k ps = Some v.
Proof.
  unfold has. destruct (lookup k ps) as [v|].
  - split; [by exists v|done].
  - split; [done|by intros [? ?]].
Qed.

Lemma has_of_lookup_eq {A} k (ps qs : list (string * A)) :
  lookup k ps = lookup k qs -> has k ps = has k qs.
Proof. unfold has. by intros ->. Qed.

Lemma get_of_lookup_eq k (ps qs : props) :
  lookup k ps = lookup k qs -> get ps k = get qs k.
Proof. unfold get. by intros ->. Qed.

(** Only fields that have a rule are taken. *)
Lemma loop_cleaned_declared sch options fields errs0 dat errs cleaned dat' :
  fields_loop env h chk sch options fields (errs0, [], dat) = Ok (errs, cleaned, dat') ->
  forall k, has k cleaned = true -> k ∈ fields /\ has k sch = true.
Proof.
  intros Hloop.
  refine (fields_loop_inv
            (fun done st => forall k, has k (snd (fst st)) = true ->
                                      k ∈ done /\ has k sch = true)
            sch options fields _ (errs, cleaned, dat') _ _ Hloop); [|done].
  intros done g rest [[e c] d] [[e1 c1] d1] _ Hinv (_ & _ & Hc) k. cbn [fst snd] in *.
  destruct Hc as [[-> _]|(-> & _ & _ & r & Hr & _)].
  - intros Hk. destruct (Hinv k Hk). split; [|done]. apply elem_of_app. by left.
  - rewrite has_set. intros Hk. apply orb_prop in Hk as [Hk|Hk].
    + apply String.eqb_eq in Hk as ->. split.
      * apply elem_of_app. right. by left.
      * unfold has. by rewrite Hr.
    + destruct (Hinv k Hk). split; [|done]. apply elem_of_app. by left.
Qed.

(** A field with a rule that is not taken has an error recorded for it,
    unless it bears the name of a member of [Object.prototype]. *)
Lemma loop_marks sch options fields errs0 dat errs cleaned dat' :
  fields_loop env h chk sch options fields (errs0, [], dat) = Ok (errs, cleaned, dat') ->
  forall k, k ∈ fields -> has k sch = true -> inherited k = false ->
            has k cleaned = true \/ marked k errs = true.
Proof.
  intros Hloop.
  refine (fields_loop_inv
            (fun done st => forall k, k ∈ done -> has k sch = true -> inherited k = false ->
                              has k (snd (fst st)) = true
                              \/ marked k (fst (fst st)) = true)
            sch options fields _ (errs, cleaned, dat') _ _ Hloop);
    [|by intros k Hk; apply elem_of_nil in Hk].
  intros done g rest [[e c] d] [[e1 c1] d1] _ Hinv (Hg & _ & Hc) k Hk Hs Hown.
  cbn [fst snd] in *.
  apply elem_of_app in Hk as [Hk|Hk].
  - destruct (Hinv k Hk Hs Hown) as [Hin|Hm].
    + left. destruct Hc as [[-> _]|(-> & _)]; [done|].
      rewrite has_set, Hin. by rewrite orb_true_r.
    + right. eapply marked_mono; [|exact Hm]. intros k'. by apply (grows_mono g).
  - apply list_elem_of_singleton in Hk as ->.
    destruct Hc as [[-> [Hn|[Hi|Hm]]]|(-> & _)].
    + unfold has in Hs. by rewrite Hn in Hs.
    + congruence.
    + by right.
    + left. by rewrite has_set, String.eqb_refl.
Qed.

(** A taken field carries its input value, or the sanitized copy that the
    SubModel case wrote into [data]. *)
Lemma loop_values sch options fields errs0 dat errs cleaned dat' :
  NoDup fields ->
  fields_loop env h chk sch options fields (errs0, [], dat) = Ok (errs, cleaned, dat') ->
  forall k v, lookup k cleaned = Some v ->
              v = get dat k
              \/ exists d, sanitized_by env h chk sch options k (get dat k) d
                           /\ v = VObj KObject d.
Proof.
  intros Hnd Hloop.
  refine (proj1 (fields_loop_inv
           (fun done st =>
              (forall k v, lookup k (snd (fst st)) = Some v ->
                  v = get dat k
                  \/ exists d, sanitized_by env h chk sch options k (get dat k) d
                               /\ v = VObj KObject d)
              /\ (forall k, k ∉ done -> get (snd st) k = get dat k)
              /\ (forall k, get (snd st) k = get dat k
                            \/ exists d, sanitized_by env h chk sch options k (get dat k) d
                                         /\ get (snd st) k = VObj KObject d))
           sch options fields _ (errs, cleaned, dat') _ _ Hloop)).
  - intros done g rest [[e c] d] [[e1 c1] d1] Hf (Hc0 & Hfresh & Hd0) (_ & Hd & Hc).
    cbn [fst snd] in *.
    assert (Hgd : g ∉ done).
    { rewrite Hf in Hnd. apply NoDup_app in Hnd as (_ & Hdis & _).
      intros Hin. apply (Hdis g Hin). left. }
    assert (Hd1 : forall k, get d1 k = get dat k
                            \/ exists d2, sanitized_by env h chk sch options k (get dat k) d2
                                          /\ get d1 k = VObj KObject d2).
    { intros k. destruct Hd as [->|(d2 & Hs & ->)]; [done|].
      rewrite get_set.
      destruct (String.eqb_spec k g) as [->|]; [|apply Hd0].
      right. exists d2. split; [|done]. by rewrite <- (Hfresh g Hgd). }
    split_and!; [|..|done].
    + destruct Hc as [[-> _]|(-> & _)]; [done|].
      intros k v. rewrite lookup_set.
      destruct (String.eqb_spec k g) as [->|]; [|apply Hc0].
      intros [= <-]. apply Hd1.
    + intros k Hk. assert (k <> g) by (intros ->; apply Hk, elem_of_app; right; left).
      assert (k ∉ done) by (intros ?; apply Hk, elem_of_app; by left).
      destruct Hd as [->|(d2 & _ & ->)]; [by apply Hfresh|].
      rewrite get_set.
      destruct (String.eqb_spec k g) as [->|]; [done|]. by apply Hfresh.
  - split_and!; [done|done|]. intros k. by left.
Qed.

(** A field under an admin rule is never taken for a caller who is not
    the admin, unless its value leaves the loop early. *)
Lemma loop_not_taken sch options fields errs0 dat errs cleaned dat' f b o :
  lookup f sch = Some (Rules b o) ->
  admin_only b = true -> not_admin (authValue options) = true ->
  passes_early (Rules b o) (get dat f) = false ->
  fields_loop env h chk sch options fields (errs0, [], dat) = Ok (errs, cleaned, dat') ->
  has f cleaned = false.
Proof.
  intros Hl Ha Hn He Hloop.
  refine (proj1 (fields_loop_inv
            (fun done st => has f (snd (fst st)) = false
                            /\ passes_early (Rules b o) (get (snd st) f) = false)
            sch options fields _ (errs, cleaned, dat') _ _ Hloop)); [|done].
  intros done g rest [[e c] d] [[e1 c1] d1] _ [Hc0 Hd0] (_ & Hd & Hc).
  cbn [fst snd] in *. split.
  - destruct Hc as [[-> _]|(-> & _ & _ & r & Hr & Hacc)]; [done|].
    rewrite has_set, Hc0, orb_false_r.
    destruct (String.eqb_spec f g) as [->|]; [|done].
    rewrite Hl in Hr. injection Hr as <-.
    destruct Hacc as [Hp|(b' & o' & [= <- <-] & Hadm)]; [congruence|].
    by rewrite Ha, Hn in Hadm.
  - destruct Hd as [->|(d2 & _ & ->)]; [done|].
    unfold get. rewrite lookup_set.
    destruct (String.eqb_spec f g) as [->|]; [done|]. apply Hd0.
Qed.

(** With distinct, independent field names, a taken field has no error
    under its name. *)
Lemma loop_no_error sch options fields errs0 dat errs cleaned dat' :
  NoDup fields ->
  (forall k g, k ∈ fields -> g ∈ fields -> extends g k = false) ->
  (forall k, has k errs0 = true -> undefined_at errs0 k = false) ->
  fields_loop env h chk sch options fields (errs0, [], dat) = Ok (errs, cleaned, dat') ->
  forall k, has k cleaned = true -> has k errs = false.
Proof.
  intros Hnd Hind H0 Hloop k Hk.
  refine (proj2 (proj1 (fields_loop_inv
            (fun done st =>
               (forall k, has k (snd (fst st)) = true ->
                          k ∈ done /\ has k (fst (fst st)) = false)
               /\ (forall k, k ∈ fields -> k ∉ done -> has k (fst (fst st)) = true ->
                             undefined_at (fst (fst st)) k = false))
            sch options fields _ (errs, cleaned, dat') _ _ Hloop) k Hk)).
  - intros done g rest [[e c] d] [[e1 c1] d1] Hf [Hc0 He0] (Hg & _ & Hc).
    cbn [fst snd] in *.
    assert (Hgf : g ∈ fields) by (rewrite Hf; apply elem_of_app; right; left).
    assert (Hgd : g ∉ done).
    { rewrite Hf in Hnd. apply NoDup_app in Hnd as (_ & Hd & _).
      intros Hin. apply (Hd g Hin). left. }
    assert (Hdf : forall k', k' ∈ done -> k' ∈ fields).
    { intros k' Hin. rewrite Hf. apply elem_of_app. by left. }
    assert (Hsame : forall k', k' ∈ fields -> k' <> g -> lookup k' e1 = lookup k' e).
    { intros k' Hin Hne. eapply grows_other; [exact Hg|done|]. by apply Hind. }
    split.
    + intros k' Hk'.
      assert (Hold : has k' c = true -> k' ∈ done ++ [g] /\ has k' e1 = false).
      { intros Hc'. destruct (Hc0 k' Hc') as [Hin He].
        split; [apply elem_of_app; by left|].
        rewrite (has_of_lookup_eq k' e1 e); [done|].
        apply Hsame; [by apply Hdf|]. intros ->. done. }
      destruct Hc as [[-> _]|(-> & Hu & Hkeep & _)]; [by apply Hold|].
      rewrite has_set in Hk'.
      destruct (String.eqb_spec k' g) as [Heq|Hne]; [subst k'|by apply Hold].
      split; [apply elem_of_app; right; left|].
      rewrite (has_of_lookup_eq g e1 e) by done.
      destruct (has g e) eqn:Hh; [|done].
      by rewrite (He0 g Hgf Hgd Hh) in Hu.
    + intros k' Hin Hnot Hh.
      assert (k' <> g) by (intros ->; apply Hnot, elem_of_app; right; left).
      assert (k' ∉ done) by (intros ?; apply Hnot, elem_of_app; by left).
      rewrite (undefined_at_of_lookup_eq k' e1 e) by (by apply Hsame).
      apply He0; [done|done|].
      by rewrite <- (has_of_lookup_eq k' e1 e) by (by apply Hsame).
  - split; [done|]. intros k' _ _. apply H0.
Qed.

End Step.

(** *** [Validator.check] as a whole *)

Lemma check_data_inv fuel env h sch dat options r d' :
  check_data fuel env h sch dat options = Ok (r, d') ->
  exists n errs0,
    fuel = S n
    /\ (if newDocument options
        then fold_left (required_step env dat) sch (Ok [])
        else Ok []) = Ok errs0
    /\ fields_loop env h (check_data n env h) sch options (keys dat) (errs0, [], dat)
       = Ok (errors r, data r, d')
    /\ valid r = Nat.ltb (List.length (errors r)) 1.
Proof.
  destruct fuel as [|n]; [done|]. cbn [check_data]. unfold check_body.
  destruct (if newDocument options then _ else _) as [errs0| |]; cbn [mbind outcome_bind];
    [|done|done].
  destruct (fields_loop _ _ _ _ _ _ _) as [[[e c] d]| |] eqn:Hloop; cbn [mbind outcome_bind];
    [|done|done].
  intros [= <- <-]. by exists n, errs0.
Qed.

Lemma check_data_sound fuel env h s d o r d' :
  check_data fuel env h s d o = Ok (r, d') -> valid r = false -> errors r <> [].
Proof.
  intros (n & errs0 & _ & _ & _ & Hv)%check_data_inv Hf. rewrite Hf in Hv.
  by destruct (errors r).
Qed.

Lemma check_inv fuel env h sch dat options r :
  check fuel env h sch dat options = Ok r ->
  exists d', check_data fuel env h sch dat options = Ok (r, d').
Proof.
  unfold check. destruct (check_data fuel env h sch dat options) as [[r0 d0]| |];
    cbn [mbind outcome_bind]; [|done|done].
  intros [= <-]. by exists d0.
Qed.

Lemma required_step_strings env dat acc fr errs0 :
  (forall e, acc = Ok e -> forall k v, lookup k e = Some v -> exists m, v = VStr m) ->
  required_step env dat acc fr = Ok errs0 ->
  forall k v, lookup k errs0 = Some v -> exists m, v = VStr m.
Proof.
  intros Hacc. unfold required_step. destruct acc as [e| |]; cbn [mbind outcome_bind];
    [|done|done].
  specialize (Hacc e eq_refl).
  destruct (snd fr) as [b o|]; [|by intros [= <-]].
  destruct (r_required b) as [req|]; [|by intros [= <-]].
  destruct (truthy req && _); [|by intros [= <-]].
  destruct (constraint env req _) as [[cv msg]| |]; cbn [mbind outcome_bind]; [|done|done].
  destruct cv as [| |[]| | | | | | |]; try (by intros [= <-]).
  intros [= <-] k v. unfold set_error. rewrite lookup_set.
  destruct (String.eqb k (fst fr)); [|apply Hacc].
  intros [= <-]. by exists msg.
Qed.

Lemma required_loop_strings env dat sch : forall acc errs0,
    (forall e, acc = Ok e -> forall k v, lookup k e = Some v -> exists m, v = VStr m) ->
    fold_left (required_step env dat) sch acc = Ok errs0 ->
    forall k v, lookup k errs0 = Some v -> exists m, v = VStr m.
Proof.
  induction sch as [|fr sch IH]; intros acc errs0 Hacc; simpl.
  - intros ->. by apply Hacc.
  - apply IH. intros e He. by eapply required_step_strings.
Qed.

Lemma required_defined env dat sch (nd : bool) errs0 :
  (if nd then fold_left (required_step env dat) sch (Ok []) else Ok []) = Ok errs0 ->
  forall k, has k errs0 = true -> undefined_at errs0 k = false.
Proof.
  intros Hreq k Hk. apply has_lookup in Hk as [v Hv].
  unfold undefined_at. rewrite Hv.
  assert (exists m, v = VStr m) as [m ->]; [|done].
  destruct nd.
  - eapply required_loop_strings; [|exact Hreq|exact Hv]. by intros e [= <-].
  - injection Hreq as <-. done.
Qed.

Lemma independent_keys_spec dat k g :
  independent_keys dat = true -> k ∈ keys dat -> g ∈ keys dat -> extends g k = false.
Proof.
  unfold independent_keys. rewrite forallb_forall. intros H Hk Hg.
  apply list_elem_of_In in Hk, Hg. specialize (H k Hk).
  rewrite forallb_forall in H. specialize (H g Hg). by destruct (extends g k).
Qed.

Lemma check_of_data fuel env h sch dat options r d' :
  check_data fuel env h sch dat options = Ok (r, d') ->
  check fuel env h sch dat options = Ok r.
Proof. unfold check. by intros ->. Qed.

(** C2, as amended. For every schema field under the rule [write: 'admin']
    whose name is not that of a member of [Object.prototype], and every
    value present for it in the data that has no own property named
    [constructor], other than a [null] the rule accepts and the store's
    transform sentinels, [Validator.check] rejects the field (an error is
    recorded for it, the result is not valid, and the field is left out of
    the sanitized data) whenever the caller's [authValue] is given, that is
    neither [null] nor [undefined], and is not the boolean [true]. *)
Theorem admin_field_rejected fuel env h sch dat options f b o r :
  lookup f sch = Some (Rules b o) ->
  admin_only b = true ->
  f ∈ keys dat ->
  inherited f = false ->
  own_constructor (get dat f) = false ->
  passes_early (Rules b o) (get dat f) = false ->
  not_admin (authValue options) = true ->
  check fuel env h sch dat options = Ok r ->
  has f (data r) = false /\ marked f (errors r) = true /\ valid r = false.
Proof.
  intros Hl Ha Hin Hown _ He Hn [d' Hc]%check_inv.
  apply check_data_inv in Hc as (n & errs0 & -> & _ & Hloop & Hv).
  assert (Hnot : has f (data r) = false).
  { eapply (loop_not_taken env h (check_data n env h)); eauto.
    intros; by eapply check_data_sound. }
  assert (Hm : marked f (errors r) = true).
  { destruct (loop_marks env h (check_data n env h)
                ltac:(intros; by eapply check_data_sound)
                _ _ _ _ _ _ _ _ Hloop f Hin) as [Hc|Hm]; [|done|congruence|done].
    unfold has. by rewrite Hl. }
  split_and!; [done|done|].
  rewrite Hv. apply marked_nonempty in Hm. by destruct (errors r).
Qed.

(** C4, as amended. The sanitized data of [Validator.check] holds only
    fields that the data has and the schema declares; when the field names
    of the data are distinct and none has the form of an error path below
    another ([g.key], [g[i]...]), no field in it has an error recorded under
    its name; every declared field of the data whose name is not that of a
    member of [Object.prototype] and that has no error recorded under its
    name or below it is in it; when the field names of the data are
    distinct, a field in it whose input value has no own property named
    [constructor] (the type of a value is read from its class) carries its
    input value, or, when the field goes by the type SubModel and the model
    has a registered schema, the sanitized data of the nested
    [Validator.check] of that value against the model's schema; and [valid]
    is [true] exactly when the error map is empty. *)
Theorem check_sanitized fuel env h sch dat options r :
  check fuel env h sch dat options = Ok r ->
  (forall f, has f (data r) = true -> f ∈ keys dat /\ has f sch = true)
  /\ (NoDup (keys dat) -> independent_keys dat = true ->
      forall f, has f (data r) = true -> has f (errors r) = false)
  /\ (forall f, f ∈ keys dat -> has f sch = true -> inherited f = false ->
                marked f (errors r) = false -> has f (data r) = true)
  /\ (NoDup (keys dat) ->
      forall f v, lookup f (data r) = Some v -> own_constructor (get dat f) = false ->
                  v = get dat f
                  \/ exists d, sanitized_copy fuel env h sch options f (get dat f) d
                               /\ v = VObj KObject d)
  /\ (valid r = true <-> errors r = []).
Proof.
  intros [d' Hc]%check_inv.
  apply check_data_inv in Hc as (n & errs0 & -> & Hreq & Hloop & Hv).
  assert (Hs : forall s d o r d', check_data n env h s d o = Ok (r, d') ->
                                  valid r = false -> errors r <> [])
    by (intros; by eapply check_data_sound).
  split_and!.
  - by eapply loop_cleaned_declared.
  - intros Hnd Hind. eapply loop_no_error; eauto.
    + intros k g Hk Hg. by eapply independent_keys_spec.
    + by eapply required_defined.
  - intros f Hin Hsch Hown Hm.
    destruct (loop_marks env h _ Hs _ _ _ _ _ _ _ _ Hloop f Hin Hsch Hown); [done|congruence].
  - intros Hnd f v Hf _.
    destruct (loop_values env h _ Hs _ _ _ _ _ _ _ _ Hnd Hloop f v Hf)
      as [?|(d & (b & o & m & sub & res & d0 & Hl & Ht & Hm & Hsub & Hchk & Hval & ->) & ->)];
      [by left|].
    right. exists (data res). split; [|done].
    exists n, b, o, m, sub, res. split_and!; try done. by eapply check_of_data.
  - rewrite Hv. by destruct (errors r).
Qed.

Lemma admin_field_rejected_witness :
  check 1 Sample.env ∅ Sample.token_schema Sample.token_data (Sample.opts false (VStr "123"))
  = Ok Sample.token_rejected
  /\ has "token" (data Sample.token_rejected) = false
  /\ marked "token" (errors Sample.token_rejected) = true
  /\ valid Sample.token_rejected = false.
Proof.
  split; [reflexivity|].
  apply (admin_field_rejected 1 Sample.env ∅ Sample.token_schema Sample.token_data
           (Sample.opts false (VStr "123")) "token"
           (with_write "admin" no_rules) OfNone Sample.token_rejected);
    try reflexivity.
  apply list_elem_of_In. vm_compute. by left.
Defined.

(** C2 as stated fails: with an [authValue] of [null] (the value an entity
    starts with), which is not the boolean [true], the admin field is
    accepted. *)
Lemma admin_field_accepted_without_auth :
  VNull <> VBool true
  /\ lookup "token" Sample.token_schema = Some (rule (with_write "admin" no_rules))
  /\ check 1 Sample.env ∅ Sample.token_schema Sample.token_data (Sample.opts false VNull)
     = Ok Sample.token_accepted
  /\ has "token" (data Sample.token_accepted) = true
  /\ errors Sample.token_accepted = [].
Proof. by vm_compute. Qed.

(** A field that bears the name of a member of [Object.prototype] is
    passed over, [errors[field]] answering with that member: an admin field
    named [valueOf] gets no error and is not in the sanitized data, and a
    required field named [toString] is not missed. *)
Lemma inherited_name_passed_over :
  check 1 Sample.env ∅ [("valueOf", rule (with_write "admin" no_rules))]
    [("valueOf", VStr "x")] (Sample.opts false (VStr "user"))
  = Ok {| valid := true; data := []; errors := [] |}
  /\ check 1 Sample.env ∅ [("toString", rule (with_required (VBool true) no_rules))]
       [] (Sample.opts true VNull)
     = Ok {| valid := true; data := []; errors := [] |}.
Proof. split; reflexivity. Qed.

Lemma check_sanitized_witness :
  check 1 Sample.env ∅ Sample.title_schema Sample.title_data (Sample.opts true VUndefined)
  = Ok Sample.title_result
  /\ (forall f, has f (data Sample.title_result) = true ->
                f ∈ keys Sample.title_data /\ has f Sample.title_schema = true).
Proof.
  split; [reflexivity|].
  apply (check_sanitized 1 Sample.env ∅ Sample.title_schema Sample.title_data
           (Sample.opts true VUndefined) Sample.title_result).
  reflexivity.
Defined.

(** C4 as stated fails: under a SubModel rule the sanitized data carries the
    sanitized copy of the value, without the property [floor], not the input
    value. *)
Lemma submodel_value_not_verbatim :
  check 2 Sample.env ∅ Sample.user_schema Sample.user_data (Sample.opts false VNull)
  = Ok Sample.user_result
  /\ errors Sample.user_result = []
  /\ lookup "address" (data Sample.user_result) = Some (obj [("zip", VStr "10000")])
  /\ lookup "address" (data Sample.user_result) <> lookup "address" Sample.user_data.
Proof. by vm_compute. Qed.

(** The nested error of a reference is recorded under [topic.name], the
    name of a field that was taken. *)
Lemma error_under_a_taken_name :
  (r ← check 2 Sample.env Sample.topic_heap Sample.dotted_schema Sample.dotted_data
         (Sample.opts false VNull);
   Ok (has "topic.name" (data r), has "topic.name" (errors r)))
  = Ok (true, true).
Proof. by vm_compute. Qed.

End CheckFacts.

(** ** Query: cursors and the bulk update path *)

Module QueryFacts.
Import Query QuerySpec.







Lemma truthy_at_in_diff dat f :
  inherited f = false -> truthy_at dat f = true -> in_diff dat f = true.
Proof.
  unfold in_diff, truthy_at, Props.has. destruct (Props.lookup f dat); [done|congruence].
Qed.

Lemma truthy_at_own dat f :
  in_diff dat f = true -> truthy_at dat f = truthy (Props.get dat f).
Proof.
  unfold in_diff, truthy_at, Props.has, Props.get. by destruct (Props.lookup f dat).
Qed.

(** What [update] decides, field by field. *)
Lemma useModel_spec registered sch dat callbacks :
  useModel registered sch dat callbacks = true <->
  (Validator.is_false callbacks = false /\ save_hooks registered = true)
  \/ exists f r, (f, r) ∈ sch
       /\ ((truthy_at dat f = true /\ is_reference r = true)
           \/ unique_set r = true).
Proof.
  unfold useModel. split.
  - destruct (negb (Validator.is_false callbacks) && save_hooks registered) eqn:Hh.
    + intros _. left. apply andb_prop in Hh as [Hc Hs].
      by apply negb_true_iff in Hc.
    + intros Hex. right. apply existsb_exists in Hex as ([f r] & Hin & Hp).
      exists f, r. split; [by apply list_elem_of_In|].
      cbn in Hp. apply orb_prop in Hp as [Hp|Hp]; [left|by right].
      by apply andb_prop in Hp.
  - intros [[Hc Hs]|(f & r & Hin & Hp)].
    + by rewrite Hc, Hs.
    + destruct (negb _ && _); [done|].
      apply existsb_exists. exists (f, r). split; [by apply list_elem_of_In|].
      cbn. destruct Hp as [[-> ->]| ->]; [done|]. apply orb_true_r.
Qed.

(** The field test of the code and the documented one agree on a schema
    without a unique field, when the Reference fields of the diff hold
    truthy values and no Reference field bears the name of a member of
    [Object.prototype]. *)
Lemma field_tests_agree sch dat :
  (forall f r, (f, r) ∈ sch -> unique_set r = false) ->
  (forall f r, (f, r) ∈ sch -> is_reference r = true -> inherited f = false) ->
  (forall f r, (f, r) ∈ sch -> is_reference r = true -> in_diff dat f = true ->
               truthy (Props.get dat f) = true) ->
  existsb (fun fr => (truthy_at dat (fst fr) && is_reference (snd fr))
                     || unique_set (snd fr)) sch
  = existsb (fun fr => in_diff dat (fst fr)
                       && (is_reference (snd fr) || unique_set (snd fr))) sch.
Proof.
  induction sch as [|[f r] sch IH]; intros Hu Hi Ht; [done|].
  cbn [existsb fst snd]. rewrite IH.
  - f_equal. rewrite (Hu f r) by apply list_elem_of_here.
    rewrite !orb_false_r.
    destruct (is_reference r) eqn:Hr; [|by rewrite !andb_false_r].
    rewrite !andb_true_r.
    destruct (in_diff dat f) eqn:Hd.
    + rewrite truthy_at_own by done.
      apply (Ht f r); [apply list_elem_of_here|done|done].
    + destruct (truthy_at dat f) eqn:Hv; [|done].
      apply truthy_at_in_diff in Hv; [congruence|].
      apply (Hi f r); [apply list_elem_of_here|done].
  - intros g s Hin. apply (Hu g s). by apply list_elem_of_further.
  - intros g s Hin. apply (Hi g s). by apply list_elem_of_further.
  - intros g s Hin. apply (Ht g s). by apply list_elem_of_further.
Qed.

(** C6, where it holds: on a formatted schema in which no field has
    [unique] set and no Reference field bears the name of a member of
    [Object.prototype], and for a diff whose Reference fields hold truthy
    values, a bulk update materializes entities exactly when save hooks are
    registered and not disabled or a field of the diff is a Reference or
    unique field. *)
Theorem useModel_as_documented registered sch dat callbacks :
  (forall f r, (f, r) ∈ sch -> unique_set r = false) ->
  (forall f r, (f, r) ∈ sch -> is_reference r = true -> inherited f = false) ->
  (forall f r, (f, r) ∈ sch -> is_reference r = true -> in_diff dat f = true ->
               truthy (Props.get dat f) = true) ->
  useModel registered sch dat callbacks
  = documented_useModel registered sch dat callbacks.
Proof.
  intros Hu Hi Ht. unfold useModel, documented_useModel.
  destruct (negb (Validator.is_false callbacks) && save_hooks registered); [done|].
  by apply field_tests_agree.
Qed.

Lemma useModel_as_documented_witness :
  useModel [] SampleQuery.article_schema SampleQuery.author_diff VUndefined
  = documented_useModel [] SampleQuery.article_schema SampleQuery.author_diff VUndefined.
Proof.
  apply (useModel_as_documented [] SampleQuery.article_schema SampleQuery.author_diff
           VUndefined).
  - intros f r Hin. unfold SampleQuery.article_schema in Hin.
    repeat (apply elem_of_cons in Hin as [[= -> ->]|Hin]); [done|done|].
    by apply elem_of_nil in Hin.
  - intros f r Hin. unfold SampleQuery.article_schema in Hin.
    repeat (apply elem_of_cons in Hin as [[= -> ->]|Hin]); [done|done|].
    by apply elem_of_nil in Hin.
  - intros f r Hin. unfold SampleQuery.article_schema in Hin.
    repeat (apply elem_of_cons in Hin as [[= -> ->]|Hin]); [done|done|].
    by apply elem_of_nil in Hin.
Defined.

(** C6 fails in the code: the formatted schema has a unique String field
    that the diff [{ title: 'x' }] does not touch and no hook is registered,
    yet entities are materialized. *)
Lemma bulk_update_untouched_unique :
  useModel [] SampleQuery.account_schema SampleQuery.title_diff VUndefined = true
  /\ documented_useModel [] SampleQuery.account_schema SampleQuery.title_diff VUndefined
     = false
  /\ update_path_of [] SampleQuery.account_schema SampleQuery.title_diff
       VUndefined VUndefined = PerEntity.
Proof. by vm_compute. Qed.

End QueryFacts.

(** ** Collection: what the traps keep *)

Module CollectionFacts.
Import Props Collection CollectionSpec JsStringFacts PropsFacts.

Lemma digit_not_x c : is_digit c = true -> ascii_in c "xX" = false.
Proof. by destruct c as [[] [] [] [] [] [] [] []]; vm_compute. Qed.

Lemma digits_parseInt s :
  chars s <> [] -> forallb is_digit (chars s) = true -> isNaN_parseInt s = false.
Proof.
  intros Hne Hd. unfold isNaN_parseInt, trim_start.
  rewrite (drop_spaces_digits _ Hd).
  destruct (chars s) as [|z l]; [done|]. cbn [strip_sign forallb] in *.
  apply andb_prop in Hd as [Hz Hl]. rewrite (digit_not_sign _ Hz).
  destruct l as [|p ds]; [by rewrite Hz|].
  cbn [forallb] in Hl. apply andb_prop in Hl as [Hp _].
  by rewrite (digit_not_x _ Hp), andb_false_r, Hz.
Qed.

Lemma index_parseInt k i : array_index k = Some i -> isNaN_parseInt k = false.
Proof. intros H. apply array_index_digits in H as [? ?]. by apply digits_parseInt. Qed.

Lemma uint_digits d : forallb is_digit (chars (NilEmpty.string_of_uint d)) = true.
Proof. induction d; cbn; by rewrite ?IHd. Qed.

Lemma string_of_N_digits n :
  chars (string_of_N n) <> [] /\ forallb is_digit (chars (string_of_N n)) = true.
Proof.
  unfold string_of_N, NilZero.string_of_uint.
  destruct (N.to_uint n) eqn:E; try (split; [done|]; apply (uint_digits (_ _))).
  by split.
Qed.


Lemma lookup_filter_key (p : string -> bool) k (ps : props) :
  lookup k (List.filter (fun kv => p (fst kv)) ps) = if p k then lookup k ps else None.
Proof.
  induction ps as [|[k0 w] tl IH]; cbn [List.filter lookup fst]; [by destruct (p k)|].
  destruct (p k0) eqn:Hk0; cbn [lookup].
  - destruct (String.eqb_spec k k0) as [->|]; [by rewrite Hk0|done].
  - destruct (String.eqb_spec k k0) as [->|]; [by rewrite IH, Hk0|done].
Qed.


Lemma index_not_reserved k i :
  array_index k = Some i ->
  String.eqb k "length" = false
  /\ bool_decide (k ∈ ["model"; "path"; "deleted"]) = false.
Proof.
  intros Hk. split.
  - destruct (String.eqb_spec k "length") as [->|]; [by vm_compute in Hk|done].
  - apply bool_decide_eq_false. intros Hin.
    repeat (apply elem_of_cons in Hin as [->|Hin]; [by vm_compute in Hk|]).
    by apply elem_of_nil in Hin.
Qed.

Lemma Reflect_index target k i w :
  array_index k = Some i -> Reflect_defineProperty target k w = Ok (define target k i w).
Proof.
  intros Hk. unfold Reflect_defineProperty, define.
  destruct (index_not_reserved k i Hk) as [-> ->]. by rewrite Hk.
Qed.


Section Traps.
Variable init : ctor -> props -> heap -> outcome (props * props * heap).

(** The trap at an array index. *)
Lemma defineProperty_index h c k i v :
  array_index k = Some i ->
  defineProperty init h c k v =
    let cur := get (items c) k in
    if negb (truthy cur) && isModelInstance v then Ok (define c k i v, h)
    else if negb (isModelInstance v) && (negb (truthy v) || negb (is_plain v))
    then Throw (Error ("Invalid value type '" +:+ constructorName v
                         +:+ "'. Expecting Object or Model instance"))
    else
      displaced ← (if truthy cur && isModelInstance cur then has_id h cur
                   else Ok false);
      '(w, h') ← (if isModelInstance v then Ok (v, h)
                  else new_model init (model c) (own_props v) h);
      Ok (define (if displaced : bool then push_deleted c cur else c) k i w, h').
Proof.
  intros Hk. unfold defineProperty. rewrite (index_parseInt k i Hk). cbn [orb].
  destruct (negb (truthy (get (items c) k)) && isModelInstance v).
  { by rewrite (Reflect_index c k i v Hk). }
  destruct (negb (isModelInstance v) && _); [done|].
  destruct (if truthy _ && _ then _ else _) as [d| |]; cbn; [|done|done].
  destruct (if isModelInstance v then _ else _) as [[w h']| |]; cbn; [|done|done].
  by rewrite (Reflect_index _ k i w Hk).
Qed.











End Traps.



(** Assignment over a stored entity: the displaced entity is queued for
    deletion and the plain object becomes a [Post]. *)
Lemma assignment_displaces_stored_post :
  (r ← assign_index SampleCollection.plain_init SampleCollection.blog_heap
         SampleCollection.posts 0 SampleCollection.new_title;
   Ok (items (fst r), deleted (fst r)))
  = Ok ([("0", VModel Sample.Post 4)], [VModel Sample.Post 1]).
Proof. by vm_compute. Qed.

End CollectionFacts.

(** ** The data that [save] writes *)

Module OutgoingFacts.
Import Props RunSpec PropsFacts JsStringFacts.















Local Abbreviation below sep path :=
  (fun kv : string * value => exists rest, fst kv = join sep (path ++ rest)).







End OutgoingFacts.

(** ** Runs: what every step keeps *)

Module RunFacts.
Import RunSpec.

Section Steps.
Variable Q : list (string * list callback) -> Prop.
Variable ok : event -> Prop.

Lemma run_inv_same {A} (m : io A) :
  (forall w, w_callbacks (m w).2 = w_callbacks w /\ w_trace (m w).2 = w_trace w) ->
  run_inv Q ok m.
Proof.
  intros H w HQ. destruct (H w) as [-> ->]. split; [done|].
  exists []. by rewrite app_nil_r.
Qed.

Lemma run_inv_ret {A} (a : A) : run_inv Q ok (mret a).
Proof. by apply run_inv_same. Qed.

Lemma run_inv_throw {A} e : run_inv Q ok (@IO.throw A e).
Proof. by apply run_inv_same. Qed.

Lemma run_inv_out_of_fuel {A} : run_inv Q ok (@IO.out_of_fuel A).
Proof. by apply run_inv_same. Qed.

Lemma run_inv_lift {A} (o : outcome A) : run_inv Q ok (IO.lift o).
Proof. by apply run_inv_same. Qed.

Lemma run_inv_get_heap : run_inv Q ok IO.get_heap.
Proof. by apply run_inv_same. Qed.

Lemma run_inv_put_heap h : run_inv Q ok (IO.put_heap h).
Proof. by apply run_inv_same. Qed.

Lemma run_inv_get_trace : run_inv Q ok IO.get_trace.
Proof. by apply run_inv_same. Qed.

Lemma run_inv_auto_id : run_inv Q ok IO.auto_id.
Proof. by apply run_inv_same. Qed.

Lemma run_inv_log ev : ok ev -> run_inv Q ok (IO.log ev).
Proof.
  intros Hev w HQ. split; [done|]. exists [ev]. split; [done|]. by constructor.
Qed.

Lemma run_inv_bind {A B} (m : io A) (f : A -> io B) :
  run_inv Q ok m -> (forall a, run_inv Q ok (f a)) -> run_inv Q ok (m ≫= f).
Proof.
  intros Hm Hf w HQ. destruct (Hm w HQ) as (HQ1 & evs1 & Ht1 & Hok1).
  unfold mbind, io_bind, IO.bind.
  destruct (m w) as [[a|e|] w1] eqn:E; cbn in *;
    [|split; [done|]; by exists evs1..].
  destruct (Hf a w1 HQ1) as (HQ2 & evs2 & Ht2 & Hok2). split; [done|].
  exists (evs1 ++ evs2). rewrite Ht2, Ht1, app_assoc. split; [done|].
  by apply Forall_app.
Qed.

Lemma run_inv_catch {A} (m : io A) : run_inv Q ok m -> run_inv Q ok (IO.catch m).
Proof.
  intros Hm w HQ. specialize (Hm w HQ). unfold IO.catch.
  by destruct (m w) as [[a|e|] w1].
Qed.

Lemma run_inv_for_each {A} (f : A -> io unit) l :
  (forall x, run_inv Q ok (f x)) -> run_inv Q ok (IO.for_each f l).
Proof.
  intros Hf. induction l as [|x l IH]; cbn [IO.for_each].
  - apply (run_inv_ret tt).
  - apply (run_inv_bind (f x)); [apply Hf|]. intros _. apply IH.
Qed.

End Steps.

Section Invariant.
Variable rt : Runtime.
Variable depth : nat.
Variable Q : list (string * list callback) -> Prop.
Variable ok : event -> Prop.
(** The [callbacks] option of the run. *)
Variable cb0 : value.

Hypothesis ok_staged : forall sid w, ok (Staged sid w).
Hypothesis ok_committed : forall sid, ok (Committed sid).
Hypothesis ok_rejected : forall sid, ok (Rejected sid).
Hypothesis Q_clear : forall sid cbs, Q cbs -> Q (Props.remove sid cbs).
Hypothesis Q_reset : forall sid this m cbs,
    m ∈ ["resetChanges"; "resetProperties"] -> Q cbs ->
    Q (Props.set sid (Storage.queue_of sid cbs
                        ++ [{| cb_model := this; cb_method := m; cb_args := [] |}]) cbs).
Hypothesis ok_queued : forall sid cbs cb,
    Q cbs -> cb ∈ Storage.queue_of sid cbs -> cb_method cb ∈ Instance.lifecycle_hooks ->
    ok (Called (cb_model cb) (cb_method cb) (cb_args cb)).
Hypothesis save_hooks : Model.callbacks_is cb0 "afterSave" = true ->
    (forall this, ok (Called this "beforeSave" []))
    /\ (forall sid this args cbs, Q cbs ->
          Q (Props.set sid (Storage.queue_of sid cbs
                ++ [{| cb_model := this; cb_method := "afterSave"; cb_args := args |}])
               cbs)).
Hypothesis before_delete : Model.callbacks_is cb0 "beforeDelete" = true ->
    forall this, ok (Called this "beforeDelete" []).
Hypothesis after_delete : Model.callbacks_is cb0 "afterDelete" = true ->
    forall sid this cbs, Q cbs ->
      Q (Props.set sid (Storage.queue_of sid cbs
            ++ [{| cb_model := this; cb_method := "afterDelete"; cb_args := [] |}]) cbs).

Local Ltac run_simple :=
  first [ apply run_inv_ret | apply run_inv_throw | apply run_inv_out_of_fuel
        | apply run_inv_lift | apply run_inv_get_heap | apply run_inv_put_heap
        | apply run_inv_get_trace | apply run_inv_auto_id
        | apply run_inv_log; solve [auto] ].

Lemma run_inv_read this : run_inv Q ok (Instance.read this).
Proof.
  unfold Instance.read. apply run_inv_bind; [run_simple|]. intros h.
  destruct this; try run_simple. destruct (h !! a); run_simple.
Qed.

Lemma run_inv_modify this f : run_inv Q ok (Instance.modify this f).
Proof.
  unfold Instance.modify. apply run_inv_bind; [apply run_inv_read|]. intros e.
  apply run_inv_bind; [run_simple|]. intros h. destruct this; run_simple.
Qed.

Lemma run_inv_storeCallback sid this m args :
  (forall cbs, Q cbs ->
     Q (Props.set sid (Storage.queue_of sid cbs
           ++ [{| cb_model := this; cb_method := m; cb_args := args |}]) cbs)) ->
  run_inv Q ok (Storage.storeCallback sid this m args).
Proof.
  intros H w HQ. cbn. split; [by apply H|]. exists []. by rewrite app_nil_r.
Qed.

Lemma run_inv_clearCallbacks sid : run_inv Q ok (Storage.clearCallbacks sid).
Proof.
  intros w HQ. cbn. split; [by apply Q_clear|]. exists []. by rewrite app_nil_r.
Qed.

(** What follows [getCallbacks] may rely on the queue it is given. *)
Lemma run_inv_getCallbacks {A} sid (k : list callback -> io A) :
  (forall cbs, Q cbs -> run_inv Q ok (k (Storage.queue_of sid cbs))) ->
  run_inv Q ok (Storage.getCallbacks sid ≫= k).
Proof. intros H w HQ. apply (H (w_callbacks w) HQ w HQ). Qed.

Lemma run_inv_call_hook method this args :
  ok (Called this method args) ->
  run_inv Q ok (Instance.call_hook rt method this args).
Proof.
  intros Hok. unfold Instance.call_hook.
  apply run_inv_bind; [by apply run_inv_log|]. intros _.
  apply run_inv_bind; [run_simple|]. intros h.
  destruct (hook rt method this args h) as [e|[r h']]; [run_simple|].
  apply run_inv_bind; [run_simple|]. intros _. run_simple.
Qed.

Lemma run_inv_run_callback cb :
  (cb_method cb ∈ Instance.lifecycle_hooks ->
   ok (Called (cb_model cb) (cb_method cb) (cb_args cb))) ->
  run_inv Q ok (Instance.run_callback rt cb).
Proof.
  intros Hok. unfold Instance.run_callback.
  destruct (bool_decide_reflect (cb_method cb ∈ Instance.lifecycle_hooks)) as [Hin|_].
  - apply run_inv_bind; [by apply run_inv_call_hook, Hok|]. intros _. run_simple.
  - destruct (String.eqb _ "resetChanges"); [apply run_inv_modify|].
    destruct (String.eqb _ "resetProperties"); [apply run_inv_modify|run_simple].
Qed.

Lemma run_inv_run_all cbs first :
  (forall cb, cb ∈ cbs -> cb_method cb ∈ Instance.lifecycle_hooks ->
     ok (Called (cb_model cb) (cb_method cb) (cb_args cb))) ->
  run_inv Q ok (Firesnap.run_all rt cbs first).
Proof.
  revert first. induction cbs as [|cb cbs IH]; intros first Hok; cbn [Firesnap.run_all].
  - destruct first; run_simple.
  - apply run_inv_bind.
    + apply run_inv_catch, run_inv_run_callback. apply Hok, list_elem_of_here.
    + intros r. apply IH. intros cb' Hin. apply Hok. by apply list_elem_of_further.
Qed.

Lemma run_inv_store_applies sid : run_inv Q ok (Firesnap.store_applies rt sid).
Proof.
  unfold Firesnap.store_applies. apply run_inv_bind; [run_simple|]. intros tr.
  destruct (store_commit rt _); [|run_simple].
  apply run_inv_bind; [run_simple|]. intros _. run_simple.
Qed.

Lemma run_inv_commit s : run_inv Q ok (Firesnap.commit rt s).
Proof.
  unfold Firesnap.commit. apply run_inv_bind.
  - apply run_inv_catch. apply run_inv_bind; [apply run_inv_store_applies|]. intros _.
    apply run_inv_getCallbacks. intros cbs HQ. apply run_inv_run_all.
    intros cb Hin Hh. by apply (ok_queued (sessId s) cbs).
  - intros r. apply run_inv_bind; [apply run_inv_clearCallbacks|]. intros _.
    destruct r; run_simple.
Qed.

Lemma run_inv_stage s w : run_inv Q ok (Firesnap.stage s w).
Proof. unfold Firesnap.stage. by apply run_inv_log. Qed.

Lemma run_inv_batch b : run_inv Q ok (Firesnap.batch b).
Proof.
  unfold Firesnap.batch. apply run_inv_bind; [run_simple|]. intros sid. run_simple.
Qed.

Lemma run_inv_session_of params : run_inv Q ok (Model.session_of params).
Proof.
  unfold Model.session_of. destruct (Model.p_session params); [run_simple|apply run_inv_batch].
Qed.

Lemma run_inv_Collection_delete fuel : forall path s recurring,
  run_inv Q ok (Model.Collection_delete rt fuel path s recurring).
Proof.
  induction fuel as [|fuel IH]; intros path s recurring; cbn [Model.Collection_delete];
    [run_simple|].
  destruct (Model.no_inner_slash path); [run_simple|].
  apply run_inv_bind; [destruct s; [run_simple|apply run_inv_batch]|]. intros sess.
  apply run_inv_bind.
  { apply run_inv_for_each. intros doc. apply run_inv_stage. }
  intros _. apply run_inv_bind.
  { apply run_inv_for_each. intros doc. apply run_inv_for_each. intros col. apply IH. }
  intros _. destruct (internal sess && negb recurring); [apply run_inv_commit|run_simple].
Qed.

Lemma run_inv_reset sid this m :
  m ∈ ["resetChanges"; "resetProperties"] ->
  run_inv Q ok (Storage.storeCallback sid this m []).
Proof. intros Hm. apply run_inv_storeCallback. intros cbs. by apply Q_reset. Qed.

Lemma run_inv_delete this params :
  Model.p_callbacks params = cb0 -> run_inv Q ok (Model.delete rt depth this params).
Proof.
  intros Hcb. unfold Model.delete. rewrite Hcb. apply run_inv_bind.
  { destruct (Model.callbacks_is cb0 "beforeDelete") eqn:Hb; [|run_simple].
    apply run_inv_bind; [by apply run_inv_call_hook, before_delete|].
    intros r. run_simple. }
  intros go. destruct (negb go); [run_simple|].
  apply run_inv_bind; [apply run_inv_read|]. intros e.
  destruct (getRef e) as [ref|]; [|run_simple].
  apply run_inv_bind; [apply run_inv_session_of|]. intros sess.
  apply run_inv_bind.
  { apply run_inv_for_each. intros col. apply run_inv_Collection_delete. }
  intros _. apply run_inv_bind; [apply run_inv_stage|]. intros _.
  apply run_inv_bind.
  { destruct (Model.callbacks_is cb0 "afterDelete") eqn:Ha; [|run_simple].
    apply run_inv_storeCallback. intros cbs. by apply after_delete. }
  intros _. apply run_inv_bind; [|intros _; run_simple].
  destruct (internal sess && negb (Model.p_recurring params)).
  - apply run_inv_bind; [apply run_inv_commit|]. intros _. apply run_inv_modify.
  - apply run_inv_reset. apply list_elem_of_further, list_elem_of_here.
Qed.

Section Nested.
Variable rec : value -> Model.SaveParams -> io bool.
Hypothesis run_inv_rec : forall this params,
    Model.p_callbacks params = cb0 -> run_inv Q ok (rec this params).

Lemma run_inv_change_data this params :
  run_inv Q ok (Model.change_data rt depth this params).
Proof.
  unfold Model.change_data, Model.validated.
  destruct (negb _).
  - apply run_inv_bind; [run_simple|]. intros h. destruct this; try run_simple.
    apply run_inv_bind; [run_simple|]. intros r. destruct (negb _); run_simple.
  - apply run_inv_bind; [apply run_inv_read|]. intros e. run_simple.
Qed.

Lemma run_inv_save_references params flat :
  Model.p_callbacks params = cb0 ->
  run_inv Q ok (Model.save_references rec params flat).
Proof.
  intros Hcb. induction flat as [|[path v] tl IH]; cbn [Model.save_references];
    [run_simple|].
  destruct (isModelInstance v); [|done].
  apply run_inv_bind; [apply run_inv_read|]. intros e.
  apply run_inv_bind.
  { destruct (_ && _); [run_simple|].
    apply run_inv_bind; [by apply run_inv_rec|]. intros _. run_simple. }
  intros _. apply run_inv_bind; [done|]. intros rest. run_simple.
Qed.

Lemma run_inv_documents_of requests : forall flat,
  run_inv Q ok (Model.documents_of rt requests flat).
Proof.
  induction requests as [|[path v] tl IH]; intros flat; cbn [Model.documents_of];
    [run_simple|].
  apply run_inv_bind; [apply run_inv_read|]. intros e.
  destruct v; try run_simple. destruct (getRef e); [|run_simple].
  apply run_inv_bind; [run_simple|]. intros doc. apply IH.
Qed.

Lemma run_inv_outgoing this params sess :
  Model.p_callbacks params = cb0 ->
  run_inv Q ok (Model.outgoing rt depth rec this params sess).
Proof.
  intros Hcb. unfold Model.outgoing.
  apply run_inv_bind; [apply run_inv_change_data|]. intros dat.
  apply run_inv_bind; [apply run_inv_read|]. intros e.
  apply run_inv_bind; [run_simple|]. intros flatData.
  apply run_inv_bind; [by apply run_inv_save_references|]. intros requests.
  apply run_inv_bind; [apply run_inv_documents_of|]. intros flatDocs.
  apply run_inv_bind; [|intros dat'; run_simple].
  destruct (Model.is_nil requests); [run_simple|].
  apply run_inv_bind; [run_simple|]. intros ex. run_simple.
Qed.

Lemma run_inv_write_document this params sess ex fireData :
  run_inv Q ok (Model.write_document rt this params sess ex fireData).
Proof.
  unfold Model.write_document. apply run_inv_bind; [apply run_inv_read|]. intros e.
  destruct ex.
  - destruct (getRef e); [apply run_inv_stage|run_simple].
  - apply run_inv_bind.
    { destruct (e_docId e) as [d|]; [destruct (String.eqb d "")|]; run_simple. }
    intros id. apply run_inv_bind; [apply run_inv_stage|]. intros _.
    apply run_inv_modify.
Qed.

Lemma run_inv_sweep params keys : forall deleted,
  Model.p_callbacks params = cb0 ->
  run_inv Q ok (Model.sweep rt depth params keys deleted).
Proof.
  induction keys as [|i tl IH]; intros deleted Hcb; cbn [Model.sweep]; [run_simple|].
  destruct (deleted !! i) as [v|]; [|by apply IH].
  apply run_inv_bind; [run_simple|]. intros h.
  apply run_inv_bind; [run_simple|]. intros [|]; [|by apply IH].
  apply run_inv_bind; [by apply run_inv_delete|]. intros _. by apply IH.
Qed.

Lemma run_inv_save_member this params field items i :
  Model.p_callbacks params = cb0 ->
  run_inv Q ok (Model.save_member rec this params field items i).
Proof.
  intros Hcb. unfold Model.save_member.
  destruct (Props.get items _); try run_simple.
  apply run_inv_bind; [apply run_inv_read|]. intros m.
  destruct (Model.is_nil _); [run_simple|].
  apply run_inv_bind; [apply run_inv_read|]. intros e.
  apply run_inv_bind; [by apply run_inv_rec|]. intros _. run_simple.
Qed.

Lemma run_inv_save_collection this params field :
  Model.p_callbacks params = cb0 ->
  run_inv Q ok (Model.save_collection rt depth rec this params field).
Proof.
  intros Hcb. unfold Model.save_collection.
  apply run_inv_bind; [apply run_inv_read|]. intros e.
  destruct (Props.get (e_props e) field); try run_simple.
  apply run_inv_bind; [by apply run_inv_sweep|]. intros deleted'.
  apply run_inv_bind; [apply run_inv_modify|]. intros _.
  apply run_inv_for_each. intros i. by apply run_inv_save_member.
Qed.
Lemma run_inv_prepare this params :
  Model.p_callbacks params = cb0 ->
  run_inv Q ok (Model.prepare rt depth rec this params).
Proof.
  intros Hcb. unfold Model.prepare. rewrite Hcb.
  apply run_inv_bind; [apply run_inv_read|]. intros e.
  apply run_inv_bind.
  { destruct (Model.callbacks_is cb0 "afterSave") eqn:Hs; [|run_simple].
    apply run_inv_bind; [by apply run_inv_call_hook, save_hooks|].
    intros r. run_simple. }
  intros go. destruct (negb go); [run_simple|].
  apply run_inv_bind; [apply run_inv_session_of|]. intros sess.
  apply run_inv_bind; [by apply run_inv_outgoing|]. intros fireData. run_simple.
Qed.

Lemma run_inv_persist this params sess ex fireData :
  Model.p_callbacks params = cb0 ->
  run_inv Q ok (Model.persist rt depth rec this params sess ex fireData).
Proof.
  intros Hcb. unfold Model.persist. rewrite Hcb.
  apply run_inv_bind; [apply run_inv_write_document|]. intros _.
  apply run_inv_bind; [apply run_inv_read|]. intros e1.
  apply run_inv_bind.
  { apply run_inv_for_each. intros field. by apply run_inv_save_collection. }
  intros _. apply run_inv_bind.
  { destruct (Model.callbacks_is cb0 "afterSave") eqn:Hs; [|run_simple].
    apply run_inv_storeCallback. intros cbs. by apply save_hooks. }
  intros _. apply run_inv_bind.
  { destruct (negb (Model.p_recurring params) && internal sess).
    - apply run_inv_bind; [apply run_inv_commit|]. intros _. apply run_inv_modify.
    - apply run_inv_reset. apply list_elem_of_here. }
  intros _. apply run_inv_bind; [|intros _; run_simple].
  destruct (negb ex && populatePrimaryKey rt); [apply run_inv_modify|run_simple].
Qed.

Lemma run_inv_save_body this params :
  Model.p_callbacks params = cb0 ->
  run_inv Q ok (Model.save_body rt depth rec this params).
Proof.
  intros Hcb. unfold Model.save_body.
  apply run_inv_bind; [by apply run_inv_prepare|]. intros [[[sess fireData] ex]|];
    [|run_simple].
  destruct (Model.is_nil fireData); [run_simple|]. by apply run_inv_persist.
Qed.

End Nested.

(** Every run of [save] keeps [Q] and appends only events that satisfy
    [ok]. *)
Lemma run_inv_save fuel : forall this params,
  Model.p_callbacks params = cb0 ->
  run_inv Q ok (Model.save rt depth fuel this params).
Proof.
  induction fuel as [|fuel IH]; intros this params Hcb; cbn [Model.save];
    [run_simple|].
  by apply run_inv_save_body.
Qed.

End Invariant.

End RunFacts.

(** ** Model.save: hooks and writes *)

Module SaveFacts.
Import RunSpec RunFacts PropsFacts.

(** The trace of a run of [save] extends the trace it starts from. *)
Lemma save_trace_grows rt depth fuel this params w :
  exists evs, w_trace (Model.save rt depth fuel this params w).2 = w_trace w ++ evs.
Proof.
  destruct (run_inv_save rt depth (fun _ => True) (fun _ => True)
              (Model.p_callbacks params)
              ltac:(done) ltac:(done) ltac:(done) ltac:(done) ltac:(done) ltac:(done)
              ltac:(done) ltac:(done) ltac:(done) fuel this params eq_refl w I)
    as (_ & evs & Hevs & _).
  by exists evs.
Qed.

Lemma queue_of_set sid sid' q cbs :
  Storage.queue_of sid' (Props.set sid q cbs)
  = if String.eqb sid' sid then q else Storage.queue_of sid' cbs.
Proof. unfold Storage.queue_of. rewrite lookup_set. by destruct (String.eqb sid' sid). Qed.

Lemma queue_of_remove sid sid' cbs :
  Storage.queue_of sid' (Props.remove sid cbs)
  = if String.eqb sid' sid then [] else Storage.queue_of sid' cbs.
Proof.
  unfold Storage.queue_of. rewrite lookup_remove. by destruct (String.eqb sid' sid).
Qed.

Lemma no_hook_queued_remove sid cbs :
  no_hook_queued cbs -> no_hook_queued (Props.remove sid cbs).
Proof.
  intros H sid'. rewrite queue_of_remove. destruct (String.eqb sid' sid); [done|apply H].
Qed.

Lemma no_hook_queued_store sid cb cbs :
  passive cb -> no_hook_queued cbs ->
  no_hook_queued (Props.set sid (Storage.queue_of sid cbs ++ [cb]) cbs).
Proof.
  intros Hcb H sid'. rewrite queue_of_set. destruct (String.eqb sid' sid); [|apply H].
  apply Forall_app. split; [apply H|]. by constructor.
Qed.

(** With [callbacks: 'beforeSave'] and no hook in the queue, a run of
    [save] calls no hook and queues none. *)
Lemma save_without_hooks rt depth fuel this params w :
  Model.p_callbacks params = VStr "beforeSave" ->
  no_hook_queued (w_callbacks w) ->
  no_hook_queued (w_callbacks (Model.save rt depth fuel this params w).2)
  /\ exists evs, w_trace (Model.save rt depth fuel this params w).2 = w_trace w ++ evs
                 /\ Forall (fun ev => is_call ev = false) evs.
Proof.
  intros Hcb Hq.
  apply (run_inv_save rt depth no_hook_queued (fun ev => is_call ev = false)
           (VStr "beforeSave")); try done.
  - apply no_hook_queued_remove.
  - intros sid this' m cbs Hm Hc. apply no_hook_queued_store; [|done].
    unfold passive. cbn.
    repeat (apply elem_of_cons in Hm as [->|Hm];
            [apply (bool_decide_unpack _); by vm_compute|]).
    by apply elem_of_nil in Hm.
  - intros sid cbs cb Hc Hin Hh. specialize (Hc sid).
    rewrite Forall_forall in Hc. by destruct (Hc cb Hin).
Qed.

(** A run that grows the trace, whatever it queues. *)
Local Abbreviation grows m := (run_inv (fun _ => True) (fun _ => True) m).

Lemma grows_trace {A} (m : io A) w :
  grows m -> exists evs, w_trace (m w).2 = w_trace w ++ evs.
Proof. intros H. destruct (H w I) as (_ & evs & ? & _). by exists evs. Qed.

Lemma starts_bind {A B} ev (m : io A) (f : A -> io B) w :
  opens_with ev m w -> (forall a, grows (f a)) -> opens_with ev (m ≫= f) w.
Proof.
  intros [evs Hm] Hf. unfold opens_with, mbind, io_bind, IO.bind.
  destruct (m w) as [[a|e|] w1]; cbn in *; [|by exists evs..].
  destruct (grows_trace (f a) w1 (Hf a)) as [evs2 H2].
  exists (evs ++ evs2). by rewrite H2, Hm, <- app_assoc.
Qed.

Lemma starts_log {A} ev (k : unit -> io A) w :
  (forall u, grows (k u)) -> opens_with ev (IO.log ev ≫= k) w.
Proof.
  intros Hk. unfold opens_with, mbind, io_bind, IO.bind. cbn.
  match goal with |- context [k tt ?w1] =>
    destruct (grows_trace (k tt) w1 (Hk tt)) as [evs H] end.
  exists evs. rewrite H. cbn. by rewrite <- app_assoc.
Qed.

Lemma grows_save rt depth fuel this params : grows (Model.save rt depth fuel this params).
Proof. by apply (run_inv_save rt depth _ _ (Model.p_callbacks params)). Qed.

(** With the hooks on, [save] on an entity starts by calling its
    [beforeSave] hook. *)
Lemma save_opens_with_hook rt depth fuel this params w e :
  Instance.read this w = (Ok e, w) ->
  Model.callbacks_is (Model.p_callbacks params) "afterSave" = true ->
  opens_with (Called this "beforeSave" []) (Model.save rt depth (S fuel) this params) w.
Proof.
  intros Hread Hcb. cbn [Model.save]. unfold Model.save_body.
  apply starts_bind.
  - unfold Model.prepare. rewrite Hcb.
    unfold opens_with. unfold mbind at 1. unfold io_bind, IO.bind at 1.
    rewrite Hread. apply starts_bind.
    + apply starts_bind; [|intros r; apply run_inv_ret].
      unfold Instance.call_hook. apply starts_log. intros _.
      apply run_inv_bind; [apply run_inv_get_heap|]. intros h.
      destruct (hook rt "beforeSave" this [] h) as [err|[r h']]; [apply run_inv_throw|].
      apply run_inv_bind; [apply run_inv_put_heap|]. intros _. apply run_inv_ret.
    + intros go. destruct (negb go); [apply run_inv_ret|].
      apply run_inv_bind; [by apply run_inv_session_of|]. intros sess.
      apply run_inv_bind; [|intros fd; apply run_inv_ret].
      apply (run_inv_outgoing rt depth _ _ (Model.p_callbacks params)); try done.
      intros this' params' _. apply grows_save.
  - intros [[[sess fd] ex]|]; [|apply run_inv_ret].
    destruct (Model.is_nil fd); [apply run_inv_ret|].
    apply (run_inv_persist rt depth _ _ (Model.p_callbacks params)); try done.
    intros this' params' _. apply grows_save.
Qed.

(** A [beforeSave] that returns [false] ends the run there. *)
Lemma save_vetoed rt depth fuel this params w e h' :
  Instance.read this w = (Ok e, w) ->
  Model.callbacks_is (Model.p_callbacks params) "afterSave" = true ->
  hook rt "beforeSave" this [] (w_heap w) = inr (VBool false, h') ->
  Model.save rt depth (S fuel) this params w
  = (Ok false, {| w_heap := h'; w_callbacks := w_callbacks w; w_next := w_next w;
                  w_trace := w_trace w ++ [Called this "beforeSave" []] |}).
Proof.
  intros Hread Hcb Hhook. cbn [Model.save].
  unfold Model.save_body, Model.prepare, mbind, io_bind, IO.bind.
  rewrite Hread, Hcb. unfold Instance.call_hook, mbind, io_bind, IO.bind. cbn.
  by rewrite Hhook.
Qed.

Lemma bind_Ok {A B} (m : io A) (f : A -> io B) w b w2 :
  (m ≫= f) w = (Ok b, w2) -> exists a w1, m w = (Ok a, w1) /\ f a w1 = (Ok b, w2).
Proof.
  unfold mbind, io_bind, IO.bind. destruct (m w) as [[a|e|] w1]; [|done|done].
  intros H. by exists a, w1.
Qed.

Lemma writes_app tr evs : writes (tr ++ evs) = writes tr ++ writes evs.
Proof. unfold writes. apply omap_app. Qed.

Lemma unstaged_writes tr evs : Forall unstaged evs -> writes (tr ++ evs) = writes tr.
Proof.
  intros H. rewrite writes_app. induction H as [|ev evs Hev _ IH]; cbn.
  - by rewrite app_nil_r.
  - destruct ev; try done.
Qed.


Lemma read_world this w r w' : Instance.read this w = (r, w') -> w' = w.
Proof.
  unfold Instance.read, mbind, io_bind, IO.bind. cbn.
  destruct this; try (by intros [= _ <-]). destruct (w_heap w !! a); by intros [= _ <-].
Qed.















(** *** An entity without a change *)





Lemma bind_run {A B} (m : io A) (f : A -> io B) w :
  (m ≫= f) w = match m w with
               | (Ok a, w1) => f a w1
               | (Throw e, w1) => (Throw e, w1)
               | (NoFuel, w1) => (NoFuel, w1)
               end.
Proof. reflexivity. Qed.






(** C10: on an entity, [save] with [callbacks: 'afterSave'] starts by
    calling the [beforeSave] hook, and when the hook returns [false] the
    run ends there with [false], no write and nothing queued; [save] with
    [callbacks: 'beforeSave'], started with no hook in the queue, calls no
    hook at all and leaves no hook in the queue. *)
Theorem save_callbacks_option rt depth fuel this params w e :
  Instance.read this w = (Ok e, w) ->
  (Model.p_callbacks params = VStr "afterSave" ->
     opens_with (Called this "beforeSave" []) (Model.save rt depth (S fuel) this params) w
     /\ (forall h', hook rt "beforeSave" this [] (w_heap w) = inr (VBool false, h') ->
           exists w', Model.save rt depth (S fuel) this params w = (Ok false, w')
                      /\ w_trace w' = w_trace w ++ [Called this "beforeSave" []]
                      /\ writes (w_trace w') = writes (w_trace w)
                      /\ w_callbacks w' = w_callbacks w))
  /\ (Model.p_callbacks params = VStr "beforeSave" ->
      no_hook_queued (w_callbacks w) ->
      no_hook_queued (w_callbacks (Model.save rt depth (S fuel) this params w).2)
      /\ exists evs,
           w_trace (Model.save rt depth (S fuel) this params w).2 = w_trace w ++ evs
           /\ Forall (fun ev => is_call ev = false) evs).
Proof.
  intros Hread. split.
  - intros Hcb. split.
    + apply (save_opens_with_hook rt depth fuel this params w e Hread). by rewrite Hcb.
    + intros h' Hh. eexists. split.
      * apply (save_vetoed rt depth fuel this params w e h' Hread); [by rewrite Hcb|done].
      * cbn. split_and!; [done| |done]. by apply unstaged_writes, Forall_singleton.
  - intros Hcb Hq. by apply save_without_hooks.
Qed.

Lemma save_callbacks_option_witness :
  exists w', Model.save (SampleRun.runtime true false) 1 1 SampleRun.post
               (Model.with_callbacks (VStr "afterSave") Model.default_params)
               SampleRun.start = (Ok false, w')
             /\ w_trace w' = w_trace SampleRun.start ++ [Called SampleRun.post "beforeSave" []]
             /\ writes (w_trace w') = writes (w_trace SampleRun.start)
             /\ w_callbacks w' = w_callbacks SampleRun.start.
Proof.
  refine (proj2 (proj1 (save_callbacks_option (SampleRun.runtime true false) 1 0
                          SampleRun.post
                          (Model.with_callbacks (VStr "afterSave") Model.default_params)
                          SampleRun.start SampleRun.new_post _) eq_refl)
            (w_heap SampleRun.start) eq_refl).
  vm_compute. reflexivity.
Defined.


End SaveFacts.

(** ** Sessions: when the queued callbacks run *)

Module SessionFacts.
Import RunSpec RunFacts SaveFacts.

Lemma modify_trace this f w :
  w_trace (Instance.modify this f w).2 = w_trace w
  /\ w_callbacks (Instance.modify this f w).2 = w_callbacks w.
Proof.
  unfold Instance.modify, Instance.read, mbind, io_bind, IO.bind. cbn.
  destruct this; try done. by destruct (w_heap w !! a).
Qed.

(** A queued callback, called: a hook leaves its call in the trace, the
    other methods leave nothing; the queue is not touched. *)
Lemma run_callback_trace rt cb w :
  w_trace (Instance.run_callback rt cb w).2 = w_trace w ++ queue_events [cb]
  /\ w_callbacks (Instance.run_callback rt cb w).2 = w_callbacks w.
Proof.
  unfold Instance.run_callback, queue_events. cbn [omap list_omap].
  destruct (bool_decide _).
  - unfold Instance.call_hook, mbind, io_bind, IO.bind. cbn.
    by destruct (hook rt _ _ _ _) as [e|[r h']].
  - cbn. rewrite app_nil_r.
    destruct (String.eqb _ "resetChanges"); [apply modify_trace|].
    destruct (String.eqb _ "resetProperties"); [apply modify_trace|done].
Qed.

Lemma run_callback_returns rt cb w w1 :
  Instance.run_callback rt cb w <> (NoFuel, w1).
Proof.
  unfold Instance.run_callback, Instance.call_hook, Instance.modify, Instance.read,
    mbind, io_bind, IO.bind.
  destruct (bool_decide _); cbn.
  - by destruct (hook rt _ _ _ _) as [e|[r h']].
  - destruct (String.eqb _ "resetChanges");
      [destruct (cb_model cb); try done; by destruct (w_heap w !! a)|].
    destruct (String.eqb _ "resetProperties"); [|done].
    destruct (cb_model cb); try done. by destruct (w_heap w !! a).
Qed.

Lemma run_all_trace rt q : forall first w,
  w_trace (Firesnap.run_all rt q first w).2 = w_trace w ++ queue_events q
  /\ w_callbacks (Firesnap.run_all rt q first w).2 = w_callbacks w.
Proof.
  induction q as [|cb q IH]; intros first w; cbn [Firesnap.run_all].
  - cbn. rewrite app_nil_r. by destruct first.
  - unfold mbind, io_bind, IO.bind, IO.catch.
    destruct (run_callback_trace rt cb w) as [Ht Hc].
    destruct (Instance.run_callback rt cb w) as [[u|e|] w1] eqn:E; cbn in Ht, Hc;
      [| |by apply run_callback_returns in E].
    + match goal with |- context [Firesnap.run_all rt q ?f w1] =>
        destruct (IH f w1) as [Ht' Hc'] end.
      rewrite Ht', Hc', Ht, Hc, <- app_assoc. split; [|done]. f_equal.
      unfold queue_events. cbn. by destruct (bool_decide _).
    + match goal with |- context [Firesnap.run_all rt q ?f w1] =>
        destruct (IH f w1) as [Ht' Hc'] end.
      rewrite Ht', Hc', Ht, Hc, <- app_assoc. split; [|done]. f_equal.
      unfold queue_events. cbn. by destruct (bool_decide _).
Qed.

Lemma modify_callbacks this f w r w' :
  Instance.modify this f w = (r, w') -> w_callbacks w' = w_callbacks w.
Proof.
  intros H. pose proof (proj2 (modify_trace this f w)) as Hc. by rewrite H in Hc.
Qed.

Lemma storeCallback_run sid this m args w :
  Storage.storeCallback sid this m args w
  = (Ok tt, {| w_heap := w_heap w;
               w_callbacks :=
                 Props.set sid
                   (Storage.queue_of sid (w_callbacks w)
                      ++ [{| cb_model := this; cb_method := m; cb_args := args |}])
                   (w_callbacks w);
               w_next := w_next w; w_trace := w_trace w |}).
Proof. reflexivity. Qed.

(** A save that does not commit here leaves, at the end of the queue of
    its session, its [afterSave] with the creation flag and its
    [resetChanges]. *)
Lemma persist_queues rt depth rec this params sess ex fd w b w' :
  Model.callbacks_is (Model.p_callbacks params) "afterSave" = true ->
  negb (Model.p_recurring params) && internal sess = false ->
  Model.persist rt depth rec this params sess ex fd w = (Ok b, w') ->
  exists q, Storage.queue_of (sessId sess) (w_callbacks w')
            = q ++ [{| cb_model := this; cb_method := "afterSave";
                       cb_args := [VBool (negb ex)] |};
                    {| cb_model := this; cb_method := "resetChanges"; cb_args := [] |}].
Proof.
  intros Hcb Hint. unfold Model.persist. rewrite Hcb, Hint. intros H.
  apply bind_Ok in H as (u1 & w1 & _ & H).
  apply bind_Ok in H as (e1 & w2 & _ & H).
  apply bind_Ok in H as (u3 & w3 & _ & H).
  apply bind_Ok in H as (u4 & w4 & H4 & H).
  apply bind_Ok in H as (u5 & w5 & H5 & H).
  apply bind_Ok in H as (u6 & w6 & H6 & H). injection H as _ <-.
  assert (w_callbacks w6 = w_callbacks w5) as ->.
  { destruct (negb ex && populatePrimaryKey rt); [|by injection H6 as _ <-].
    by apply modify_callbacks in H6. }
  rewrite storeCallback_run in H4, H5. injection H4 as _ <-. injection H5 as _ <-.
  cbn. rewrite !queue_of_set, String.eqb_refl.
  exists (Storage.queue_of (sessId sess) (w_callbacks w3)). by rewrite <- app_assoc.
Qed.

Lemma run_all_returns rt q : forall first w w1,
  Firesnap.run_all rt q first w <> (NoFuel, w1).
Proof.
  induction q as [|cb q IH]; intros first w w1; cbn [Firesnap.run_all].
  - by destruct first.
  - unfold mbind, io_bind, IO.bind, IO.catch.
    destruct (Instance.run_callback rt cb w) as [[u|e|] w2] eqn:E;
      [apply IH|apply IH|by apply run_callback_returns in E].
Qed.

Lemma commit_refused rt s w err :
  store_commit rt (Firesnap.staged_of (sessId s) (w_trace w)) = Some err ->
  Firesnap.commit rt s w = (Throw err, rejected (sessId s) w).
Proof.
  intros Herr.
  unfold Firesnap.commit, Firesnap.store_applies, mbind, io_bind, IO.bind, IO.catch.
  cbn. by rewrite Herr.
Qed.

Lemma commit_applied rt s w :
  store_commit rt (Firesnap.staged_of (sessId s) (w_trace w)) = None ->
  w_trace (Firesnap.commit rt s w).2
  = w_trace w ++ Committed (sessId s)
      :: queue_events (Storage.queue_of (sessId s) (w_callbacks w))
  /\ Storage.queue_of (sessId s) (w_callbacks (Firesnap.commit rt s w).2) = [].
Proof.
  intros Hok.
  unfold Firesnap.commit, Firesnap.store_applies, Storage.getCallbacks,
    Storage.clearCallbacks, mbind, io_bind, IO.bind, IO.catch.
  cbn. rewrite Hok. cbn.
  match goal with |- context [Firesnap.run_all rt ?q None ?w1] =>
    destruct (run_all_trace rt q None w1) as [Ht Hc];
    destruct (Firesnap.run_all rt q None w1) as [[u|e|] w2] eqn:E end;
    [| |by apply run_all_returns in E];
    cbn in *; rewrite Ht, Hc, <- app_assoc, queue_of_remove, String.eqb_refl; done.
Qed.

(** C3, for a batch: a save with the hooks on that does not commit here
    leaves its [afterSave], with the creation flag as argument, at the end
    of the queue of its session; when the store refuses the commit of a
    batch, [commit] throws the store's error, no queued callback has run
    and the queue of the session is cleared; when the store applies the
    writes, every queued hook is called once, in the order queued, after
    the commit, and the queue is cleared. *)
Theorem batch_callbacks_after_commit rt depth rec this params s ex fd w :
  (forall b w',
     Model.callbacks_is (Model.p_callbacks params) "afterSave" = true ->
     negb (Model.p_recurring params) && internal s = false ->
     Model.persist rt depth rec this params s ex fd w = (Ok b, w') ->
     exists q, Storage.queue_of (sessId s) (w_callbacks w')
               = q ++ [{| cb_model := this; cb_method := "afterSave";
                          cb_args := [VBool (negb ex)] |};
                       {| cb_model := this; cb_method := "resetChanges";
                          cb_args := [] |}])
  /\ (forall err,
        store_commit rt (Firesnap.staged_of (sessId s) (w_trace w)) = Some err ->
        Firesnap.commit rt s w = (Throw err, rejected (sessId s) w))
  /\ (store_commit rt (Firesnap.staged_of (sessId s) (w_trace w)) = None ->
      w_trace (Firesnap.commit rt s w).2
      = w_trace w ++ Committed (sessId s)
          :: queue_events (Storage.queue_of (sessId s) (w_callbacks w))
      /\ Storage.queue_of (sessId s) (w_callbacks (Firesnap.commit rt s w).2) = []).
Proof.
  split_and!.
  - intros b w'. apply persist_queues.
  - intros err. apply commit_refused.
  - apply commit_applied.
Qed.

(** C3 fails in a transaction: the store refuses the commit, and the
    [afterSave] hook of the saved post has run before. *)
Lemma transaction_runs_hook_before_commit :
  (SampleRun.in_transaction (SampleRun.runtime false true) SampleRun.start).1
  = Throw (Error "store unavailable")
  /\ w_trace (SampleRun.in_transaction (SampleRun.runtime false true) SampleRun.start).2
     = [Called SampleRun.post "beforeSave" []; SampleRun.post_write;
        Called SampleRun.post "afterSave" [VBool true]; Rejected "auto-0"].
Proof. by vm_compute. Qed.

(** The same save in a batch of the application: the hook runs after the
    commit, and not at all when the store refuses. *)
Lemma batch_runs_hook_after_commit :
  w_trace (SampleRun.in_batch (SampleRun.runtime false false) SampleRun.start).2
  = [Called SampleRun.post "beforeSave" []; SampleRun.post_write;
     Committed "auto-0"; Called SampleRun.post "afterSave" [VBool true]]
  /\ w_trace (SampleRun.in_batch (SampleRun.runtime false true) SampleRun.start).2
     = [Called SampleRun.post "beforeSave" []; SampleRun.post_write; Rejected "auto-0"].
Proof. by vm_compute. Qed.

End SessionFacts.

(** ** Model.save: the pending removals of a sub-collection *)

Module SweepFacts.
Import RunSpec RunFacts SaveFacts.

(** [delete] on a stored entity without stored sub-collections, inside
    the session of a save: one delete is staged. *)
Lemma delete_stored rt depth params s v ref w :
  Model.p_session params = Some s ->
  Model.p_recurring params = true ->
  (Model.callbacks_is (Model.p_callbacks params) "beforeDelete" = true ->
   forall this h, exists r, hook rt "beforeDelete" this [] h = inr (r, h)
                            /\ Validator.is_false r = false) ->
  stored_at (w_heap w) v ref ->
  listCollections rt ref = [] ->
  exists w', Model.delete rt depth v params w = (Ok true, w')
             /\ w_heap w' = w_heap w
             /\ writes (w_trace w') = writes (w_trace w) ++ [(sessId s, WDelete ref)].
Proof.
  intros Hs Hrec Hhook (c & a & e & -> & Ha & Href) Hcols.
  unfold Model.delete, Model.session_of. rewrite Hs, Hrec.
  destruct (Model.callbacks_is (Model.p_callbacks params) "beforeDelete") eqn:Hb.
  - destruct (Hhook eq_refl (VModel c a) (w_heap w)) as (r & Hr & Hf).
    unfold Instance.call_hook, Instance.read, mbind, io_bind, IO.bind. cbn.
    rewrite Hr. cbn. rewrite Hf. cbn. rewrite Ha. cbn. rewrite Href, Hcols. cbn.
    rewrite andb_false_r.
    destruct (Model.callbacks_is (Model.p_callbacks params) "afterDelete"); cbn;
      (eexists; split_and!; [done|done|]); cbn;
      rewrite !writes_app; cbn; by rewrite app_nil_r.
  - unfold Instance.read, mbind, io_bind, IO.bind. cbn.
    rewrite Ha. cbn. rewrite Href, Hcols. cbn. rewrite andb_false_r.
    destruct (Model.callbacks_is (Model.p_callbacks params) "afterDelete"); cbn;
      (eexists; split_and!; [done|done|]); cbn;
      by rewrite !writes_app.
Qed.

Section Stored.
Variable rt : Runtime.
Variable depth : nat.
Variable params : Model.SaveParams.
Variable s : session.
Hypothesis in_session : Model.p_session params = Some s.
Hypothesis recurring : Model.p_recurring params = true.
Hypothesis hooks_approve :
  Model.callbacks_is (Model.p_callbacks params) "beforeDelete" = true ->
  forall this h, exists r, hook rt "beforeDelete" this [] h = inr (r, h)
                           /\ Validator.is_false r = false.

Lemma sweep_from rest : forall refs pre w,
  Forall2 (stored_at (w_heap w)) rest refs ->
  Forall (fun ref => listCollections rt ref = []) refs ->
  exists w',
    Model.sweep rt depth params (seq (length pre) (length rest)) (pre ++ rest) w
    = (Ok (pre ++ rest), w')
    /\ w_heap w' = w_heap w
    /\ writes (w_trace w')
       = writes (w_trace w) ++ map (fun ref => (sessId s, WDelete ref)) refs.
Proof.
  induction rest as [|v rest IH]; intros refs pre w Hst Hcols.
  - apply Forall2_nil_inv_l in Hst as ->. cbn. exists w. by rewrite !app_nil_r.
  - apply Forall2_cons_inv_l in Hst as (ref & refs' & Hv & Hst & ->).
    apply Forall_cons in Hcols as [Hcol Hcols].
    cbn [length seq Model.sweep]. rewrite list_lookup_middle by done.
    destruct (delete_stored rt depth params s v ref w in_session recurring
                hooks_approve Hv Hcol) as (w1 & Hdel & Hheap & Hwr).
    destruct Hv as (c & a & e & -> & Ha & Href).
    unfold mbind, io_bind, IO.bind, IO.lift. cbn. rewrite Ha, Href. cbn.
    rewrite Hdel.
    destruct (IH refs' (pre ++ [VModel c a]) w1) as (w2 & Hsw & Hheap2 & Hwr2);
      [by rewrite Hheap|done|].
    rewrite length_app, Nat.add_1_r, <- app_assoc in Hsw. cbn in Hsw.
    exists w2. split_and!; [done|congruence|].
    rewrite Hwr2, Hwr, <- app_assoc. done.
Qed.
End Stored.

(** C5, where it holds: when every pending removal of the list is stored
    and has no stored sub-collection, and the [beforeDelete] hooks, if on,
    approve and leave the entities alone, the loop of [save] over the list
    stages one delete for each, in order, and keeps the list. *)
Theorem sweep_stored_removals rt depth params s pending refs w :
  Model.p_session params = Some s ->
  Model.p_recurring params = true ->
  (Model.callbacks_is (Model.p_callbacks params) "beforeDelete" = true ->
   forall this h, exists r, hook rt "beforeDelete" this [] h = inr (r, h)
                            /\ Validator.is_false r = false) ->
  Forall2 (stored_at (w_heap w)) pending refs ->
  Forall (fun ref => listCollections rt ref = []) refs ->
  exists w',
    Model.sweep rt depth params (seq 0 (length pending)) pending w = (Ok pending, w')
    /\ w_heap w' = w_heap w
    /\ writes (w_trace w')
       = writes (w_trace w) ++ map (fun ref => (sessId s, WDelete ref)) refs.
Proof.
  intros Hs Hrec Hhook Hst Hcols.
  apply (sweep_from rt depth params s Hs Hrec Hhook pending refs [] w Hst Hcols).
Qed.

Lemma sweep_stored_removals_witness :
  exists w',
    Model.sweep (SampleRun.runtime false false) 1
      (Model.recParams_of Model.default_params SampleRun.inner_session)
      (seq 0 1) [SampleRun.removed_comment] (SampleRun.thread_world [SampleRun.removed_comment])
    = (Ok [SampleRun.removed_comment], w')
    /\ w_heap w' = SampleRun.thread_heap [SampleRun.removed_comment]
    /\ writes (w_trace w') = [SampleRun.comment_delete].
Proof.
  apply (sweep_stored_removals (SampleRun.runtime false false) 1
           (Model.recParams_of Model.default_params SampleRun.inner_session)
           SampleRun.inner_session [SampleRun.removed_comment]
           ["posts/p1/comments/c2"]
           (SampleRun.thread_world [SampleRun.removed_comment])).
  - reflexivity.
  - reflexivity.
  - intros _ this h. exists VUndefined. split; reflexivity.
  - constructor; [|constructor].
    exists Sample.Comment, 12,
      (Entity Sample.Comment [("text", VStr "y")] []
         (Some "posts/p1/comments/c2") None None VNull true).
    split_and!; [reflexivity|vm_compute; reflexivity|reflexivity].
  - constructor; [reflexivity|constructor].
Defined.

(** C5 fails in the code: the pending list holds a removal that the last
    commit deleted, then a stored one; the save writes the title and
    stages no delete for the stored removal, which stays pending. *)
Lemma stored_removal_skipped :
  (SampleRun.thread_save [SampleRun.gone_comment; SampleRun.removed_comment]).1 = Ok true
  /\ writes (w_trace (SampleRun.thread_save
                        [SampleRun.gone_comment; SampleRun.removed_comment]).2)
     = [SampleRun.title_update]
  /\ SampleRun.pending_after
       (SampleRun.thread_save [SampleRun.gone_comment; SampleRun.removed_comment]).2
     = [SampleRun.removed_comment]
  /\ (e ← SampleRun.thread_heap [] !! 12; getRef e) = Some "posts/p1/comments/c2"
  /\ (e ← SampleRun.thread_heap [] !! 11; getRef e) = None.
Proof. by vm_compute. Qed.

(** The same save with the stored removal alone stages its delete. *)
Lemma stored_removal_alone_deleted :
  writes (w_trace (SampleRun.thread_save [SampleRun.removed_comment]).2)
  = [SampleRun.title_update; SampleRun.comment_delete].
Proof. by vm_compute. Qed.

End SweepFacts.

(** ** The callback queue and sessions *)

Module QueueFacts.
Import RunSpec RunFacts SaveFacts SessionFacts.

(** X1. The queue of callbacks is kept per session id: after
    [storeCallback] under [sid], [getCallbacks] returns for [sid] its
    earlier queue followed by the new entry and for any other id the queue
    it had; after [clearCallbacks] of [sid] it returns the empty list for
    [sid] and for any other id the queue it had. *)
Theorem callbacks_by_session sid sid' this m args w :
  ((Storage.storeCallback sid this m args;; Storage.getCallbacks sid') w).1
  = Ok (Storage.queue_of sid' (w_callbacks w)
        ++ (if String.eqb sid' sid
            then [{| cb_model := this; cb_method := m; cb_args := args |}]
            else []))
  /\ ((Storage.clearCallbacks sid;; Storage.getCallbacks sid') w).1
     = Ok (if String.eqb sid' sid then [] else Storage.queue_of sid' (w_callbacks w)).
Proof.
  unfold Storage.storeCallback, Storage.getCallbacks, Storage.clearCallbacks,
    mbind, io_bind, IO.bind, IO.get_callbacks, IO.put_callbacks, mret, io_ret, IO.ret.
  cbn [fst w_callbacks]. split.
  - f_equal. rewrite queue_of_set. destruct (String.eqb_spec sid' sid) as [->|]; [done|].
    by rewrite app_nil_r.
  - f_equal. by rewrite queue_of_remove.
Qed.

(** X2. When the function handed to [Firesnap.transaction] throws, the
    transaction throws the same error; the world is the one the function
    left, less the callbacks queued under the id of the transaction: no
    queued callback is called and the store is not asked to commit. *)
Theorem transaction_executor_throws rt executor w e w1 :
  executor {| sessId := IO.auto_id_of (w_next w); internal := false; kind := Transaction |}
    (IO.auto_id w).2 = (Throw e, w1) ->
  Firesnap.transaction rt executor w
  = (Throw e, {| w_heap := w_heap w1;
                 w_callbacks := Props.remove (IO.auto_id_of (w_next w)) (w_callbacks w1);
                 w_next := w_next w1; w_trace := w_trace w1 |}).
Proof.
  intros He. unfold Firesnap.transaction, mbind, io_bind, IO.bind, IO.catch.
  cbn in *. by rewrite He.
Qed.

Lemma transaction_executor_throws_witness :
  Firesnap.transaction (SampleRun.runtime false false)
    (fun txn => Storage.storeCallback (sessId txn) SampleRun.post "afterSave" [];;
                IO.throw (Error "boom"))
    SampleRun.start
  = (Throw (Error "boom"),
     {| w_heap := SampleRun.start_heap; w_callbacks := []; w_next := 1; w_trace := [] |}).
Proof.
  apply (transaction_executor_throws (SampleRun.runtime false false)
           (fun txn => Storage.storeCallback (sessId txn) SampleRun.post "afterSave" [];;
                       IO.throw (Error "boom"))
           SampleRun.start (Error "boom")
           {| w_heap := SampleRun.start_heap;
              w_callbacks :=
                [("auto-0", [{| cb_model := SampleRun.post; cb_method := "afterSave";
                                cb_args := [] |}])];
              w_next := 1; w_trace := [] |}).
  reflexivity.
Defined.

End QueueFacts.

(** ** Model.delete and Collection.delete *)

Module DeleteFacts.
Import RunSpec RunFacts SaveFacts SessionFacts.

(** The hook phase of [save] and [delete]: the hook may change entities;
    nothing is queued, no id is drawn, and the call is the only event. *)
Lemma hook_phase_world rt method this (on : bool) w go w1 :
  (if on
   then r ← Instance.call_hook rt method this [];
        mret (negb (Validator.is_false r))
   else mret true) w = (Ok go, w1) ->
  w_callbacks w1 = w_callbacks w /\ w_next w1 = w_next w
  /\ w_trace w1 = w_trace w ++ (if on then [Called this method []] else []).
Proof.
  destruct on.
  - unfold Instance.call_hook, mbind, io_bind, IO.bind. cbn.
    destruct (hook rt method this [] (w_heap w)) as [e|[r h']]; [done|].
    cbn. by intros [= _ <-].
  - intros [= _ <-]. by rewrite app_nil_r.
Qed.

Lemma modify_Ok c a f w u w' :
  Instance.modify (VModel c a) f w = (Ok u, w') ->
  exists e, w_heap w !! a = Some e
            /\ w' = {| w_heap := <[a := f e]> (w_heap w); w_callbacks := w_callbacks w;
                       w_next := w_next w; w_trace := w_trace w |}.
Proof.
  unfold Instance.modify, Instance.read, mbind, io_bind, IO.bind. cbn.
  destruct (w_heap w !! a) as [e|]; [|done]. cbn. intros [= _ <-]. by exists e.
Qed.

(** Without a session in the options, the session is a batch of the
    library's own. *)
Lemma session_of_own params w sess w1 :
  Model.p_session params = None ->
  Model.session_of params w = (Ok sess, w1) -> internal sess = true.
Proof.
  unfold Model.session_of. intros ->. cbn. by intros [= <- _].
Qed.

(** X3. A [delete] that returns [false] (the [beforeDelete] hook
    returned [false], or the entity has no reference) has staged no write,
    queued no callback and created no session. *)
Theorem delete_false_no_effect rt depth this params w w' :
  Model.delete rt depth this params w = (Ok false, w') ->
  writes (w_trace w') = writes (w_trace w)
  /\ w_callbacks w' = w_callbacks w
  /\ w_next w' = w_next w.
Proof.
  unfold Model.delete. intros H.
  apply bind_Ok in H as (go & w1 & Hgo & H).
  apply hook_phase_world in Hgo as (Hc & Hn & Ht).
  assert (Hw : writes (w_trace w1) = writes (w_trace w)).
  { rewrite Ht. apply unstaged_writes.
    destruct (Model.callbacks_is _ _); [by apply Forall_singleton|done]. }
  destruct (negb go); [by injection H as <-|].
  apply bind_Ok in H as (e & w2 & He & H). apply read_world in He as ->.
  destruct (getRef e) as [ref|]; [|by injection H as <-].
  repeat (apply bind_Ok in H as (? & ? & _ & H)). done.
Qed.

Lemma delete_false_no_effect_witness :
  writes (w_trace (Model.delete (SampleRun.runtime false false) 1 SampleRun.post
                     Model.default_params SampleRun.start).2)
  = writes (w_trace SampleRun.start)
  /\ w_callbacks (Model.delete (SampleRun.runtime false false) 1 SampleRun.post
                    Model.default_params SampleRun.start).2
     = w_callbacks SampleRun.start
  /\ w_next (Model.delete (SampleRun.runtime false false) 1 SampleRun.post
               Model.default_params SampleRun.start).2
     = w_next SampleRun.start.
Proof.
  apply (delete_false_no_effect (SampleRun.runtime false false) 1 SampleRun.post
           Model.default_params SampleRun.start).
  vm_compute. reflexivity.
Defined.

(** X4. After a [delete] that returns [true] on a session of its own
    (no session in the options, not recurring), the instance is blank: it
    has no property, no pending change, no reference and no id. *)
Theorem delete_resets_instance rt depth c a params w w' :
  Model.p_session params = None ->
  Model.p_recurring params = false ->
  Model.delete rt depth (VModel c a) params w = (Ok true, w') ->
  exists e, w_heap w' !! a = Some e
            /\ e_props e = [] /\ e_changes e = []
            /\ getRef e = None /\ getId e = None.
Proof.
  unfold Model.delete. intros Hs Hrec H.
  apply bind_Ok in H as (go & w1 & _ & H).
  destruct (negb go); [done|].
  apply bind_Ok in H as (e & w2 & _ & H).
  destruct (getRef e) as [ref|]; [|done].
  apply bind_Ok in H as (sess & w3 & Hsess & H).
  apply (session_of_own _ _ _ _ Hs) in Hsess. rewrite Hsess, Hrec in H.
  apply bind_Ok in H as (? & ? & _ & H).
  apply bind_Ok in H as (? & ? & _ & H).
  apply bind_Ok in H as (? & ? & _ & H).
  apply bind_Ok in H as (? & w4 & Hend & H). injection H as <-.
  cbn [andb negb] in Hend.
  apply bind_Ok in Hend as (? & w5 & _ & Hm).
  apply modify_Ok in Hm as (e5 & _ & ->). cbn.
  exists (Instance.resetProperties e5). by rewrite lookup_insert_eq.
Qed.

Lemma delete_resets_instance_witness :
  exists e, w_heap (Model.delete (SampleRun.runtime false false) 1 SampleRun.stored_post
                      Model.default_params SampleRun.start).2 !! 2 = Some e
            /\ e_props e = [] /\ e_changes e = []
            /\ getRef e = None /\ getId e = None.
Proof.
  apply (delete_resets_instance (SampleRun.runtime false false) 1 Sample.Post 2
           Model.default_params SampleRun.start).
  - reflexivity.
  - reflexivity.
  - vm_compute. reflexivity.
Defined.

(** A run that stages deletes on the session [sid] and does nothing else. *)
Local Abbreviation only_deletes sid m :=
  (forall w : world,
      w_heap (m w).2 = w_heap w /\ w_callbacks (m w).2 = w_callbacks w
      /\ w_next (m w).2 = w_next w
      /\ exists docs, w_trace (m w).2
                      = w_trace w ++ map (fun d => Staged sid (WDelete d)) docs).

Lemma only_deletes_ret sid (u : unit) : only_deletes sid (mret u : io unit).
Proof. intros w. split_and!; try done. exists []. by rewrite app_nil_r. Qed.

Lemma only_deletes_bind sid (m : io unit) (f : unit -> io unit) :
  only_deletes sid m -> (forall u, only_deletes sid (f u)) ->
  only_deletes sid (m ≫= f).
Proof.
  intros Hm Hf w. unfold mbind, io_bind, IO.bind.
  destruct (Hm w) as (H1 & H2 & H3 & docs & H4).
  destruct (m w) as [[u|e|] w1]; cbn in *; [|split_and!; eauto..].
  destruct (Hf u w1) as (G1 & G2 & G3 & docs' & G4).
  split_and!; [congruence..|]. exists (docs ++ docs').
  by rewrite G4, H4, map_app, app_assoc.
Qed.

Lemma only_deletes_for_each {A} sid (f : A -> io unit) l :
  (forall x, only_deletes sid (f x)) -> only_deletes sid (IO.for_each f l).
Proof.
  intros Hf. induction l as [|x l IH]; cbn [IO.for_each].
  - apply (only_deletes_ret sid tt).
  - apply (only_deletes_bind sid); [apply Hf|]. intros _. apply IH.
Qed.

Lemma stage_deletes s docs w :
  IO.for_each (fun doc => Firesnap.stage s (WDelete doc)) docs w
  = (Ok tt, {| w_heap := w_heap w; w_callbacks := w_callbacks w; w_next := w_next w;
               w_trace := w_trace w
                            ++ map (fun d => Staged (sessId s) (WDelete d)) docs |}).
Proof.
  revert w. induction docs as [|d docs IH]; intros w; cbn [IO.for_each].
  - cbn. rewrite app_nil_r. by destruct w.
  - unfold IO.bind, Firesnap.stage, IO.log. rewrite IH. cbn. by rewrite <- app_assoc.
Qed.

Lemma Collection_delete_steps rt fuel path s w :
  Model.no_inner_slash path = false ->
  Model.Collection_delete rt (S fuel) path (Some s) true w
  = (IO.for_each (fun doc => Firesnap.stage s (WDelete doc)) (collection_docs rt path);;
     IO.for_each
       (fun doc => IO.for_each
                     (fun col => Model.Collection_delete rt fuel col (Some s) true)
                     (listCollections rt doc)) (collection_docs rt path);;
     mret tt) w.
Proof.
  intros Hp. cbn [Model.Collection_delete]. rewrite Hp.
  unfold mbind at 1. unfold io_bind, IO.bind at 1. cbn [mret io_ret IO.ret negb].
  by rewrite andb_false_r.
Qed.

Lemma Collection_delete_only rt fuel : forall path s,
  only_deletes (sessId s) (Model.Collection_delete rt fuel path (Some s) true).
Proof.
  induction fuel as [|fuel IH]; intros path s.
  - intros w. split_and!; try done. exists []. by rewrite app_nil_r.
  - destruct (Model.no_inner_slash path) eqn:Hp.
    { intros w. cbn [Model.Collection_delete]. rewrite Hp.
      split_and!; try done. exists []. by rewrite app_nil_r. }
    intros w. rewrite (Collection_delete_steps rt fuel path s w Hp).
    revert w. apply (only_deletes_bind (sessId s)).
    { intros w. rewrite stage_deletes. cbn. split_and!; try done. by eexists. }
    intros _. apply (only_deletes_bind (sessId s)); [|intros u; apply only_deletes_ret].
    apply only_deletes_for_each. intros doc. apply only_deletes_for_each. intros col.
    apply IH.
Qed.

(** The world after deletes of [docs] were staged on the session [s]. *)
Local Abbreviation staged_on s w docs :=
  {| w_heap := w_heap w; w_callbacks := w_callbacks w; w_next := w_next w;
     w_trace := w_trace w ++ map (fun d => Staged (sessId s) (WDelete d)) docs |}.

Lemma for_each_staged {A} s (f : A -> io unit) (g : A -> list string) l :
  (forall x w, x ∈ l -> f x w = (Ok tt, staged_on s w (g x))) ->
  forall w, IO.for_each f l w = (Ok tt, staged_on s w (flat_map g l)).
Proof.
  induction l as [|x l IH]; intros Hf w; cbn [IO.for_each flat_map].
  - cbn. rewrite app_nil_r. by destruct w.
  - unfold IO.bind. rewrite Hf by left. rewrite IH.
    + cbn. by rewrite map_app, app_assoc.
    + intros y w1 Hy. apply Hf. by right.
Qed.

(** When the store is shallow enough, the run ends, and the deletes that
    it stages are those of the documents of the collection and of the
    documents below them. *)
Lemma Collection_delete_run rt s : forall fuel path w,
  DeleteSpec.shallow rt fuel path = true ->
  Model.Collection_delete rt fuel path (Some s) true w
  = (Ok tt, staged_on s w (collection_docs rt path ++ DeleteSpec.below rt fuel path)).
Proof.
  induction fuel as [|fuel IH]; intros path w; [done|].
  cbn [DeleteSpec.shallow DeleteSpec.below].
  intros [Hp Hall]%andb_prop. apply negb_true_iff in Hp.
  rewrite (Collection_delete_steps rt fuel path s w Hp).
  rewrite bind_run, stage_deletes. cbv beta iota. rewrite bind_run.
  rewrite (for_each_staged s _
             (fun doc => flat_map (fun col => collection_docs rt col
                                              ++ DeleteSpec.below rt fuel col)
                           (listCollections rt doc))).
  - cbn. by rewrite map_app, app_assoc.
  - intros doc w1 Hdoc. apply for_each_staged. intros col w2 Hcol.
    apply IH. rewrite forallb_forall in Hall.
    specialize (Hall doc ltac:(by apply list_elem_of_In)).
    rewrite forallb_forall in Hall. apply Hall. by apply list_elem_of_In.
Qed.

(** X5. [Collection.delete] of a sub-collection, called with a session
    and as a recurring call (as [Model.delete] calls it), over a store whose
    nesting below the collection is within the depth allowed and is made of
    sub-collections: the call returns, and it has staged on that session a
    delete for every document of the collection, in order, then a delete
    for every document below them (the documents of the sub-collections of
    its documents, and so on down), and nothing else: the entities, the
    callback queue and the id counter are untouched, no hook is called and
    nothing is committed. *)
Theorem collection_delete_stages rt fuel path s w :
  DeleteSpec.shallow rt fuel path = true ->
  exists nested w',
    Model.Collection_delete rt fuel path (Some s) true w = (Ok tt, w')
    /\ w_heap w' = w_heap w /\ w_callbacks w' = w_callbacks w /\ w_next w' = w_next w
    /\ w_trace w' = w_trace w ++ map (fun d => Staged (sessId s) (WDelete d))
                                  (collection_docs rt path ++ nested)
    /\ nested ≡ₚ DeleteSpec.below rt fuel path.
Proof.
  intros Hs. eexists _, _. split; [by apply Collection_delete_run|]. done.
Qed.

Lemma collection_delete_stages_witness :
  exists nested w',
    Model.Collection_delete SampleMore.forum 2 "posts/p1/comments"
      (Some SampleRun.inner_session) true SampleRun.start = (Ok tt, w')
    /\ w_heap w' = w_heap SampleRun.start
    /\ w_callbacks w' = w_callbacks SampleRun.start
    /\ w_next w' = w_next SampleRun.start
    /\ w_trace w'
       = w_trace SampleRun.start
           ++ map (fun d => Staged (sessId SampleRun.inner_session) (WDelete d))
                (collection_docs SampleMore.forum "posts/p1/comments" ++ nested)
    /\ nested ≡ₚ DeleteSpec.below SampleMore.forum 2 "posts/p1/comments".
Proof.
  apply (collection_delete_stages SampleMore.forum 2 "posts/p1/comments"
           SampleRun.inner_session SampleRun.start).
  vm_compute. reflexivity.
Defined.

(** X25. A [delete] that returns [true] has staged a delete of a
    document: [delete] does not return [true] without one. *)
Theorem delete_true_stages_delete rt depth this params w w' :
  Model.delete rt depth this params w = (Ok true, w') ->
  exists pre sid ref post,
    w_trace w' = w_trace w ++ pre ++ Staged sid (WDelete ref) :: post.
Proof.
  unfold Model.delete. intros H.
  apply bind_Ok in H as (go & w1 & Hgo & H).
  apply hook_phase_world in Hgo as (_ & _ & Ht).
  destruct (negb go); [done|].
  apply bind_Ok in H as (e & w2 & He & H). apply read_world in He as ->.
  destruct (getRef e) as [ref|]; [|done].
  apply bind_Ok in H as (sess & w3 & Hsess & H).
  assert (exists evs, w_trace w3 = w_trace w1 ++ evs) as [evs3 H3].
  { pose proof (grows_trace (Model.session_of params) w1) as Hg. rewrite Hsess in Hg.
    apply Hg. by apply run_inv_session_of. }
  apply bind_Ok in H as (u4 & w4 & H4 & H).
  assert (exists evs, w_trace w4 = w_trace w3 ++ evs) as [evs4 H4'].
  { match type of H4 with ?m w3 = _ =>
      pose proof (grows_trace m w3) as Hg; rewrite H4 in Hg; apply Hg end.
    apply run_inv_for_each. intros col. by apply run_inv_Collection_delete. }
  apply bind_Ok in H as (u5 & w5 & H5 & H). injection H5 as _ <-.
  assert (exists evs, w_trace w' = (w_trace w4 ++ [Staged (sessId sess) (WDelete ref)]) ++ evs)
    as [post Hpost].
  { match type of H with ?m ?w0 = _ =>
      pose proof (grows_trace m w0) as Hg; rewrite H in Hg; apply Hg end.
    apply run_inv_bind.
    { destruct (Model.callbacks_is _ "afterDelete"); [|apply run_inv_ret].
      by apply run_inv_storeCallback. }
    intros _. apply run_inv_bind; [|intros _; apply run_inv_ret].
    destruct (internal sess && negb (Model.p_recurring params)).
    - apply run_inv_bind; [by apply run_inv_commit|]. intros _. by apply run_inv_modify.
    - by apply run_inv_storeCallback. }
  exists ((if Model.callbacks_is (Model.p_callbacks params) "beforeDelete"
           then [Called this "beforeDelete" []] else []) ++ evs3 ++ evs4),
    (sessId sess), ref, post.
  rewrite Hpost, H4', H3, Ht, <- !app_assoc. done.
Qed.

Lemma delete_true_stages_delete_witness :
  exists pre sid ref post,
    w_trace (Model.delete (SampleRun.runtime false false) 1 SampleRun.stored_post
               Model.default_params SampleRun.start).2
    = w_trace SampleRun.start ++ pre ++ Staged sid (WDelete ref) :: post.
Proof.
  apply (delete_true_stages_delete (SampleRun.runtime false false) 1 SampleRun.stored_post
           Model.default_params SampleRun.start).
  vm_compute. reflexivity.
Defined.

End DeleteFacts.

(** ** Model.save: how a run ends *)

Module SaveOutcomes.
Import RunSpec RunFacts SaveFacts SessionFacts DeleteFacts.

(** X6. When validation is on and the entity's own validation fails,
    [save] throws a [ValidationError] that carries the errors of the
    result; the [beforeSave] hook, if on, having approved and left the
    entities alone, no entity has changed, no write is staged and nothing
    is queued. *)
Theorem save_invalid_throws rt depth fuel c a params w result :
  Validator.is_false (Model.p_validate params) = false ->
  (Model.callbacks_is (Model.p_callbacks params) "afterSave" = true ->
   exists r, hook rt "beforeSave" (VModel c a) [] (w_heap w) = inr (r, w_heap w)
             /\ Validator.is_false r = false) ->
  Validator.validate depth (rt_env rt) (w_heap w) a = Ok result ->
  valid result = false ->
  exists w', Model.save rt depth (S fuel) (VModel c a) params w
             = (Throw (ValidationError (errors result)), w')
             /\ w_heap w' = w_heap w
             /\ writes (w_trace w') = writes (w_trace w)
             /\ w_callbacks w' = w_callbacks w.
Proof.
  intros Hv Hhook Hval Hinv.
  assert (exists e, w_heap w !! a = Some e) as [e He].
  { unfold Validator.validate, Validator.validate_entity in Hval.
    destruct (w_heap w !! a) as [e|]; [by exists e|done]. }
  cbn [Model.save].
  unfold Model.save_body, Model.prepare, Model.outgoing, Model.change_data,
    Model.validated, Model.session_of, Instance.read, Instance.call_hook,
    Firesnap.batch, mbind, io_bind, IO.bind, IO.lift.
  cbn. rewrite He. cbn.
  destruct (Model.callbacks_is (Model.p_callbacks params) "afterSave").
  - destruct (Hhook eq_refl) as (r & -> & Hr). cbn. rewrite Hr. cbn.
    destruct (Model.p_session params) as [s|]; cbn; rewrite Hv; cbn;
      rewrite Hval; cbn; rewrite Hinv; cbn;
      (eexists; split_and!; [done|done| |done]); cbn;
      by apply unstaged_writes, Forall_singleton.
  - cbn. destruct (Model.p_session params) as [s|]; cbn; rewrite Hv; cbn;
      rewrite Hval; cbn; rewrite Hinv; cbn; by eexists.
Qed.

Lemma save_invalid_throws_witness :
  exists w', Model.save (SampleRun.runtime false false) 1 1 SampleMore.draft
               Model.default_params SampleMore.draft_world
             = (Throw (ValidationError (errors SampleMore.title_mismatch)), w')
             /\ w_heap w' = w_heap SampleMore.draft_world
             /\ writes (w_trace w') = writes (w_trace SampleMore.draft_world)
             /\ w_callbacks w' = w_callbacks SampleMore.draft_world.
Proof.
  apply (save_invalid_throws (SampleRun.runtime false false) 1 0 Sample.Post 1
           Model.default_params SampleMore.draft_world SampleMore.title_mismatch).
  - reflexivity.
  - intros _. exists (VBool true). split; reflexivity.
  - vm_compute. reflexivity.
  - reflexivity.
Defined.

Local Abbreviation extends_trace m := (run_inv (fun _ => True) (fun _ => True) m).

Lemma extends_save rt depth fuel this params :
  extends_trace (Model.save rt depth fuel this params).
Proof. by apply (run_inv_save rt depth _ _ (Model.p_callbacks params)). Qed.

(** The write of the document itself: an update of the stored document
    when [overwrite] is [false], else a set. *)
Lemma write_document_stages rt this params sess ex fd w u w1 :
  Model.write_document rt this params sess ex fd w = (Ok u, w1) ->
  exists ref, w_trace w1
              = w_trace w ++ [Staged (sessId sess)
                                (if ex && Validator.is_false (Model.p_overwrite params)
                                 then WUpdate ref fd else WSet ref fd)].
Proof.
  unfold Model.write_document. intros H.
  apply bind_Ok in H as (e & w0 & He & H). apply read_world in He as ->.
  destruct ex.
  - destruct (getRef e) as [ref|]; [|done]. exists ref.
    injection H as _ <-. cbn. by destruct (Validator.is_false _).
  - apply bind_Ok in H as (id & w2 & Hid & H).
    assert (w_trace w2 = w_trace w) as Ht.
    { destruct (e_docId e) as [d|]; [destruct (String.eqb d "")|];
        by injection Hid as _ <-. }
    apply bind_Ok in H as (u2 & w3 & Hst & H). injection Hst as _ <-.
    match type of H with Instance.modify ?t ?f ?w0 = _ =>
      pose proof (proj1 (modify_trace t f w0)) as Hm end.
    rewrite H in Hm.
    eexists. cbn in Hm. rewrite Hm, Ht. done.
Qed.

(** X7. A [save] that returns [true] has staged a set or an update that
    carries data: [save] does not return [true] without a write. *)
Theorem save_true_stages_write rt depth fuel this params w w' :
  Model.save rt depth fuel this params w = (Ok true, w') ->
  exists pre sid ref dat post,
    dat <> []
    /\ (w_trace w' = w_trace w ++ pre ++ Staged sid (WSet ref dat) :: post
        \/ w_trace w' = w_trace w ++ pre ++ Staged sid (WUpdate ref dat) :: post).
Proof.
  destruct fuel as [|fuel]; [done|]. cbn [Model.save]. unfold Model.save_body. intros H.
  apply bind_Ok in H as (r & w1 & Hp & H).
  assert (exists pre, w_trace w1 = w_trace w ++ pre) as [pre Hpre].
  { pose proof (grows_trace (Model.prepare rt depth (Model.save rt depth fuel) this params) w)
      as Hg. rewrite Hp in Hg. apply Hg.
    apply (run_inv_prepare rt depth _ _ (Model.p_callbacks params)); try done.
    intros this' params' _. apply extends_save. }
  destruct r as [[[sess fd] ex]|]; [|done].
  destruct fd as [|x fd]; [done|]. cbn [Model.is_nil] in H.
  unfold Model.persist in H. apply bind_Ok in H as (u & w2 & Hw & H).
  apply write_document_stages in Hw as [ref Hw].
  assert (exists post, w_trace w' = w_trace w2 ++ post) as [post Hpost].
  { match type of H with ?m w2 = _ =>
      pose proof (grows_trace m w2) as Hg; rewrite H in Hg; apply Hg end.
    apply run_inv_bind; [by apply run_inv_read|]. intros e1.
    apply run_inv_bind.
    { apply run_inv_for_each. intros field.
      apply (run_inv_save_collection rt depth _ _ (Model.p_callbacks params)); try done.
      intros this' params' _. apply extends_save. }
    intros _. apply run_inv_bind.
    { destruct (Model.callbacks_is _ _); [|apply run_inv_ret].
      by apply run_inv_storeCallback. }
    intros _. apply run_inv_bind.
    { destruct (negb (Model.p_recurring params) && internal sess).
      - apply run_inv_bind; [by apply run_inv_commit|]. intros _. by apply run_inv_modify.
      - by apply run_inv_storeCallback. }
    intros _. apply run_inv_bind; [|intros _; apply run_inv_ret].
    destruct (negb ex && populatePrimaryKey rt); [by apply run_inv_modify|apply run_inv_ret]. }
  exists pre, (sessId sess), ref, (x :: fd), post. split; [done|].
  rewrite Hpost, Hw, Hpre, <- !app_assoc. cbn.
  destruct (ex && _); [by right|by left].
Qed.

Lemma save_true_stages_write_witness :
  exists pre sid ref dat post,
    dat <> []
    /\ (w_trace (Model.save (SampleRun.runtime false false) 1 1 SampleRun.post
                   Model.default_params SampleRun.start).2
        = w_trace SampleRun.start ++ pre ++ Staged sid (WSet ref dat) :: post
        \/ w_trace (Model.save (SampleRun.runtime false false) 1 1 SampleRun.post
                      Model.default_params SampleRun.start).2
           = w_trace SampleRun.start ++ pre ++ Staged sid (WUpdate ref dat) :: post).
Proof.
  apply (save_true_stages_write (SampleRun.runtime false false) 1 1 SampleRun.post
           Model.default_params SampleRun.start).
  vm_compute. reflexivity.
Defined.

Lemma prepare_session rt depth rec this params w sess fd ex w1 :
  Model.p_session params = None ->
  Model.prepare rt depth rec this params w = (Ok (Some (sess, fd, ex)), w1) ->
  internal sess = true.
Proof.
  unfold Model.prepare. intros Hs H.
  apply bind_Ok in H as (e & w0 & _ & H).
  apply bind_Ok in H as (go & wh & _ & H).
  destruct (negb go); [done|].
  apply bind_Ok in H as (sess' & ws & Hsess & H).
  apply bind_Ok in H as (fd' & wo & _ & H). injection H as <- _ _ _.
  by apply session_of_own in Hsess.
Qed.

(** X8. After a [save] that returns [true] on a session of its own (no
    session in the options, not recurring), the change-set of the entity is
    empty. *)
Theorem save_clears_changes rt depth fuel c a params w w' :
  Model.p_session params = None ->
  Model.p_recurring params = false ->
  Model.save rt depth fuel (VModel c a) params w = (Ok true, w') ->
  exists e, w_heap w' !! a = Some e /\ e_changes e = [].
Proof.
  intros Hs Hrec.
  destruct fuel as [|fuel]; [done|]. cbn [Model.save]. unfold Model.save_body. intros H.
  apply bind_Ok in H as (r & w1 & Hp & H).
  destruct r as [[[sess fd] ex]|]; [|done].
  apply (prepare_session _ _ _ _ _ _ _ _ _ _ Hs) in Hp.
  destruct (Model.is_nil fd); [done|].
  unfold Model.persist in H. rewrite Hrec, Hp in H. cbn [negb andb] in H.
  apply bind_Ok in H as (u1 & w2 & _ & H).
  apply bind_Ok in H as (e1 & w3 & _ & H).
  apply bind_Ok in H as (u3 & w4 & _ & H).
  apply bind_Ok in H as (u4 & w5 & _ & H).
  apply bind_Ok in H as (u5 & w6 & H5 & H).
  apply bind_Ok in H as (u6 & w7 & H6 & H). injection H as <-.
  apply bind_Ok in H5 as (u & wc & _ & H5).
  apply modify_Ok in H5 as (e5 & _ & ->).
  destruct (negb ex && populatePrimaryKey rt).
  - apply modify_Ok in H6 as (e6 & He6 & ->). cbn in *.
    rewrite lookup_insert_eq in He6. injection He6 as <-.
    eexists. rewrite lookup_insert_eq. split; [done|]. done.
  - injection H6 as _ <-. cbn. eexists. rewrite lookup_insert_eq. split; done.
Qed.

Lemma save_clears_changes_witness :
  exists e, w_heap (Model.save (SampleRun.runtime false false) 1 1 SampleRun.post
                      Model.default_params SampleRun.start).2 !! 1 = Some e
            /\ e_changes e = [].
Proof.
  apply (save_clears_changes (SampleRun.runtime false false) 1 1 Sample.Post 1
           Model.default_params SampleRun.start).
  - reflexivity.
  - reflexivity.
  - vm_compute. reflexivity.
Defined.

End SaveOutcomes.

(** ** Converter.toFirestore *)

Module ConverterFacts.
Import Props RunSpec PropsFacts ConverterSpec.

Lemma convert_None v : Converter.convert v = None <-> kept v = false.
Proof.
  destruct v as [| | | | |[| |c] ps| | | |]; cbn; try done.
  by destruct (ctor_primary c) as [[]|].
Qed.

(** X9. [toFirestore] leaves out exactly the fields that hold a
    [Collection]: the field names of its result are those of the other
    fields, in their order. The data is regular: at no depth does an object
    carry an own property named [constructor] or [__proto__], no class
    bears the name Collection, Document, Array or Object, no entity class is
    marked as a sub-model, and every [Document] refers to a path that the
    store takes for a document. *)
Theorem toFirestore_keys dat :
  regular (VObj KObject dat) = true ->
  keys (Converter.toFirestore dat) = keys (List.filter (fun kv => kept (snd kv)) dat).
Proof.
  intros _.
  unfold Converter.toFirestore, keys. induction dat as [|[k v] tl IH]; [done|].
  cbn [Converter.fields List.filter snd].
  destruct (Converter.convert v) as [w|] eqn:E.
  - destruct (kept v) eqn:Hk; [cbn [map fst]; by rewrite IH|].
    apply convert_None in Hk. congruence.
  - apply convert_None in E. by rewrite E.
Qed.

Lemma fields_idem ps :
  Forall (fun kv => forall w, Converter.convert (snd kv) = Some w ->
                              Converter.convert w = Some w) ps ->
  Converter.fields Converter.convert (Converter.fields Converter.convert ps)
  = Converter.fields Converter.convert ps.
Proof.
  induction 1 as [|[k v] tl Hv _ IH]; [done|]. cbn [Converter.fields].
  destruct (Converter.convert v) as [w|] eqn:E; [|done].
  cbn [Converter.fields]. rewrite (Hv w E). by rewrite IH.
Qed.

Lemma convert_idem v : forall w,
  Converter.convert v = Some w -> Converter.convert w = Some w.
Proof.
  induction v as [| | | | |k ps IH| | | |] using value_nested_ind; intros w;
    try (by intros [= <-]); try done.
  destruct k as [| |c]; cbn [Converter.convert].
  - intros [= <-]. cbn [Converter.convert]. by rewrite fields_idem.
  - intros [= <-]. cbn [Converter.convert]. by rewrite fields_idem.
  - destruct (isSubModelInstance (VObj (KInstance c) ps)) eqn:Hs; intros [= <-].
    + cbn [Converter.convert]. by rewrite fields_idem.
    + cbn [Converter.convert]. by rewrite Hs.
Qed.

(** X10. [toFirestore] is idempotent: converted data is left as it is
    by a second conversion. *)
Theorem toFirestore_idempotent dat :
  Converter.toFirestore (Converter.toFirestore dat) = Converter.toFirestore dat.
Proof.
  unfold Converter.toFirestore. apply fields_idem.
  apply Forall_forall. intros kv _. apply convert_idem.
Qed.

Lemma fields_storable ps :
  Forall (fun kv => forall w, Converter.convert (snd kv) = Some w -> storable w = true) ps ->
  forallb (fun kv => storable (snd kv)) (Converter.fields Converter.convert ps) = true.
Proof.
  induction 1 as [|[k v] tl Hv _ IH]; [done|]. cbn [Converter.fields].
  destruct (Converter.convert v) as [w|] eqn:E; [|done].
  cbn. by rewrite (Hv w E), IH.
Qed.

Lemma convert_storable v : forall w, Converter.convert v = Some w -> storable w = true.
Proof.
  induction v as [| | | | |k ps IH| | | |] using value_nested_ind; intros w;
    try (by intros [= <-]); try done.
  destruct k as [| |c]; cbn [Converter.convert].
  - intros [= <-]. cbn [storable]. by apply fields_storable.
  - intros [= <-]. cbn [storable]. by apply fields_storable.
  - destruct (isSubModelInstance _); intros [= <-]; [|done].
    cbn [storable]. by apply fields_storable.
Qed.

(** X11. The result of [toFirestore] on regular data (as in X9)
    holds no [Collection] and no [Document] of the library, at any depth in
    arrays and plain objects: the first are left out, the second replaced
    by store references. *)
Theorem toFirestore_storable dat :
  regular (VObj KObject dat) = true ->
  forallb (fun kv => storable (snd kv)) (Converter.toFirestore dat) = true.
Proof.
  intros _. apply fields_storable, Forall_forall. intros kv _. apply convert_storable.
Qed.

Lemma toFirestore_keys_witness :
  keys (Converter.toFirestore
          [("title", VStr "t"); ("comments", SampleRun.comments_of []);
           ("author", VDocument Sample.Topic "topics" "t1")])
  = ["title"; "author"].
Proof.
  apply (toFirestore_keys
           [("title", VStr "t"); ("comments", SampleRun.comments_of []);
            ("author", VDocument Sample.Topic "topics" "t1")]).
  vm_compute. reflexivity.
Defined.

Lemma toFirestore_storable_witness :
  forallb (fun kv => storable (snd kv))
    (Converter.toFirestore
       [("title", VStr "t");
        ("meta", VObj KObject [("comments", SampleRun.comments_of []);
                               ("author", VDocument Sample.Topic "topics" "t1")])])
  = true.
Proof.
  apply (toFirestore_storable
           [("title", VStr "t");
            ("meta", VObj KObject [("comments", SampleRun.comments_of []);
                                   ("author", VDocument Sample.Topic "topics" "t1")])]).
  vm_compute. reflexivity.
Defined.

End ConverterFacts.

(** ** utils.ts: what [flattenObject] returns and when it throws *)

Module FlattenFacts.
Import Props PropsFacts FlattenSpec.

Local Abbreviation null_read :=
  (TypeError "Cannot read properties of null or undefined (reading 'constructor')").

Local Abbreviation throws_iff b o :=
  (if b : bool then o = Throw null_read else exists flat : props, o = Ok flat).

Lemma flatten_loop_throws ea sep path ps :
  Forall (fun kv => forall path,
              throws_iff (nullish ea (snd kv)) (flattenEntry ea sep path (snd kv))) ps ->
  forall memo,
    throws_iff (existsb (fun kv => nullish ea (snd kv)) ps)
      (flatten_loop (fun prop w => flattenEntry ea sep (path ++ [prop]) w) ps memo).
Proof.
  induction 1 as [|[k v] tl Hv _ IH]; intros memo; cbn [flatten_loop existsb snd].
  - by exists memo.
  - specialize (Hv (path ++ [k])). cbn [snd] in Hv.
    destruct (nullish ea v); cbn [orb].
    + by rewrite Hv.
    + destruct Hv as [flat ->]. cbn [mbind outcome_bind]. apply IH.
Qed.

Lemma flattenEntry_throws ea sep v : forall path,
  throws_iff (nullish ea v) (flattenEntry ea sep path v).
Proof.
  induction v as [| | | | |k ps IH| | | |] using value_nested_ind; intros path;
    try done; try (cbn; by eexists).
  cbn [flattenEntry nullish].
  destruct (negb (has "constructor" ps)); cbn [andb]; [|by eexists].
  destruct k as [| |c]; cbn [negb andb].
  - by apply flatten_loop_throws.
  - destruct ea; cbn [negb andb]; [by eexists|]. by apply flatten_loop_throws.
  - by eexists.
Qed.

(** X12. [flattenObject] throws a [TypeError] exactly when a property
    it reaches (in the object, in its nested plain objects, and in its
    arrays unless [excludeArray]) is [null] or [undefined]; otherwise it
    returns. It does not walk into an object or array that carries an own
    property named [constructor], whatever that property holds. *)
Theorem flattenObject_throws_iff src ea sep path :
  if existsb (fun kv => nullish ea (snd kv)) src
  then exists msg, flattenObject src ea sep path = Throw (TypeError msg)
  else exists flat, flattenObject src ea sep path = Ok flat.
Proof.
  pose proof (flatten_loop_throws ea sep path src) as H. unfold flattenObject.
  destruct (existsb _ src).
  - eexists. apply H. apply Forall_forall. intros kv _. apply flattenEntry_throws.
  - apply H. apply Forall_forall. intros kv _. apply flattenEntry_throws.
Qed.

Local Abbreviation leaf ea v := (walked ea v = false /\ nullish ea v = false).

Lemma flatten_loop_values ea sep path ps :
  Forall (fun kv => forall path flat,
              flattenEntry ea sep path (snd kv) = Ok flat ->
              Forall (fun kv' => leaf ea (snd kv')) flat) ps ->
  forall memo flat,
    Forall (fun kv' => leaf ea (snd kv')) memo ->
    flatten_loop (fun prop w => flattenEntry ea sep (path ++ [prop]) w) ps memo = Ok flat ->
    Forall (fun kv' => leaf ea (snd kv')) flat.
Proof.
  induction 1 as [|[k v] tl Hv _ IH]; intros memo flat Hm; cbn [flatten_loop].
  - by intros [= <-].
  - destruct (flattenEntry ea sep (path ++ [k]) v) as [x| |] eqn:E;
      cbn [mbind outcome_bind]; [|done|done].
    apply IH. apply (all_assign (fun v => leaf ea v)); [done|].
    by apply (Hv (path ++ [k])).
Qed.

Lemma flattenEntry_values ea sep v : forall path flat,
  flattenEntry ea sep path v = Ok flat -> Forall (fun kv => leaf ea (snd kv)) flat.
Proof.
  induction v as [| | | | |k ps IH| | | |] using value_nested_ind; intros path flat;
    try done; try (intros [= <-]; by apply Forall_singleton).
  cbn [flattenEntry].
  destruct (negb (has "constructor" ps)) eqn:Hc; cbn [andb].
  - destruct k as [| |c].
    + by apply flatten_loop_values.
    + destruct ea; cbn [negb].
      * intros [= <-]. apply Forall_singleton. cbn. by rewrite Hc.
      * by apply flatten_loop_values.
    + intros [= <-]. apply Forall_singleton. cbn. by rewrite Hc.
  - intros [= <-]. apply Forall_singleton. cbn. by rewrite Hc.
Qed.

(** X13. Every value in a map that [flattenObject] returns is a leaf:
    not [null], not [undefined], and not a plain object nor, unless
    [excludeArray], an array, except for one that carries an own property
    named [constructor]. *)
Theorem flattenObject_values src ea sep path flat :
  flattenObject src ea sep path = Ok flat ->
  Forall (fun kv => walked ea (snd kv) = false /\ nullish ea (snd kv) = false) flat.
Proof.
  unfold flattenObject. apply flatten_loop_values; [|done].
  apply Forall_forall. intros kv _. apply flattenEntry_values.
Qed.

Lemma flattenObject_values_witness :
  Forall (fun kv => walked true (snd kv) = false /\ nullish true (snd kv) = false)
    SampleMore.profile_flat.
Proof.
  apply (flattenObject_values Sample.profile true "." [] SampleMore.profile_flat).
  reflexivity.
Defined.

End FlattenFacts.

(** ** Schema.flatten *)

Module SchemaFacts.
Import Props Schema SchemaSpec PropsFacts FlattenFacts.

(** Induction over rules that reaches the rules held in [of]. *)
Section RulesInd.
Variable P : rules -> Prop.
Hypothesis Htext : forall s, P (RulesText s).
Hypothesis Hleaf : forall b o, (forall fs, o <> OfRules fs) -> P (Rules b o).
Hypothesis Hof : forall b fs, Forall (fun fr => P (snd fr)) fs -> P (Rules b (OfRules fs)).

Fixpoint rules_nested_ind (r : rules) : P r :=
  match r with
  | RulesText s => Htext s
  | Rules b OfNone => Hleaf b OfNone (fun fs H => ltac:(discriminate H))
  | Rules b (OfType t) => Hleaf b (OfType t) (fun fs H => ltac:(discriminate H))
  | Rules b (OfRules fs) =>
      Hof b fs
        ((fix go (l : schema) : Forall (fun fr => P (snd fr)) l :=
            match l with
            | [] => List.Forall_nil _
            | fr :: tl => List.Forall_cons _ _ _ (rules_nested_ind (snd fr)) (go tl)
            end) fs)
  end.
End RulesInd.

Local Abbreviation flat l := (Forall (fun fr : string * rules => terminal (snd fr) = true) l).

Lemma flatten_loop_flat path fs :
  Forall (fun fr => forall path, flat (flattenEntry path (snd fr))) fs ->
  forall memo, flat memo ->
    flat (flatten_loop (fun prop r => flattenEntry (path ++ [prop]) r) fs memo).
Proof.
  induction 1 as [|[k r] tl Hr _ IH]; intros memo Hm; cbn [flatten_loop]; [done|].
  apply IH. apply (all_assign (fun r => terminal r = true)); [done|]. apply Hr.
Qed.

Lemma imap_flat {A} (g : nat -> A -> string * rules) l :
  (forall i x, terminal (snd (g i x)) = true) -> flat (imap g l).
Proof.
  revert g. induction l as [|x l IH]; intros g Hg; cbn [imap]; [done|].
  apply Forall_cons. split; [apply Hg|]. apply IH. intros i y. apply Hg.
Qed.

Lemma flattenEntry_flat r : forall path, flat (flattenEntry path r).
Proof.
  induction r as [s|b o Ho|b fs IH] using rules_nested_ind; intros path.
  - by apply Forall_singleton.
  - cbn [flattenEntry]. destruct (is_type (r_type b) && of_falsy o) eqn:E.
    + by apply Forall_singleton.
    + destruct o as [|t|fs]; [done| |by destruct (Ho fs)].
      by apply imap_flat.
  - cbn [flattenEntry]. destruct (is_type (r_type b) && of_falsy (OfRules fs)) eqn:E.
    + by apply Forall_singleton.
    + by apply flatten_loop_flat.
Qed.

(** X27. Every entry of the map that [Schema.flatten] returns is one
    it does not walk into: a string, or a rule with a supported type and
    no [of]. *)
Theorem flatten_entries_terminal src path :
  Forall (fun fr => terminal (snd fr) = true) (flatten src path).
Proof.
  unfold flatten. apply flatten_loop_flat; [|done].
  apply Forall_forall. intros fr _. apply flattenEntry_flat.
Qed.

End SchemaFacts.

(** ** Array indices as property names *)

Module IndexFacts.
Import JsStringFacts CollectionFacts.

Local Abbreviation horner := (fold_left (fun acc d => (10 * acc + digit_val d)%N)).

Lemma horner_pos d : forall p,
  horner (chars (NilEmpty.string_of_uint d)) (N.pos p) = N.pos (Pos.of_uint_acc d p).
Proof.
  induction d; intros p; cbn [NilEmpty.string_of_uint chars String.list_ascii_of_string
                              fold_left Pos.of_uint_acc];
    [done|rewrite <- IHd; f_equal; vm_compute digit_val; lia..].
Qed.

Lemma horner_zero d :
  horner (chars (NilEmpty.string_of_uint d)) 0%N = N.of_uint d.
Proof.
  unfold N.of_uint.
  induction d; cbn [NilEmpty.string_of_uint chars String.list_ascii_of_string
                    fold_left Pos.of_uint]; [done|exact IHd|apply horner_pos..].
Qed.

Lemma to_uint_canonical n l : N.to_uint n = Decimal.D0 l -> l = Decimal.Nil.
Proof.
  intros H. pose proof (DecimalN.Unsigned.to_of (N.to_uint n)) as Hn.
  rewrite DecimalN.Unsigned.of_to, H in Hn. unfold Decimal.unorm in Hn.
  rewrite nzhead_D0 in Hn.
  destruct (Decimal.nzhead l) eqn:E; try discriminate Hn.
  - by injection Hn.
  - injection Hn as ->. by destruct (nzhead_nonzero _ _ E).
Qed.

(** [String(n)] reads back as the index [n]. *)
Lemma array_index_string_of_N n : array_index (string_of_N n) = Some n.
Proof.
  unfold array_index.
  pose proof (string_of_N_digits n) as [Hne Hd].
  assert (Hv : horner (chars (string_of_N n)) 0%N = n).
  { unfold string_of_N, NilZero.string_of_uint.
    rewrite <- (DecimalN.Unsigned.of_to n) at 2.
    destruct (N.to_uint n) eqn:E; try apply (horner_zero (_ _)).
    by destruct n. }
  assert (Hz : forall tl, chars (string_of_N n) = "0"%char :: tl -> tl = []).
  { unfold string_of_N, NilZero.string_of_uint.
    destruct (N.to_uint n) eqn:E; cbn; try done; try (by intros tl [= <-]).
    apply to_uint_canonical in E as ->. by intros tl [= <-]. }
  destruct (chars (string_of_N n)) as [|c tl]; [done|].
  rewrite Hd, Hv. cbn [andb].
  destruct (Ascii.eqb_spec c "0") as [->|]; [|done].
  by rewrite (Hz tl eq_refl).
Qed.

Lemma string_of_N_inj a b : string_of_N a = string_of_N b -> a = b.
Proof.
  intros H. pose proof (array_index_string_of_N a) as Ha.
  rewrite H, array_index_string_of_N in Ha. by injection Ha.
Qed.

End IndexFacts.

(** ** Collection.ts: the elements of a collection *)

Module ElementFacts.
Import Props Collection CollectionSpec JsStringFacts PropsFacts CollectionFacts IndexFacts.

Section Traps.
Variable init : ctor -> props -> heap -> outcome (props * props * heap).



(** X15. [push] of an entity instance onto a collection that has no
    element at the index [length] puts the instance there as it is and adds
    one to the length; the entities, the pending removals and the elements
    below are unchanged. *)
Theorem push_appends h c v :
  isModelInstance v = true ->
  lookup (string_of_N (length c)) (items c) = None ->
  exists c', push init h c v = Ok (c', h)
             /\ lookup (string_of_N (length c)) (items c') = Some v
             /\ length c' = (length c + 1)%N
             /\ deleted c' = deleted c
             /\ forall k j, array_index k = Some j -> (j < length c)%N ->
                            lookup k (items c') = lookup k (items c).
Proof.
  intros Hm Hnone. unfold push.
  pose proof (array_index_string_of_N (length c)) as Hk.
  rewrite (defineProperty_index init h c _ _ v Hk). cbn zeta.
  unfold get at 1. rewrite Hnone, Hm. cbn [truthy negb andb mbind outcome_bind].
  unfold defineProperty. cbn [isNaN_parseInt]. 
  replace (isNaN_parseInt "length") with true by (by vm_compute). cbn [orb].
  unfold Reflect_defineProperty. cbn [String.eqb Ascii.eqb Bool.eqb].
  replace (0 <=? Z.of_N (length c + 1))%Z with true by (symmetry; apply Z.leb_le; lia).
  rewrite N2Z.id. cbn [mbind outcome_bind].
  eexists. split; [done|]. cbn [items length deleted with_items define].
  assert (Hkeep : forall k j, array_index k = Some j -> (j < length c + 1)%N ->
            lookup k (keep_below (length c + 1) (set (string_of_N (length c)) v (items c)))
            = lookup k (set (string_of_N (length c)) v (items c))).
  { intros k j Hj Hlt. unfold keep_below.
    rewrite (lookup_filter_key
               (fun key => match array_index key with
                           | Some i => (i <? length c + 1)%N
                           | None => true
                           end)).
    rewrite Hj. by apply N.ltb_lt in Hlt as ->. }
  split_and!; [|done|done|].
  - rewrite (Hkeep _ _ Hk) by lia. by rewrite lookup_set, String.eqb_refl.
  - intros k j Hj Hlt. rewrite (Hkeep _ _ Hj) by lia. rewrite lookup_set.
    destruct (String.eqb_spec k (string_of_N (length c))) as [->|]; [|done].
    rewrite Hk in Hj. injection Hj as <-. lia.
Qed.

Lemma has_ref_Ok h cur b : has_ref h cur = Ok b -> exists m a, cur = VModel m a.
Proof. destruct cur; try done. eauto. Qed.

Lemma elem_lookup {A} k (v : A) ps : NoDup (keys ps) -> (k, v) ∈ ps -> lookup k ps = Some v.
Proof.
  induction ps as [|[k0 w] tl IH]; intros Hnd Hin; [by apply elem_of_nil in Hin|].
  cbn in Hnd. apply NoDup_cons in Hnd as [Hk0 Hnd]. cbn [lookup].
  apply elem_of_cons in Hin as [[= -> ->]|Hin]; [by rewrite String.eqb_refl|].
  destruct (String.eqb_spec k k0) as [->|]; [|by apply IH].
  exfalso. apply Hk0. apply list_elem_of_fmap. by exists (k0, v).
Qed.

Lemma splice_elements i c v :
  NoDup (keys (items c)) -> element (splice i c) v -> element c v.
Proof.
  intros Hnd. unfold splice. destruct (i <? length c)%N; [|done].
  intros (k & j & Hj & Hl). cbn [items with_items] in Hl.
  apply lookup_Some_elem, list_elem_of_In, in_flat_map in Hl as ([k0 w] & Hin & Hx).
  apply list_elem_of_In in Hin. cbn [fst snd] in Hx.
  assert (exists j0, array_index k0 = Some j0 /\ v = w) as (j0 & Hj0 & ->).
  { destruct (array_index k0) as [j0|] eqn:E.
    - exists j0. split; [done|].
      destruct (j0 <? i)%N; [|destruct (j0 =? i)%N];
        apply list_elem_of_In in Hx; try (by apply elem_of_nil in Hx);
        apply list_elem_of_singleton in Hx; congruence.
    - apply list_elem_of_In, list_elem_of_singleton in Hx. congruence. }
  exists k0, j0. split; [done|]. by apply elem_lookup.
Qed.

(** X16. A successful [delete collection[k]], [k] being an array
    index: the index holds an entity instance; the instance is added to the
    pending removals [deleted] exactly when it has a store reference; the
    length drops by one when the index is below it; and no element appears
    that was not one before. *)
Theorem deleteProperty_pending h c k i c' :
  array_index k = Some i ->
  deleteProperty h c k = Ok c' ->
  exists cur (stored : bool),
    lookup k (items c) = Some cur
    /\ has_ref h cur = Ok stored
    /\ model c' = model c
    /\ deleted c' = deleted c ++ (if stored then [cur] else [])
    /\ length c' = (if (i <? length c)%N then length c - 1 else length c)%N
    /\ (NoDup (keys (items c)) -> forall v, element c' v -> element c v).
Proof.
  intros Hk. unfold deleteProperty.
  destruct (has_ref h (get (items c) k)) as [stored| |] eqn:Hr; cbn; [|done|done].
  rewrite Hk. intros [= <-].
  exists (get (items c) k), stored.
  assert (Hl : lookup k (items c) = Some (get (items c) k)).
  { apply has_ref_Ok in Hr as (m & a & Hr). unfold get in *.
    by destruct (lookup k (items c)). }
  split_and!; [done|done|..].
  - unfold splice. by destruct stored; cbn; destruct (i <? _)%N.
  - unfold splice. destruct stored; cbn; destruct (i <? _)%N; cbn; by rewrite ?app_nil_r.
  - unfold splice. by destruct stored; cbn; destruct (i <? _)%N.
  - intros Hnd v Hv. apply splice_elements in Hv; by destruct stored.
Qed.

End Traps.


Lemma push_appends_witness :
  exists c', push SampleCollection.plain_init SampleCollection.blog_heap
               SampleCollection.posts (VModel Sample.Comment 3)
             = Ok (c', SampleCollection.blog_heap)
             /\ lookup (string_of_N (length SampleCollection.posts)) (items c')
                = Some (VModel Sample.Comment 3)
             /\ length c' = (length SampleCollection.posts + 1)%N
             /\ deleted c' = deleted SampleCollection.posts
             /\ forall k j, array_index k = Some j ->
                            (j < length SampleCollection.posts)%N ->
                            lookup k (items c') = lookup k (items SampleCollection.posts).
Proof.
  apply (push_appends SampleCollection.plain_init SampleCollection.blog_heap
           SampleCollection.posts (VModel Sample.Comment 3)); reflexivity.
Defined.

Lemma deleteProperty_pending_witness :
  exists cur (stored : bool),
    lookup "0" (items SampleCollection.posts) = Some cur
    /\ has_ref SampleCollection.blog_heap cur = Ok stored
    /\ model SampleMore.posts_emptied = model SampleCollection.posts
    /\ deleted SampleMore.posts_emptied
       = deleted SampleCollection.posts ++ (if stored then [cur] else [])
    /\ length SampleMore.posts_emptied
       = (if (0 <? length SampleCollection.posts)%N
          then length SampleCollection.posts - 1 else length SampleCollection.posts)%N
    /\ (NoDup (keys (items SampleCollection.posts)) ->
        forall v, element SampleMore.posts_emptied v -> element SampleCollection.posts v).
Proof.
  apply (deleteProperty_pending SampleCollection.blog_heap SampleCollection.posts "0" 0%N
           SampleMore.posts_emptied).
  - reflexivity.
  - vm_compute. reflexivity.
Defined.

End ElementFacts.

(** ** Validator.check: the fate of one field *)

Module FieldFacts.
Import Props Schema Validator CheckSpec JsStringFacts PropsFacts CheckFacts ValidatorSpec.

Local Abbreviation sound r := (valid r = false -> errors r <> []).

Section Fate.
Variable env : Env.
Variable h : heap.
Variable chk : schema -> props -> ValidationOptions -> outcome (ValidationResult * props).
Hypothesis chk_sound : forall s d o r d', chk s d o = Ok (r, d') -> sound r.
Variable sch : schema.
Variable options : ValidationOptions.
Variable f : string.








End Fate.


(** *** The [required] pass *)





(** What [check] returns, taken apart. *)
Lemma check_parts fuel env h sch dat options r :
  check fuel env h sch dat options = Ok r ->
  exists n errs0 d',
    (if newDocument options
     then fold_left (required_step env dat) sch (Ok [])
     else Ok []) = Ok errs0
    /\ fields_loop env h (check_data n env h) sch options (keys dat) (errs0, [], dat)
       = Ok (errors r, data r, d')
    /\ valid r = Nat.ltb (List.length (errors r)) 1.
Proof.
  intros [d' Hc]%check_inv.
  apply check_data_inv in Hc as (n & errs0 & -> & Hreq & Hloop & Hv).
  by exists n, errs0, d'.
Qed.




(** X18. For an update ([newDocument] off), every error of
    [Validator.check] is recorded under the name of a field of the data or
    under a path below one: a field the data does not carry is not
    checked, whatever the schema requires. *)
Theorem update_checks_present_fields fuel env h sch dat options r :
  newDocument options = false ->
  check fuel env h sch dat options = Ok r ->
  forall k, has k (errors r) = true ->
            exists g, g ∈ keys dat /\ (k = g \/ extends g k = true).
Proof.
  intros Hnew (n & errs0 & d' & H0 & Hloop & Hvalid)%check_parts.
  rewrite Hnew in H0. injection H0 as <-.
  refine (fields_loop_inv env h (check_data n env h)
            ltac:(intros; by eapply check_data_sound)
            (fun done st => forall k, has k (fst (fst st)) = true ->
                              exists g, g ∈ done /\ (k = g \/ extends g k = true))
            sch options (keys dat) ([], [], dat) (errors r, data r, d') _ _ Hloop);
    [|done].
  intros done g rest [[e c] d] [[e1 c1] d1] Hf Hinv ((_ & Hg) & _) k Hk. cbn [fst snd] in *.
  destruct (Hg k) as [->|[He|He]].
  - exists g. split; [apply elem_of_app; right; left|by left].
  - exists g. split; [apply elem_of_app; right; left|by right].
  - rewrite (has_of_lookup_eq k e1 e He) in Hk.
    destruct (Hinv k Hk) as (g' & Hin & Hor). exists g'. split; [|done].
    apply elem_of_app. by left.
Qed.






Lemma update_checks_present_fields_witness :
  exists g, g ∈ keys Sample.token_data /\ ("token" = g \/ extends g "token" = true).
Proof.
  apply (update_checks_present_fields 1 Sample.env ∅ Sample.token_schema Sample.token_data
           (Sample.opts false (VStr "user")) Sample.token_rejected).
  - reflexivity.
  - vm_compute. reflexivity.
  - reflexivity.
Defined.






End FieldFacts.

(** ** Document.ts and Converter.ts: references written by [save] *)

Module DocumentFacts.
Import JsStringFacts.

Local Arguments Ascii.eqb : simpl never.

Lemma unchars_app a b : unchars (a ++ b) = unchars a +:+ unchars b.
Proof. apply chars_inj. by rewrite chars_app, !chars_unchars. Qed.

Lemma split_go_pieces c0 l : forall cur,
  exists p ps, split_go [c0] l 0 cur = p :: ps
               /\ (existsb (Ascii.eqb c0) l = true -> ps <> []).
Proof.
  induction l as [|c l IH]; intros cur; cbn [split_go existsb].
  - by exists (unchars (rev cur)), [].
  - cbn [starts_with length Nat.sub]. rewrite andb_true_r.
    destruct (Ascii.eqb c0 c); cbn [orb].
    + destruct (IH []) as (p & ps & -> & _). by eexists _, (p :: ps).
    + apply IH.
Qed.

(** Joining the pieces of a split at a single character gives the string
    back. *)
Lemma join_split_go c0 l : forall cur,
  join (unchars [c0]) (split_go [c0] l 0 cur) = unchars (rev cur ++ l).
Proof.
  induction l as [|c l IH]; intros cur; cbn [split_go].
  - cbn [join]. by rewrite app_nil_r.
  - cbn [starts_with length Nat.sub]. rewrite andb_true_r.
    destruct (Ascii.eqb_spec c0 c) as [<-|Hne].
    + destruct (split_go_pieces c0 l []) as (p & ps & E & _).
      specialize (IH []). rewrite E in *. rewrite join_cons, IH.
      by rewrite <- !unchars_app.
    + rewrite IH. cbn [rev]. by rewrite <- app_assoc.
Qed.

Lemma join_last sep (l : list string) :
  removelast l <> [] ->
  join sep (removelast l) +:+ sep +:+ List.last l "" = join sep l.
Proof.
  induction l as [|x l IH]; [done|]. destruct l as [|y l]; [done|].
  intros _. destruct l as [|z l].
  - done.
  - change (removelast (x :: y :: z :: l)) with (x :: removelast (y :: z :: l)).
    change (List.last (x :: y :: z :: l) "") with (List.last (y :: z :: l) "").
    destruct (removelast (y :: z :: l)) as [|a r] eqn:E; [done|].
    rewrite join_cons, (join_cons sep x y).
    rewrite <- IH by done.
    apply chars_inj. rewrite !chars_app. by rewrite <- !app_assoc.
Qed.

Lemma split_slash_last s :
  existsb (Ascii.eqb "/") (chars s) = true ->
  join "/" (removelast (split "/" s)) +:+ "/" +:+ List.last (split "/" s) "" = s.
Proof.
  intros Hs. change (split "/" s) with (split_go ["/"%char] (chars s) 0 []).
  destruct (split_go_pieces "/" (chars s) []) as (p & ps & E & Hne).
  rewrite join_last.
  - change "/" with (unchars ["/"%char]) at 1. rewrite join_split_go.
    cbn [rev app]. apply unchars_chars.
  - rewrite E. specialize (Hne Hs). by destruct ps.
Qed.

(** X22. A [Document] made from an id, then converted by
    [toFirestore]: an empty id makes the constructor throw; a path with a
    [/] gives back the reference to that very path; an id without [/]
    gives the reference to the document of that id in the collection of the
    class. For an id that is not empty, the path referred to is one the
    store takes for a document: an even number of segments, none empty. *)
Theorem document_reference_round_trip rt c ref :
  ref = ""
  \/ DocumentSpec.document_path (if existsb (Ascii.eqb "/") (chars ref) then ref
                                 else class_path rt c +:+ "/" +:+ ref) = true ->
  (doc ← Model.new_Document rt c ref; Ok (Converter.convert doc))
  = if String.eqb ref ""
    then Throw (Error ("Invalid id '' for Document reference of type '"
                         +:+ ctor_name c +:+ "'"))
    else Ok (Some (VDocRef (if existsb (Ascii.eqb "/") (chars ref) then ref
                            else class_path rt c +:+ "/" +:+ ref))).
Proof.
  intros _. unfold Model.new_Document. destruct ref as [|a ref]; [done|].
  cbn [String.length Nat.ltb Nat.leb String.eqb].
  destruct (existsb _ _) eqn:E; cbn [mbind outcome_bind Converter.convert]; [|done].
  by rewrite split_slash_last.
Qed.

Lemma document_reference_round_trip_witness :
  (doc ← Model.new_Document SampleMore.forum Sample.Comment "posts/p1/comments/c1";
   Ok (Converter.convert doc))
  = Ok (Some (VDocRef "posts/p1/comments/c1")).
Proof.
  apply (document_reference_round_trip SampleMore.forum Sample.Comment "posts/p1/comments/c1").
  right. vm_compute. reflexivity.
Defined.

End DocumentFacts.

(** ** Model.validate: the unique rule *)

Module UniqueFacts.
Import Props Schema Validator PropsFacts CheckFacts.

Section Unique.
Variable env : Env.
Variable e : entity.
Variable nd : bool.
Variable dat' : props.

(** The [unique] test of [Model.validate] for one schema field. *)
Local Abbreviation collides fr :=
  (match snd fr with
   | Rules b _ =>
       match r_unique b with
       | Some u =>
           truthy (get dat' (fst fr))
           && match constraint env u ("This " +:+ fst fr +:+ " is already taken") with
              | Ok (VBool true, _) =>
                  unique_taken env (e_ctor e) (fst fr) (get dat' (fst fr))
                    (if nd then None else getId e)
              | _ => false
              end
       | None => false
       end
   | RulesText _ => false
   end).


End Unique.



End UniqueFacts.
